(** * Contact search queries (temba/contacts/search/parser.py)

    A shallow embedding of the contact query language of RapidPro: the
    query tree ([Condition], [IsSetCondition], [BoolCombination],
    [SinglePropCombination]), the visitor that builds it from a parse tree,
    the optimizer ([simplify], [split_by_prop]), the property resolver
    ([get_prop_map]) and the three translations of a tree: to a Django [Q]
    object ([as_query]), to an Elasticsearch query ([as_elasticsearch]) and
    the evaluation against a contact given as JSON ([evaluate]).

    Python exceptions are the [Raise] results of an error monad.  Strings
    are [string]s of 8-bit characters: upper and lower casing act on the
    letters a-z and A-Z only. *)

From Stdlib Require Import ZArith List String Ascii Bool Lia.
From stdpp Require Import base option list gmap strings pretty.

Set Warnings "-register-all".

Local Open Scope string_scope.
Local Open Scope Z_scope.
Local Open Scope list_scope.

(** ** Exceptions and results *)

Inductive Exception : Type :=
| SearchException (message : string)
| ValueError (message : string)
| AssertionError
| AttributeError
| KeyError (key : string)
| TypeError.

Inductive Result (A : Type) : Type :=
| Ok (a : A)
| Raise (e : Exception).

Arguments Ok {A} a.
Arguments Raise {A} e.

Definition bind {A B : Type} (r : Result A) (k : A -> Result B) : Result B :=
  match r with
  | Ok a => k a
  | Raise e => Raise e
  end.

#[global] Instance Result_bind : MBind Result := fun A B k r => bind r k.
#[global] Instance Result_ret : MRet Result := fun A a => Ok a.

(** A list comprehension [[f(c) for c in l]]: the elements are computed from
    left to right and the first exception ends the loop. *)
Definition for_each {A B : Type} (f : A -> Result B) : list A -> Result (list B) :=
  fix go (l : list A) : Result (list B) :=
    match l with
    | [] => Ok []
    | a :: l' => b ← f a ; bs ← go l' ; Ok (b :: bs)
    end.

(** ** The query tree *)

(** [BoolCombination.AND] is [operator.and_], [BoolCombination.OR] is
    [operator.or_]. *)
Inductive BoolOp : Type := AND | OR.

Definition BoolOp_eqb (a b : BoolOp) : bool :=
  match a, b with
  | AND, AND | OR, OR => true
  | _, _ => false
  end.

(** The value of a condition is a string, or the list of the values of
    other conditions in the condition that
    [SinglePropCombination.as_query] builds. *)
Inductive CondValue : Type :=
| Str (s : string)
| ValueList (l : list CondValue).

(** A [Condition] object; [is_set_condition] tells the subclass
    [IsSetCondition] from [Condition] itself. *)
Record Condition : Type := mkCondition {
  is_set_condition : bool;
  prop : string;
  comparator : string;
  value : CondValue
}.

Definition COMPARATOR_ALIASES (cmp : string) : option string :=
  if String.eqb cmp "is" then Some "="
  else if String.eqb cmp "has" then Some "~"
  else None.

(** [Condition.__init__] *)
Definition Condition_init (p cmp : string) (v : CondValue) : Condition :=
  {| is_set_condition := false;
     prop := p;
     comparator := match COMPARATOR_ALIASES cmp with
                   | Some c => c
                   | None => cmp
                   end;
     value := v |}.

(** [IsSetCondition.__init__] *)
Definition IsSetCondition_init (p cmp : string) : Condition :=
  {| is_set_condition := true;
     prop := p;
     comparator := comparator (Condition_init p cmp (Str ""));
     value := Str "" |}.

Inductive QueryNode : Type :=
| Cond (c : Condition)
| BoolCombination (op : BoolOp) (children : list QueryNode)
| SinglePropCombination (sprop : string) (op : BoolOp) (children : list QueryNode).

(** [isinstance(c, Condition) and c.prop == prop] *)
Definition is_condition_on (p : string) (c : QueryNode) : bool :=
  match c with
  | Cond c => String.eqb (prop c) p
  | _ => false
  end.

(** [SinglePropCombination.__init__]: the assertion, then the node. *)
Definition SinglePropCombination_init (p : string) (op : BoolOp)
    (children : list QueryNode) : Result QueryNode :=
  if forallb (is_condition_on p) children
  then Ok (SinglePropCombination p op children)
  else Raise AssertionError.

(** [get_prop_names] *)
Fixpoint get_prop_names (n : QueryNode) : list string :=
  match n with
  | Cond c => [prop c]
  | BoolCombination _ children
  | SinglePropCombination _ _ children => concat (map get_prop_names children)
  end.

(** ** The optimizer *)

(** The loop of [BoolCombination.simplify] over the simplified children:
    [None] is its early [return self], [Some simplified] the list it has
    built when it ends. *)
Fixpoint simplify_loop (self_op : BoolOp) (children simplified : list QueryNode)
    : option (list QueryNode) :=
  match children with
  | [] => Some simplified
  | child :: rest =>
      match child with
      | Cond _ => simplify_loop self_op rest (simplified ++ [child])
      | BoolCombination op cs | SinglePropCombination _ op cs =>
          if negb (BoolOp_eqb op self_op) then None
          else simplify_loop self_op rest (simplified ++ cs)
      end
  end.

(** [QueryNode.simplify] and [BoolCombination.simplify], which
    [SinglePropCombination] inherits. *)
Fixpoint simplify (n : QueryNode) : QueryNode :=
  match n with
  | Cond _ => n
  | BoolCombination op children =>
      let children' := map simplify children in
      match simplify_loop op children' [] with
      | None => BoolCombination op children'
      | Some simplified => BoolCombination op simplified
      end
  | SinglePropCombination p op children =>
      let children' := map simplify children in
      match simplify_loop op children' [] with
      | None => SinglePropCombination p op children'
      | Some simplified => BoolCombination op simplified
      end
  end.

(** [child.prop if isinstance(child, Condition) else None] *)
Definition prop_of (child : QueryNode) : option string :=
  match child with
  | Cond c => Some (prop c)
  | _ => None
  end.

(** The [OrderedDict] [children_by_prop]: keys in the order of their first
    insertion. *)
Definition OrderedDict : Type := list (option string * list QueryNode).

(** The body of the first loop of [split_by_prop]: a new key gets the list
    [[child]] at the end of the dictionary, a known key has [child] appended
    to its list. *)
Fixpoint od_append (p : option string) (child : QueryNode) (d : OrderedDict)
    : OrderedDict :=
  match d with
  | [] => [(p, [child])]
  | (p', cs) :: d' =>
      if decide (p' = p) then (p', cs ++ [child]) :: d'
      else (p', cs) :: od_append p child d'
  end.

Definition children_by_prop (children : list QueryNode) : OrderedDict :=
  fold_left (fun d child => od_append (prop_of child) child d) children [].

(** The second loop of [split_by_prop]. *)
Fixpoint new_children_of (op : BoolOp) (items : OrderedDict)
    : Result (list QueryNode) :=
  match items with
  | [] => Ok []
  | (p, children) :: items' =>
      here ← match p with
               | Some p' =>
                   if (1 <? length children)%nat
                   then n ← SinglePropCombination_init p' op children ; Ok [n]
                   else Ok children
               | None => Ok children
               end ;
      rest ← new_children_of op items' ;
      Ok (here ++ rest)
  end.

(** What [split_by_prop] does once the children are split. *)
Definition regroup (op : BoolOp) (children : list QueryNode) : Result QueryNode :=
  new_children ← new_children_of op (children_by_prop children) ;
  match new_children with
  | [only] => Ok only
  | _ => Ok (BoolCombination op new_children)
  end.

(** [QueryNode.split_by_prop] and [BoolCombination.split_by_prop], which
    [SinglePropCombination] inherits. *)
Fixpoint split_by_prop (n : QueryNode) : Result QueryNode :=
  match n with
  | Cond _ => Ok n
  | BoolCombination op children
  | SinglePropCombination _ op children =>
      children' ← for_each split_by_prop children ;
      regroup op children'
  end.

(** ** Strings *)

Definition upper_char (a : ascii) : ascii :=
  let n := nat_of_ascii a in
  if ((97 <=? n) && (n <=? 122))%nat then ascii_of_nat (n - 32) else a.

Definition lower_char (a : ascii) : ascii :=
  let n := nat_of_ascii a in
  if ((65 <=? n) && (n <=? 90))%nat then ascii_of_nat (n + 32) else a.

Fixpoint map_string (f : ascii -> ascii) (s : string) : string :=
  match s with
  | EmptyString => EmptyString
  | String a s' => String (f a) (map_string f s')
  end.

(** [s.upper()] and [s.lower()] *)
Definition upper (s : string) : string := map_string upper_char s.
Definition lower (s : string) : string := map_string lower_char s.

(** [s[:n]] *)
Definition take_string (n : nat) (s : string) : string := String.substring 0 n s.

(** [needle in hay] *)
Fixpoint contains (needle hay : string) : bool :=
  String.prefix needle hay ||
  match hay with
  | EmptyString => false
  | String _ hay' => contains needle hay'
  end.

(** [s.split(sep)] for a separator that is not empty: the separators are
    found from left to right and do not overlap.  [skip] counts the
    characters of a separator still to be passed, [cur] is the segment
    being read. *)
Fixpoint split_from (sep s : string) (skip : nat) (cur : string) : list string :=
  match s with
  | EmptyString => [cur]
  | String a s' =>
      match skip with
      | S k => split_from sep s' k cur
      | O =>
          if String.prefix sep s
          then cur :: split_from sep s' (String.length sep - 1) EmptyString
          else split_from sep s' O (String.append cur (String a EmptyString))
      end
  end.

Definition split (sep s : string) : list string := split_from sep s O EmptyString.

(** [s.split(sep)[-1]] *)
Definition last_segment (sep s : string) : string := List.last (split sep s) EmptyString.

Definition is_digit (a : ascii) : bool :=
  let n := nat_of_ascii a in ((48 <=? n) && (n <=? 57))%nat.

Definition digit_value (a : ascii) : Z := Z.of_nat (nat_of_ascii a) - 48.

Fixpoint all_chars (f : ascii -> bool) (s : string) : bool :=
  match s with
  | EmptyString => true
  | String a s' => f a && all_chars f s'
  end.

(** The number that a string of digits writes, read after [acc]. *)
Fixpoint digits_value (s : string) (acc : Z) : Z :=
  match s with
  | EmptyString => acc
  | String a s' => digits_value s' (10 * acc + digit_value a)
  end.

Definition is_number_text (s : string) : bool :=
  negb (String.eqb s "") && all_chars is_digit s.

(** ** Decimal numbers

    [decimal.Decimal] on the texts [[+-]digits[.digits]] and [[+-].digits]:
    the number [coefficient / 10 ^ places].  The other texts that Python
    reads as a Decimal (exponents, infinities, NaN, blanks around the
    number) are not numbers here. *)
Record Decimal : Type := mkDecimal { coefficient : Z; places : nat }.

Definition Decimal_compare (a b : Decimal) : comparison :=
  Z.compare (coefficient a * 10 ^ Z.of_nat (places b))
            (coefficient b * 10 ^ Z.of_nat (places a)).

Definition Decimal_eqb (a b : Decimal) : bool :=
  match Decimal_compare a b with Eq => true | _ => false end.
Definition Decimal_ltb (a b : Decimal) : bool :=
  match Decimal_compare a b with Lt => true | _ => false end.
Definition Decimal_leb (a b : Decimal) : bool :=
  match Decimal_compare a b with Gt => false | _ => true end.

(** The text before the first point and the text after it, if any. *)
Fixpoint cut_at_point (s : string) : string * option string :=
  match s with
  | EmptyString => (EmptyString, None)
  | String a s' =>
      if Ascii.eqb a "." then (EmptyString, Some s')
      else let '(whole, frac) := cut_at_point s' in (String a whole, frac)
  end.

Definition unsigned_Decimal (s : string) : option Decimal :=
  let '(whole, frac) := cut_at_point s in
  let frac := match frac with Some f => f | None => EmptyString end in
  if all_chars is_digit whole && all_chars is_digit frac
     && negb (String.eqb (String.append whole frac) "")
  then Some {| coefficient := digits_value (String.append whole frac) 0;
               places := String.length frac |}
  else None.

Definition Decimal_of_string (s : string) : option Decimal :=
  match s with
  | String "-" s' =>
      d ← unsigned_Decimal s' ;
      Some {| coefficient := - coefficient d; places := places d |}
  | String "+" s' => unsigned_Decimal s'
  | _ => unsigned_Decimal s
  end.

(** [int(text)] on the texts [[+-]digits]. *)
Definition int_of_string (s : string) : option Z :=
  match s with
  | String "-" s' => if is_number_text s' then Some (- digits_value s' 0) else None
  | String "+" s' => if is_number_text s' then Some (digits_value s' 0) else None
  | _ => if is_number_text s then Some (digits_value s 0) else None
  end.

(** ** Organizations and dates *)

(** A time zone, as far as the queries need it: its offset from UTC in
    seconds (zones whose offset changes over the year are not modelled). *)
Record tzinfo : Type := mktz { utcoffset : Z }.

Definition UTC : tzinfo := {| utcoffset := 0 |}.

(** What the parser reads of an [Org]. *)
Record Org : Type := mkOrg {
  org_id : Z;
  is_anon : bool;
  timezone : tzinfo;
  get_dayfirst : bool
}.

Module dates.

(** An aware [datetime]: the day (in days since 1970-01-01) and the time
    of day (in seconds) on the local clock, and the offset of that clock
    from UTC. *)
Record datetime : Type := mkdatetime {
  local_day : Z;
  local_seconds : Z;
  offset : Z
}.

(** The point in time, in seconds since 1970-01-01T00:00:00Z.  Python
    compares two aware datetimes by it. *)
Definition instant (dt : datetime) : Z :=
  86400 * local_day dt + local_seconds dt - offset dt.

(** [dt.date()] *)
Definition date (dt : datetime) : Z := local_day dt.

Definition is_leap (y : Z) : bool :=
  ((y mod 4 =? 0) && negb (y mod 100 =? 0)) || (y mod 400 =? 0).

Definition days_in_month (y m : Z) : Z :=
  if m =? 2 then (if is_leap y then 29 else 28)
  else if (m =? 4) || (m =? 6) || (m =? 9) || (m =? 11) then 30
  else 31.

(** The day number of a date of the Gregorian calendar. *)
Definition days_from_civil (y m d : Z) : Z :=
  let y' := if m <=? 2 then y - 1 else y in
  let era := y' / 400 in
  let yoe := y' - era * 400 in
  let mp := if 2 <? m then m - 3 else m + 9 in
  let doy := (153 * mp + 2) / 5 + d - 1 in
  let doe := yoe * 365 + yoe / 4 - yoe / 100 + doy in
  era * 146097 + doe - 719468.

Definition number_of (s : string) : option Z :=
  if is_number_text s then Some (digits_value s 0) else None.

Definition same_separator (a : ascii) : ascii :=
  if Ascii.eqb a "/" || Ascii.eqb a "." then "-"%char else a.

(** The date part: year-month-day when the first number has four digits,
    else day-month-year or month-day-year as [dayfirst] says. *)
Definition parse_date (s : string) (dayfirst : bool) : option Z :=
  match split "-" (map_string same_separator s) with
  | [a; b; c] =>
      x ← number_of a ; y ← number_of b ; z ← number_of c ;
      let '(year, month, day) :=
        if (String.length a =? 4)%nat then (x, y, z)
        else if dayfirst then (z, y, x) else (z, x, y) in
      if (1 <=? month) && (month <=? 12) && (1 <=? day)
         && (day <=? days_in_month year month)
      then Some (days_from_civil year month day)
      else None
  | _ => None
  end.

(** [HH:MM] or [HH:MM:SS], a fraction of a second being dropped. *)
Definition parse_clock (s : string) : option Z :=
  match split ":" s with
  | [h; m] =>
      x ← number_of h ; y ← number_of m ;
      if (x <? 24) && (y <? 60) then Some (3600 * x + 60 * y) else None
  | [h; m; sec] =>
      x ← number_of h ; y ← number_of m ;
      z ← number_of (List.hd EmptyString (split "." sec)) ;
      if (x <? 24) && (y <? 60) && (z <? 60)
      then Some (3600 * x + 60 * y + z) else None
  | _ => None
  end.

(** The time part: a clock, then [Z], [+HH:MM], [-HH:MM] or nothing.  The
    result is the time of day and the offset that is written, if any. *)
Definition parse_time (s : string) : option (Z * option Z) :=
  match split "Z" s, split "+" s, split "-" s with
  | [clock; EmptyString], _, _ => t ← parse_clock clock ; Some (t, Some 0)
  | _, [clock; zone], _ =>
      t ← parse_clock clock ; o ← parse_clock zone ; Some (t, Some o)
  | _, _, [clock; zone] =>
      t ← parse_clock clock ; o ← parse_clock zone ; Some (t, Some (- o))
  | _, _, _ => t ← parse_clock s ; Some (t, None)
  end.

Definition date_and_time (s : string) : string * option string :=
  match split "T" s, split " " s with
  | [d; t], _ | [_], [d; t] => (d, Some t)
  | _, _ => (s, None)
  end.

(** Modelled from the spec: [temba.utils.dates.str_to_datetime], which is
    not among the sources.  The spec has a value "parsed in org
    timezone/day-first convention as a date"; the texts read here are a
    date of three numbers separated by [-], [/] or [.], alone or followed
    by [T] or a blank and a time.  A text without an offset is on the
    clock of [tz], one with an offset is moved to the clock of [tz].
    Without [fill_time] the time of day is midnight on the day written;
    with it, a text without a time part is also given midnight (the time
    of the call is not modelled).  [None] and the empty text give
    [None]. *)
Definition str_to_datetime (date_str : option string) (tz : tzinfo)
    (dayfirst fill_time : bool) : option datetime :=
  match date_str with
  | None | Some EmptyString => None
  | Some s =>
      let '(d, t) := date_and_time s in
      day ← parse_date d dayfirst ;
      match t with
      | Some t' =>
          '(secs, written) ← parse_time t' ;
          if fill_time then
            let utc := 86400 * day + secs
                       - match written with Some o => o | None => utcoffset tz end in
            let here := utc + utcoffset tz in
            Some {| local_day := here / 86400;
                    local_seconds := here mod 86400;
                    offset := utcoffset tz |}
          else Some {| local_day := day; local_seconds := 0; offset := utcoffset tz |}
      | None => Some {| local_day := day; local_seconds := 0; offset := utcoffset tz |}
      end
  end.

(** Modelled from the spec: [temba.utils.dates.date_to_utc_range], which
    is not among the sources.  The spec has the date "expanded to the UTC
    [start, end) instant range for that local day": midnight of the day on
    the clock of the organization, and 24 hours later, both as points in
    time. *)
Definition date_to_utc_range (d : Z) (org : Org) : Z * Z :=
  let utc_midnight := 86400 * d - utcoffset (timezone org) in
  (utc_midnight, utc_midnight + 86400).

End dates.

(** ** Contact fields and the property map *)

(** [Value.TYPE_TEXT] and the other types of a contact field;
    [TYPE_OTHER] is any type the parser does not know. *)
Inductive ValueType : Type :=
| TYPE_TEXT
| TYPE_NUMBER
| TYPE_DATETIME
| TYPE_STATE
| TYPE_DISTRICT
| TYPE_WARD
| TYPE_OTHER (code : string).

(** What the parser reads of a [ContactField]. *)
Record ContactField : Type := mkContactField {
  field_id : Z;
  field_uuid : string;
  field_key : string;
  value_type : ValueType;
  field_org : Org;
  field_is_active : bool
}.

(** An entry of the property map: the pair of [PROP_FIELD], [PROP_ATTRIBUTE]
    or [PROP_SCHEME] and the field, the attribute or the scheme. *)
Inductive PropObj : Type :=
| PROP_FIELD (field : ContactField)
| PROP_ATTRIBUTE (attr : string)
| PROP_SCHEME (scheme : string).

Definition SEARCHABLE_SCHEMES : list string := ["tel"; "twitter"].

Definition type_code (po : PropObj) : string :=
  match po with
  | PROP_FIELD _ => "F"
  | PROP_ATTRIBUTE _ => "A"
  | PROP_SCHEME _ => "S"
  end.

(** ** A contact as JSON *)

Inductive JSON : Type :=
| JNull
| JString (s : string).

(** An entry of [contact_json['urns']]. *)
Record URN : Type := mkURN { urn_scheme : string; urn_path : string }.

(** The contact: for each field that has a value, by the uuid of the
    field, the values by their kind ([text], [number], [decimal],
    [datetime], [state], [district], [ward]); and the URNs. *)
Record Contact_json : Type := mkContact_json {
  fields : gmap string (gmap string JSON);
  urns : list URN
}.

(** [d.get(key)]: [None] for a missing key and for a [null]. *)
Definition dict_get (d : gmap string JSON) (key : string) : option string :=
  match d !! key with
  | Some (JString s) => Some s
  | Some JNull | None => None
  end.

(** [d.get(key, d.get(other))] *)
Definition dict_get_or (d : gmap string JSON) (key other : string) : option string :=
  match d !! key with
  | Some (JString s) => Some s
  | Some JNull => None
  | None => dict_get d other
  end.

(** ** Evaluation of a condition on a contact *)

(** [repr(v)] of a value, as Python 3 writes a plain text and a list. *)
Fixpoint value_repr (v : CondValue) : string :=
  match v with
  | Str s => String.append "'" (String.append s "'")
  | ValueList l =>
      String.append "[" (String.append (String.concat ", " (map value_repr l)) "]")
  end.

(** [str(v)] of a condition's value in a message. *)
Definition value_text (v : CondValue) : string :=
  match v with
  | Str s => s
  | ValueList _ => value_repr v
  end.

(** [Condition._parse_number]: [Decimal(val)], any exception being turned
    into a [SearchException]. *)
Definition _parse_number (val : CondValue) : Result Decimal :=
  match val with
  | Str s =>
      match Decimal_of_string s with
      | Some d => Ok d
      | None => Raise (SearchException (String.append s " isn't a valid number"))
      end
  | ValueList _ =>
      Raise (SearchException (String.append (value_text val) " isn't a valid number"))
  end.

(** [self.value.upper()] *)
Definition value_upper (v : CondValue) : Result string :=
  match v with
  | Str s => Ok (upper s)
  | ValueList _ => Raise AttributeError
  end.

(** [self.value.lower()] *)
Definition value_lower (v : CondValue) : Result string :=
  match v with
  | Str s => Ok (lower s)
  | ValueList _ => Raise AttributeError
  end.

(** [str_to_datetime(self.value, ...)] *)
Definition value_date_text (v : CondValue) : option string :=
  match v with
  | Str s => Some s
  | ValueList _ => None
  end.

(** The loop of [Condition.evaluate] over the URNs of the contact. *)
Fixpoint evaluate_urns (c : Condition) (scheme : string) (l : list URN) : Result bool :=
  match l with
  | [] => Ok false
  | urn :: l' =>
      if String.eqb (urn_scheme urn) scheme then
        let contact_value := upper (urn_path urn) in
        query_value ← value_upper (value c) ;
        if String.eqb (comparator c) "=" then
          if String.eqb contact_value query_value then Ok true
          else evaluate_urns c scheme l'
        else if String.eqb (comparator c) "~" then
          if contains query_value contact_value then Ok true
          else evaluate_urns c scheme l'
        else Raise (ValueError (String.append "Unknown urn scheme comparator: "
                                              (comparator c)))
      else evaluate_urns c scheme l'
  end.

(** The location of a contact: the value of the field or the empty text,
    in upper case, its last part. *)
Definition location_value (contact_field : gmap string JSON) (key : string) : string :=
  let v := match dict_get contact_field key with Some s => s | None => "" end in
  last_segment " > " (upper v).

(** [Condition.evaluate], for a condition that is not an
    [IsSetCondition].  [prop_map[self.prop]] raises [KeyError] on a
    property that is not in the map. *)
Definition Condition_evaluate (c : Condition) (contact_json : Contact_json)
    (prop_map : gmap string PropObj) : Result bool :=
  match prop_map !! prop c with
  | None => Raise (KeyError (prop c))
  | Some (PROP_FIELD field) =>
      match fields contact_json !! field_uuid field with
      | None => Ok false
      | Some contact_field =>
          match value_type field with
          | TYPE_TEXT =>
              query_value ← value_upper (value c) ;
              contact_value ← match dict_get contact_field "text" with
                              | Some s => Ok (upper s)
                              | None => Raise AttributeError
                              end ;
              if String.eqb (comparator c) "="
              then Ok (String.eqb contact_value query_value)
              else Raise (ValueError (String.append "Unknown text comparator: "
                                                    (comparator c)))
          | TYPE_NUMBER =>
              query_value ← _parse_number (value c) ;
              match dict_get_or contact_field "number" "decimal" with
              | None => Ok false
              | Some number_value =>
                  contact_value ← _parse_number (Str number_value) ;
                  if String.eqb (comparator c) "="
                  then Ok (Decimal_eqb contact_value query_value)
                  else if String.eqb (comparator c) ">"
                  then Ok (Decimal_ltb query_value contact_value)
                  else if String.eqb (comparator c) ">="
                  then Ok (Decimal_leb query_value contact_value)
                  else if String.eqb (comparator c) "<"
                  then Ok (Decimal_ltb contact_value query_value)
                  else if String.eqb (comparator c) "<="
                  then Ok (Decimal_leb contact_value query_value)
                  else Raise (ValueError (String.append "Unknown number comparator: "
                                                        (comparator c)))
              end
          | TYPE_DATETIME =>
              let org := field_org field in
              match dates.str_to_datetime (value_date_text (value c)) (timezone org)
                      (get_dayfirst org) false with
              | None => Raise (SearchException
                                 (String.append "Unable to parse the date "
                                                (value_text (value c))))
              | Some query_value =>
                  match dict_get contact_field "datetime" with
                  | None => Ok false
                  | Some datetime_value =>
                      let contact_value :=
                        dates.str_to_datetime (Some datetime_value) (timezone org)
                          true true in
                      let utc_range :=
                        dates.date_to_utc_range (dates.date query_value) org in
                      (* an order between [None] and a datetime is a TypeError *)
                      let compare (test : Z -> bool) : Result bool :=
                        match contact_value with
                        | Some dt => Ok (test (dates.instant dt))
                        | None => Raise TypeError
                        end in
                      if String.eqb (comparator c) "="
                      then compare (fun t => (utc_range.1 <=? t) && (t <? utc_range.2))
                      else if String.eqb (comparator c) ">"
                      then compare (fun t => utc_range.2 <=? t)
                      else if String.eqb (comparator c) ">="
                      then compare (fun t => utc_range.1 <=? t)
                      else if String.eqb (comparator c) "<"
                      then compare (fun t => t <? utc_range.1)
                      else if String.eqb (comparator c) "<="
                      then compare (fun t => t <? utc_range.2)
                      else Raise (ValueError
                                    (String.append "Unknown datetime comparator: "
                                                   (comparator c)))
                  end
              end
          | TYPE_STATE | TYPE_DISTRICT | TYPE_WARD =>
              query_value ← value_upper (value c) ;
              let contact_value :=
                match value_type field with
                | TYPE_WARD => location_value contact_field "ward"
                | TYPE_DISTRICT => location_value contact_field "district"
                | _ => location_value contact_field "state"
                end in
              if String.eqb (comparator c) "="
              then Ok (String.eqb contact_value query_value)
              else Raise (SearchException
                            (String.append "Unsupported comparator "
                               (String.append (comparator c) " for location field")))
          | TYPE_OTHER code =>
              Raise (ValueError (String.append "Unrecognized contact field type '"
                                               (String.append code "'")))
          end
      end
  | Some (PROP_SCHEME scheme) => evaluate_urns c scheme (urns contact_json)
  | Some (PROP_ATTRIBUTE _ as po) =>
      Raise (ValueError (String.append "Unrecognized contact field type '"
                                       (String.append (type_code po) "'")))
  end.

Definition IS_SET_LOOKUPS : list string := ["!="].
Definition IS_NOT_SET_LOOKUPS : list string := ["is"; "="].

Definition string_in (s : string) (l : list string) : bool :=
  existsb (String.eqb s) l.

(** The first lines of the three translations of an [IsSetCondition]. *)
Definition is_set_of (c : Condition) : Result bool :=
  if string_in (lower (comparator c)) IS_SET_LOOKUPS then Ok true
  else if string_in (lower (comparator c)) IS_NOT_SET_LOOKUPS then Ok false
  else Raise (SearchException "Invalid operator for empty string comparison").

(** [return True] if the value is there and being set is asked for, or if
    it is not there and being unset is asked for. *)
Definition set_answer {A : Type} (is_set : bool) (contact_value : option A) : bool :=
  match contact_value with
  | Some _ => is_set
  | None => negb is_set
  end.

(** [IsSetCondition.evaluate] *)
Definition IsSetCondition_evaluate (c : Condition) (contact_json : Contact_json)
    (prop_map : gmap string PropObj) : Result bool :=
  match prop_map !! prop c with
  | None => Raise (KeyError (prop c))
  | Some po =>
      is_set ← is_set_of c ;
      match po with
      | PROP_FIELD field =>
          match fields contact_json !! field_uuid field with
          | None => Ok (negb is_set)
          | Some contact_field =>
              match value_type field with
              | TYPE_TEXT => Ok (set_answer is_set (dict_get contact_field "text"))
              | TYPE_NUMBER =>
                  let contact_value :=
                    match dict_get_or contact_field "decimal" "number" with
                    | Some s => Decimal_of_string s
                    | None => None
                    end in
                  Ok (set_answer is_set contact_value)
              | TYPE_DATETIME =>
                  Ok (set_answer is_set
                        (dates.str_to_datetime (dict_get contact_field "datetime")
                           (timezone (field_org field)) true true))
              | TYPE_WARD => Ok (set_answer is_set (dict_get contact_field "ward"))
              | TYPE_DISTRICT => Ok (set_answer is_set (dict_get contact_field "district"))
              | TYPE_STATE => Ok (set_answer is_set (dict_get contact_field "state"))
              | TYPE_OTHER code =>
                  Raise (ValueError (String.append "Unrecognized contact field type '"
                                                   (String.append code "'")))
              end
          end
      | PROP_SCHEME scheme =>
          let urn_exists :=
            List.find (fun urn => String.eqb (urn_scheme urn) scheme) (urns contact_json) in
          Ok (set_answer is_set urn_exists)
      | PROP_ATTRIBUTE _ =>
          Raise (ValueError (String.append "Unrecognized contact field type '"
                                           (String.append (type_code po) "'")))
      end
  end.

(** ** Evaluation of a tree *)

(** [reduce(function, values)], which raises [TypeError] on no value. *)
Definition reduce {A : Type} (f : A -> A -> A) (values : list A) : Result A :=
  match values with
  | [] => Raise TypeError
  | v :: values' => Ok (fold_left f values' v)
  end.

(** [operator.and_] and [operator.or_] on booleans. *)
Definition bool_op (op : BoolOp) : bool -> bool -> bool :=
  match op with
  | AND => andb
  | OR => orb
  end.

(** The method [evaluate] of each class of node. *)
Fixpoint evaluate (n : QueryNode) (contact_json : Contact_json)
    (prop_map : gmap string PropObj) : Result bool :=
  match n with
  | Cond c =>
      if is_set_condition c then IsSetCondition_evaluate c contact_json prop_map
      else Condition_evaluate c contact_json prop_map
  | BoolCombination op children
  | SinglePropCombination _ op children =>
      values ← for_each (fun child => evaluate child contact_json prop_map) children ;
      reduce (bool_op op) values
  end.

(** ** Django queries

    The [Q] objects that [as_query] builds, as terms: the keywords of a
    filter on the rows of [Value], of [ContactURN] and of [AdminBoundary],
    and the conditions on a contact. *)

Inductive BoundaryLevel : Type := LEVEL_STATE | LEVEL_DISTRICT | LEVEL_WARD.

(** [BOUNDARY_LEVELS_BY_VALUE_TYPE.get(value_type)] *)
Definition BOUNDARY_LEVELS_BY_VALUE_TYPE (t : ValueType) : option BoundaryLevel :=
  match t with
  | TYPE_STATE => Some LEVEL_STATE
  | TYPE_DISTRICT => Some LEVEL_DISTRICT
  | TYPE_WARD => Some LEVEL_WARD
  | _ => None
  end.

(** A condition on the rows of [AdminBoundary]. *)
Inductive BoundaryQ : Type :=
| Q_level (level : option BoundaryLevel)
| Q_name (lookup : string) (v : CondValue)
| BoundaryQ_and (a b : BoundaryQ)
| BoundaryQ_or (a b : BoundaryQ).

(** A keyword of a filter on the rows of [Value]. *)
Inductive ValueParam : Type :=
| field_and_string_value (key : string)
| field_and_string_value__in (keys : list string)
| contact_field (field : ContactField)
| decimal_value (lookup : string) (d : Decimal)
| decimal_value__in (ds : list Decimal)
| datetime_value__gte (t : Z)
| datetime_value__lt (t : Z)
| location_value__in (locations : BoundaryQ)
| string_value__isnull (b : bool)
| decimal_value__isnull (b : bool)
| datetime_value__isnull (b : bool)
| location_value__isnull (b : bool).

(** A filter on the rows of [Value]: the keywords of one call of [filter]
    or [Q], and the combinations of such. *)
Inductive ValueQ : Type :=
| Params (params : list ValueParam)
| ValueQ_and (a b : ValueQ)
| ValueQ_or (a b : ValueQ).

(** [ContactURN.objects.filter(org=org, scheme=scheme)], with
    [path__<lookup>=value] when [on_path] is given. *)
Record URNFilter : Type := mkURNFilter {
  filter_org : Org;
  filter_scheme : string;
  on_path : option (string * CondValue)
}.

Inductive Q : Type :=
| Q_id (id : Z)
| Q_attr (attr : string) (lookup : option string) (v : option CondValue)
| Q_id__in_urns (urns : URNFilter)
| Q_id__in_values (values : ValueQ)
| Q_and (a b : Q)
| Q_or (a b : Q)
| Q_not (a : Q).

(** [operator.and_] and [operator.or_] on [Q] objects. *)
Definition Q_op (op : BoolOp) : Q -> Q -> Q :=
  match op with
  | AND => Q_and
  | OR => Q_or
  end.

Definition ValueQ_op (op : BoolOp) : ValueQ -> ValueQ -> ValueQ :=
  match op with
  | AND => ValueQ_and
  | OR => ValueQ_or
  end.

(** ** Translation of a condition to a Django query *)

Definition ATTR_OR_URN_LOOKUPS (cmp : string) : option string :=
  if String.eqb cmp "=" then Some "iexact"
  else if String.eqb cmp "~" then Some "icontains"
  else None.

Definition TEXT_LOOKUPS (cmp : string) : option string :=
  if String.eqb cmp "=" then Some "iexact" else None.

Definition NUMBER_LOOKUPS (cmp : string) : option string :=
  if String.eqb cmp "=" then Some "exact"
  else if String.eqb cmp ">" then Some "gt"
  else if String.eqb cmp ">=" then Some "gte"
  else if String.eqb cmp "<" then Some "lt"
  else if String.eqb cmp "<=" then Some "lte"
  else None.

Definition DATETIME_LOOKUPS (cmp : string) : option string :=
  if String.eqb cmp "=" then Some "<equal>"
  else if String.eqb cmp ">" then Some "gt"
  else if String.eqb cmp ">=" then Some "gte"
  else if String.eqb cmp "<" then Some "lt"
  else if String.eqb cmp "<=" then Some "lte"
  else None.

Definition LOCATION_LOOKUPS (cmp : string) : option string :=
  if String.eqb cmp "=" then Some "iexact" else None.

Definition STRING_VALUE_COMPARISON_LIMIT : nat := 32.

(** [Condition._build_attr_query] *)
Definition _build_attr_query (c : Condition) (attr : string) : Result Q :=
  match ATTR_OR_URN_LOOKUPS (comparator c) with
  | None => Raise (SearchException
                     (String.append "Can't query contact properties with " (comparator c)))
  | Some lookup => Ok (Q_attr attr (Some lookup) (Some (value c)))
  end.

(** [Condition._build_urn_query] *)
Definition _build_urn_query (c : Condition) (org : Org) (scheme : string) : Result Q :=
  match ATTR_OR_URN_LOOKUPS (comparator c) with
  | None => Raise (SearchException
                     (String.append "Can't query contact URNs with " (comparator c)))
  | Some lookup =>
      Ok (Q_id__in_urns {| filter_org := org; filter_scheme := scheme;
                           on_path := Some (lookup, value c) |})
  end.

(** [index_key] in [Condition._build_text_field_params]; a list has no
    method [upper]. *)
Definition index_key (f : ContactField) (val : CondValue) : Result string :=
  match val with
  | Str s =>
      Ok (String.append (pretty (field_id f))
            (String.append "|" (upper (take_string STRING_VALUE_COMPARISON_LIMIT s))))
  | ValueList _ => Raise AttributeError
  end.

(** [Condition._build_text_field_params] *)
Definition _build_text_field_params (c : Condition) (field : ContactField)
    : Result (list ValueParam) :=
  match value c with
  | ValueList l =>
      keys ← for_each (index_key field) l ;
      Ok [field_and_string_value__in keys]
  | Str _ =>
      match TEXT_LOOKUPS (comparator c) with
      | None => Raise (SearchException
                         (String.append "Can't query text fields with " (comparator c)))
      | Some _ =>
          key ← index_key field (value c) ;
          Ok [field_and_string_value key]
      end
  end.

(** [Condition._build_number_field_params] *)
Definition _build_number_field_params (c : Condition) (field : ContactField)
    : Result (list ValueParam) :=
  match value c with
  | ValueList l =>
      ds ← for_each _parse_number l ;
      Ok [contact_field field; decimal_value__in ds]
  | Str _ =>
      match NUMBER_LOOKUPS (comparator c) with
      | None => Raise (SearchException
                         (String.append "Can't query number fields with " (comparator c)))
      | Some lookup =>
          d ← _parse_number (value c) ;
          Ok [contact_field field; decimal_value lookup d]
      end
  end.

(** [Condition._build_datetime_field_params] *)
Definition _build_datetime_field_params (c : Condition) (field : ContactField)
    : Result (list ValueParam) :=
  match DATETIME_LOOKUPS (comparator c) with
  | None => Raise (SearchException
                     (String.append "Can't query date fields with " (comparator c)))
  | Some lookup =>
      let org := field_org field in
      match dates.str_to_datetime (value_date_text (value c)) (timezone org)
              (get_dayfirst org) false with
      | None => Raise (SearchException
                         (String.append "Unable to parse the date " (value_text (value c))))
      | Some local_date =>
          let utc_range := dates.date_to_utc_range (dates.date local_date) org in
          if String.eqb lookup "<equal>"
          then Ok [contact_field field; datetime_value__gte utc_range.1;
                   datetime_value__lt utc_range.2]
          else if String.eqb lookup "lt"
          then Ok [contact_field field; datetime_value__lt utc_range.1]
          else if String.eqb lookup "lte"
          then Ok [contact_field field; datetime_value__lt utc_range.2]
          else if String.eqb lookup "gt"
          then Ok [contact_field field; datetime_value__gte utc_range.2]
          else Ok [contact_field field; datetime_value__gte utc_range.1]
      end
  end.

(** [Condition._build_location_field_params] *)
Definition _build_location_field_params (c : Condition) (field : ContactField)
    : Result (list ValueParam) :=
  match LOCATION_LOOKUPS (comparator c) with
  | None => Raise (SearchException
                     (String.append "Unsupported comparator "
                        (String.append (comparator c) " for location field")))
  | Some lookup =>
      let level_query := Q_level (BOUNDARY_LEVELS_BY_VALUE_TYPE (value_type field)) in
      name_query ← match value c with
                   | ValueList l => reduce BoundaryQ_or (map (Q_name lookup) l)
                   | Str _ => Ok (Q_name lookup (value c))
                   end ;
      Ok [contact_field field; location_value__in (BoundaryQ_and level_query name_query)]
  end.

(** [Condition.build_value_query_params] *)
Definition build_value_query_params (c : Condition) (field : ContactField)
    : Result (list ValueParam) :=
  match value_type field with
  | TYPE_TEXT => _build_text_field_params c field
  | TYPE_NUMBER => _build_number_field_params c field
  | TYPE_DATETIME => _build_datetime_field_params c field
  | TYPE_STATE | TYPE_DISTRICT | TYPE_WARD => _build_location_field_params c field
  | TYPE_OTHER code =>
      Raise (ValueError (String.append "Unrecognized contact field type '"
                                       (String.append code "'")))
  end.

(** [Condition._build_value_query]: the contacts of the rows of [Value]
    that pass the filter. *)
Definition _build_value_query (c : Condition) (field : ContactField) : Result Q :=
  params ← build_value_query_params c field ;
  Ok (Q_id__in_values (Params params)).

(** [Condition.as_query] *)
Definition Condition_as_query (c : Condition) (org : Org)
    (prop_map : gmap string PropObj) : Result Q :=
  match prop_map !! prop c with
  | None => Raise (KeyError (prop c))
  | Some (PROP_FIELD prop_obj) => _build_value_query c prop_obj
  | Some (PROP_SCHEME prop_obj) =>
      if is_anon org then Ok (Q_id (-1)) else _build_urn_query c org prop_obj
  | Some (PROP_ATTRIBUTE prop_obj) => _build_attr_query c prop_obj
  end.

(** [IsSetCondition.as_query] *)
Definition IsSetCondition_as_query (c : Condition) (org : Org)
    (prop_map : gmap string PropObj) : Result Q :=
  match prop_map !! prop c with
  | None => Raise (KeyError (prop c))
  | Some po =>
      is_set ← is_set_of c ;
      match po with
      | PROP_FIELD prop_obj =>
          isnull ← match value_type prop_obj with
                   | TYPE_TEXT => Ok (string_value__isnull false)
                   | TYPE_NUMBER => Ok (decimal_value__isnull false)
                   | TYPE_DATETIME => Ok (datetime_value__isnull false)
                   | TYPE_STATE | TYPE_DISTRICT | TYPE_WARD =>
                       Ok (location_value__isnull false)
                   | TYPE_OTHER code =>
                       Raise (ValueError
                                (String.append "Unrecognized contact field type '"
                                               (String.append code "'")))
                   end ;
          let values_query := Q_id__in_values (Params [contact_field prop_obj; isnull]) in
          Ok (if (is_set : bool) then values_query else Q_not values_query)
      | PROP_SCHEME prop_obj =>
          if is_anon org then Ok (Q_id (-1))
          else
            let urns_query :=
              Q_id__in_urns {| filter_org := org; filter_scheme := prop_obj;
                               on_path := None |} in
            Ok (if (is_set : bool) then urns_query else Q_not urns_query)
      | PROP_ATTRIBUTE prop_obj =>
          let where_not_set :=
            Q_or (Q_attr prop_obj None (Some (Str ""))) (Q_attr prop_obj None None) in
          Ok (if (is_set : bool) then Q_not where_not_set else where_not_set)
      end
  end.

(** The method [as_query] of a [Condition] or an [IsSetCondition]. *)
Definition cond_as_query (c : Condition) (org : Org)
    (prop_map : gmap string PropObj) : Result Q :=
  if is_set_condition c then IsSetCondition_as_query c org prop_map
  else Condition_as_query c org prop_map.

(** The method [build_value_query_params], which [IsSetCondition]
    inherits. *)
Definition node_build_value_query_params (n : QueryNode) (field : ContactField)
    : Result (list ValueParam) :=
  match n with
  | Cond c => build_value_query_params c field
  | _ => Raise AttributeError
  end.

(** [child.comparator] and [c.value] of a child of a
    [SinglePropCombination]. *)
Definition node_comparator (n : QueryNode) : Result string :=
  match n with
  | Cond c => Ok (comparator c)
  | _ => Raise AttributeError
  end.

Definition node_value (n : QueryNode) : Result CondValue :=
  match n with
  | Cond c => Ok (value c)
  | _ => Raise AttributeError
  end.

(** ** Translation of a tree to a Django query *)

(** [SinglePropCombination.as_query] on a property that is a field. *)
Definition SinglePropCombination_field_query (p : string) (op : BoolOp)
    (children : list QueryNode) (org : Org) (prop_map : gmap string PropObj)
    (prop_obj : ContactField) : Result Q :=
  comparators ← for_each node_comparator children ;
  let all_equality := forallb (fun cmp => String.eqb cmp "=") comparators in
  if BoolOp_eqb op OR && all_equality
     && negb (match value_type prop_obj with TYPE_DATETIME => true | _ => false end)
  then
    vs ← for_each node_value children ;
    let in_condition := Condition_init p "=" (ValueList vs) in
    Condition_as_query in_condition org prop_map
  else
    value_queries ←
      for_each (fun child => params ← node_build_value_query_params child prop_obj ;
                             Ok (Params params)) children ;
    value_query ← reduce (ValueQ_op op) value_queries ;
    Ok (Q_id__in_values value_query).

(** The method [as_query] of each class of node. *)
Fixpoint as_query (n : QueryNode) (org : Org) (prop_map : gmap string PropObj)
    : Result Q :=
  match n with
  | Cond c => cond_as_query c org prop_map
  | BoolCombination op children =>
      qs ← for_each (fun child => as_query child org prop_map) children ;
      reduce (Q_op op) qs
  | SinglePropCombination p op children =>
      match prop_map !! p with
      | None => Raise (KeyError p)
      | Some (PROP_FIELD prop_obj) =>
          SinglePropCombination_field_query p op children org prop_map prop_obj
      | Some _ =>
          qs ← for_each (fun child => as_query child org prop_map) children ;
          reduce (Q_op op) qs
      end
  end.

(** ** Elasticsearch queries *)

(** A value in a query: a text, the text of a Decimal, the text of a date
    (by its day number), or a number. *)
Inductive ESValue : Type :=
| ES_text (s : string)
| ES_decimal (d : Decimal)
| ES_date (day : Z)
| ES_int (z : Z).

Inductive es_Q : Type :=
| es_term (field : string) (v : ESValue)
| es_match (field : string) (v : ESValue)
| es_match_phrase (field : string) (v : ESValue)
| es_range (field : string) (bound : string) (v : ESValue)
| es_exists (field : string)
| es_ids (values : list ESValue)
| es_nested (path : string) (query : es_Q)
| es_and (a b : es_Q)
| es_or (a b : es_Q)
| es_not (a : es_Q).

Definition es_op (op : BoolOp) : es_Q -> es_Q -> es_Q :=
  match op with
  | AND => es_and
  | OR => es_or
  end.

Definition unrecognized_field_type {A : Type} (code : string) : Result A :=
  Raise (ValueError (String.append "Unrecognized contact field type '"
                                   (String.append code "'"))).

(** [Condition.as_elasticsearch] *)
Definition Condition_as_elasticsearch (c : Condition) (org : Org)
    (prop_map : gmap string PropObj) : Result es_Q :=
  match prop_map !! prop c with
  | None => Raise (KeyError (prop c))
  | Some (PROP_FIELD field) =>
      let es_query := es_term "fields.field" (ES_text (field_uuid field)) in
      es_query ←
        match value_type field with
        | TYPE_TEXT =>
            query_value ← value_lower (value c) ;
            if String.eqb (comparator c) "="
            then Ok (es_and es_query (es_term "fields.text" (ES_text query_value)))
            else Raise (ValueError (String.append "Unknown text comparator: "
                                                  (comparator c)))
        | TYPE_NUMBER =>
            d ← _parse_number (value c) ;
            let query_value := ES_decimal d in
            if String.eqb (comparator c) "="
            then Ok (es_and es_query (es_match "fields.number" query_value))
            else if String.eqb (comparator c) ">"
            then Ok (es_and es_query (es_range "fields.number" "gt" query_value))
            else if String.eqb (comparator c) ">="
            then Ok (es_and es_query (es_range "fields.number" "gte" query_value))
            else if String.eqb (comparator c) "<"
            then Ok (es_and es_query (es_range "fields.number" "lt" query_value))
            else if String.eqb (comparator c) "<="
            then Ok (es_and es_query (es_range "fields.number" "lte" query_value))
            else Raise (ValueError (String.append "Unknown number comparator: "
                                                  (comparator c)))
        | TYPE_DATETIME =>
            let org' := field_org field in
            match dates.str_to_datetime (value_date_text (value c)) (timezone org')
                    (get_dayfirst org') false with
            | None => Raise (SearchException
                               (String.append "Unable to parse the date "
                                              (value_text (value c))))
            | Some query_value =>
                let utc_range := dates.date_to_utc_range (dates.date query_value) org' in
                (* the date of the start of the range, in UTC *)
                let utc_date := ES_date (utc_range.1 / 86400) in
                if String.eqb (comparator c) "="
                then Ok (es_and es_query (es_match "fields.datetime" utc_date))
                else if String.eqb (comparator c) ">"
                then Ok (es_and es_query (es_range "fields.datetime" "gt" utc_date))
                else if String.eqb (comparator c) ">="
                then Ok (es_and es_query (es_range "fields.datetime" "gte" utc_date))
                else if String.eqb (comparator c) "<"
                then Ok (es_and es_query (es_range "fields.datetime" "lt" utc_date))
                else if String.eqb (comparator c) "<="
                then Ok (es_and es_query (es_range "fields.datetime" "lte" utc_date))
                else Raise (ValueError (String.append "Unknown datetime comparator: "
                                                      (comparator c)))
            end
        | TYPE_STATE | TYPE_DISTRICT | TYPE_WARD =>
            query_value ← value_lower (value c) ;
            let field_name :=
              match value_type field with
              | TYPE_WARD => "fields.ward"
              | TYPE_DISTRICT => "fields.district"
              | _ => "fields.state"
              end in
            if String.eqb (comparator c) "="
            then Ok (es_and es_query
                       (es_term (String.append field_name ".keyword") (ES_text query_value)))
            else Raise (SearchException
                          (String.append "Unsupported comparator "
                             (String.append (comparator c) " for location field")))
        | TYPE_OTHER code => unrecognized_field_type code
        end ;
      Ok (es_nested "fields" es_query)
  | Some (PROP_ATTRIBUTE field) =>
      query_value ← value_lower (value c) ;
      if String.eqb field "name" then
        if String.eqb (comparator c) "="
        then Ok (es_term "name.keyword" (ES_text query_value))
        else if String.eqb (comparator c) "~"
        then Ok (es_match "name" (ES_text query_value))
        else Raise (ValueError (String.append "Unknown attribute comparator: "
                                              (comparator c)))
      else if String.eqb field "id" then Ok (es_ids [ES_text query_value])
      else Raise (ValueError (String.append "Unknown attribute field '"
                                            (String.append field "'")))
  | Some (PROP_SCHEME field) =>
      query_value ← value_lower (value c) ;
      let es_query := es_term "urns.scheme" (ES_text (lower field)) in
      if is_anon org then Ok (es_ids [ES_int (-1)])
      else
        let es_query :=
          if String.eqb (comparator c) "="
          then es_and es_query (es_term "urns.path.keyword" (ES_text query_value))
          else if String.eqb (comparator c) "~"
          then es_and es_query (es_match_phrase "urns.path" (ES_text query_value))
          else es_query in
        Ok (es_nested "urns" es_query)
  end.

(** [IsSetCondition.as_elasticsearch] *)
Definition IsSetCondition_as_elasticsearch (c : Condition) (org : Org)
    (prop_map : gmap string PropObj) : Result es_Q :=
  match prop_map !! prop c with
  | None => Raise (KeyError (prop c))
  | Some po =>
      is_set ← is_set_of c ;
      match po with
      | PROP_FIELD field =>
          let es_query := es_term "fields.field" (ES_text (field_uuid field)) in
          field_name ← match value_type field with
                       | TYPE_TEXT => Ok "fields.text"
                       | TYPE_NUMBER => Ok "fields.number"
                       | TYPE_DATETIME => Ok "fields.datetime"
                       | TYPE_STATE => Ok "fields.state"
                       | TYPE_DISTRICT => Ok "fields.district"
                       | TYPE_WARD => Ok "fields.ward"
                       | TYPE_OTHER code => unrecognized_field_type code
                       end ;
          let es_query := es_and es_query (es_exists field_name) in
          Ok (if (is_set : bool) then es_nested "fields" es_query
              else es_not (es_nested "fields" es_query))
      | PROP_SCHEME field =>
          if is_anon org then Ok (es_ids [ES_int (-1)])
          else
            let es_query :=
              es_and (es_exists "urns.path")
                     (es_term "urns.scheme" (ES_text (lower field))) in
            Ok (if (is_set : bool) then es_nested "urns" es_query
                else es_not (es_nested "urns" es_query))
      | PROP_ATTRIBUTE field =>
          if String.eqb field "name" then
            Ok (if (is_set : bool) then es_not (es_term "name" (ES_text ""))
                else es_term "name" (ES_text ""))
          else if String.eqb field "id" then
            Raise (SearchException
                     "All contacts have an ID, you cannot check if 'id' is set")
          else Raise (ValueError (String.append "Unknown attribute field '"
                                                (String.append field "'")))
      end
  end.

(** The method [as_elasticsearch] of each class of node. *)
Fixpoint as_elasticsearch (n : QueryNode) (org : Org)
    (prop_map : gmap string PropObj) : Result es_Q :=
  match n with
  | Cond c =>
      if is_set_condition c then IsSetCondition_as_elasticsearch c org prop_map
      else Condition_as_elasticsearch c org prop_map
  | BoolCombination op children
  | SinglePropCombination _ op children =>
      qs ← for_each (fun child => as_elasticsearch child org prop_map) children ;
      reduce (es_op op) qs
  end.

(** ** The property map of a query *)

(** [ContactQuery]: the root of the tree. *)
Record ContactQuery : Type := mkContactQuery { root : QueryNode }.

(** [searchable_attrs] in [get_prop_map] *)
Definition searchable_attrs (org : Org) : list string :=
  if is_anon org then ["name"; "id"] else ["name"].

(** [ContactField.objects.filter(org=org, key__in=attr_props,
    is_active=True)] on the fields [registry] of the database. *)
Definition active_fields (registry : list ContactField) (org : Org)
    (attr_props : gset string) : list ContactField :=
  List.filter (fun f => (org_id (field_org f) =? org_id org)
                        && bool_decide (field_key f ∈ attr_props)
                        && field_is_active f) registry.

(** [if key in prop_map.keys(): prop_map[key] = entry] *)
Definition set_if_present (prop_map : gmap string (option PropObj)) (key : string)
    (entry : PropObj) : gmap string (option PropObj) :=
  match prop_map !! key with
  | Some _ => <[key := Some entry]> prop_map
  | None => prop_map
  end.

(** [ContactQuery.get_prop_map].  When several properties are not
    recognized, the message names the first of them in the order of the
    map, which is not Python's. *)
Definition get_prop_map (registry : list ContactField) (query : ContactQuery)
    (org : Org) : Result (gmap string PropObj) :=
  let all_props : gset string := list_to_set (get_prop_names (root query)) in
  let attr_props := all_props ∖ list_to_set (searchable_attrs org) in
  let prop_map : gmap string (option PropObj) := gset_to_gmap None all_props in
  let prop_map :=
    fold_left (fun m field => <[field_key field := Some (PROP_FIELD field)]> m)
              (active_fields registry org attr_props) prop_map in
  let prop_map :=
    fold_left (fun m attr => set_if_present m attr (PROP_ATTRIBUTE attr))
              (searchable_attrs org) prop_map in
  let prop_map :=
    fold_left (fun m scheme => set_if_present m scheme (PROP_SCHEME scheme))
              SEARCHABLE_SCHEMES prop_map in
  match List.filter (fun item => match item.2 with None => true | Some _ => false end)
                    (map_to_list prop_map) with
  | (p, _) :: _ => Raise (SearchException (String.append "Unrecognized field: " p))
  | [] => Ok (omap id prop_map)
  end.

(** [ContactQuery.optimized] *)
Definition optimized (query : ContactQuery) : Result ContactQuery :=
  root' ← split_by_prop (simplify (root query)) ;
  Ok {| root := root' |}.

(** [ContactQuery.as_query], [ContactQuery.evaluate] and
    [ContactQuery.as_elasticsearch] *)
Definition ContactQuery_as_query (registry : list ContactField)
    (query : ContactQuery) (org : Org) : Result Q :=
  prop_map ← get_prop_map registry query org ;
  as_query (root query) org prop_map.

Definition ContactQuery_evaluate (registry : list ContactField)
    (query : ContactQuery) (org : Org) (contact_json : Contact_json) : Result bool :=
  prop_map ← get_prop_map registry query org ;
  evaluate (root query) contact_json prop_map.

Definition ContactQuery_as_elasticsearch (registry : list ContactField)
    (query : ContactQuery) (org : Org) : Result es_Q :=
  prop_map ← get_prop_map registry query org ;
  as_elasticsearch (root query) org prop_map.

(** ** From the parse tree to the query tree *)

(** The parse tree of the grammar: a literal and an expression, by the
    labels of the rules. *)
Inductive LiteralContext : Type :=
| TextLiteral (text : string)
| StringLiteral (text : string).

Inductive ExpressionContext : Type :=
| ImplicitCondition (TEXT : string)
| ConditionContext (TEXT COMPARATOR : string) (literal : LiteralContext)
| CombinationAnd (e0 e1 : ExpressionContext)
| CombinationImpicitAnd (e0 e1 : ExpressionContext)
| CombinationOr (e0 e1 : ExpressionContext)
| ExpressionGrouping (e : ExpressionContext).

Definition quote : ascii := ascii_of_nat 34.

(** [s[1:-1]] *)
Definition strip_ends (s : string) : string :=
  String.substring 1 (String.length s - 2) s.

(** [s.replace(two quotes, one quote)] *)
Fixpoint unescape_quotes (s : string) : string :=
  match s with
  | String a (String b s' as rest) =>
      if Ascii.eqb a quote && Ascii.eqb b quote
      then String quote (unescape_quotes s')
      else String a (unescape_quotes rest)
  | _ => s
  end.

(** [visitTextLiteral] and [visitStringLiteral] *)
Definition visitLiteral (ctx : LiteralContext) : string :=
  match ctx with
  | TextLiteral text => text
  | StringLiteral text => unescape_quotes (strip_ends text)
  end.

Definition is_tel_char (a : ascii) : bool :=
  is_digit a || string_in (String a EmptyString) ["+"; " "; "-"; "("; ")"].

Definition newline : ascii := ascii_of_nat 10.

(** The text without the line end that the [$] of a pattern passes over. *)
Fixpoint without_last_newline (s : string) : string :=
  match s with
  | String a EmptyString => if Ascii.eqb a newline then EmptyString else s
  | String a s' => String a (without_last_newline s')
  | EmptyString => EmptyString
  end.

(** [TEL_VALUE_REGEX.match(text)]: one or more of the characters of a
    phone number (the digits are 0 to 9 here), up to the end of the text or
    to a line end that ends the text. *)
Definition TEL_VALUE_REGEX_match (text : string) : bool :=
  let body := without_last_newline text in
  negb (String.eqb body "") && all_chars is_tel_char body.

Definition is_special_char (a : ascii) : bool :=
  string_in (String a EmptyString) ["+"; " "; "-"; "("; ")"].

(** [CLEAN_SPECIAL_CHARS_REGEX.sub('', text)] *)
Fixpoint CLEAN_SPECIAL_CHARS_REGEX_sub (text : string) : string :=
  match text with
  | EmptyString => EmptyString
  | String a s =>
      if is_special_char a then CLEAN_SPECIAL_CHARS_REGEX_sub s
      else String a (CLEAN_SPECIAL_CHARS_REGEX_sub s)
  end.

(** [is_phonenumber] *)
Definition is_phonenumber (text : string) : bool * option string :=
  if TEL_VALUE_REGEX_match text
  then (true, Some (CLEAN_SPECIAL_CHARS_REGEX_sub text))
  else (false, None).

(** [ContactQLVisitor.visitImplicitCondition] *)
Definition visitImplicitCondition (as_anon : bool) (TEXT : string) : Condition :=
  let by_name := Condition_init "name" "~" (Str TEXT) in
  if as_anon then
    match int_of_string TEXT with
    | Some n => Condition_init "id" "=" (Str (pretty n))
    | None => by_name
    end
  else if TEL_VALUE_REGEX_match TEXT then Condition_init "tel" "~" (Str TEXT)
  else by_name.

(** [ContactQLVisitor.visitCondition] *)
Definition visitCondition (TEXT COMPARATOR : string) (literal : LiteralContext)
    : Condition :=
  let p := lower TEXT in
  let cmp := lower COMPARATOR in
  let v := visitLiteral literal in
  if String.eqb v "" then IsSetCondition_init p cmp
  else Condition_init p cmp (Str v).

(** [ContactQLVisitor.visit] *)
Fixpoint visit (as_anon : bool) (ctx : ExpressionContext) : QueryNode :=
  match ctx with
  | ImplicitCondition TEXT => Cond (visitImplicitCondition as_anon TEXT)
  | ConditionContext TEXT COMPARATOR literal =>
      Cond (visitCondition TEXT COMPARATOR literal)
  | CombinationAnd e0 e1 | CombinationImpicitAnd e0 e1 =>
      BoolCombination AND [visit as_anon e0; visit as_anon e1]
  | CombinationOr e0 e1 => BoolCombination OR [visit as_anon e0; visit as_anon e1]
  | ExpressionGrouping e => visit as_anon e
  end.

(** ** Parsing a query *)

(** What the generated parser raises: the token of a
    [NoViableAltException], if that is the cause, and whether it is the end
    of the input. *)
Record Token : Type := mkToken { is_EOF : bool; token_text : string }.

Inductive ParseCancellationException : Type :=
| NoViableAltException (offendingToken : option Token)
| OtherCause.

Section Parse.

(** The lexer and the parser that ANTLR generates from the grammar are
    not among the sources: [parser_parse text] is the parse tree of
    [text], or the exception of the parser. *)
Variable parser_parse : string -> ExpressionContext + ParseCancellationException.

(** [parse_query] *)
Definition parse_query (text : string) (optimize as_anon : bool)
    : Result ContactQuery :=
  let '(is_phone, cleaned_phone) := is_phonenumber text in
  let stream :=
    match cleaned_phone with
    | Some cleaned => if negb as_anon && is_phone then cleaned else text
    | None => text
    end in
  match parser_parse stream with
  | inr ex =>
      let message :=
        match ex with
        | NoViableAltException (Some token) =>
            if negb (is_EOF token)
            then String.append "Search query contains an error at: " (token_text token)
            else "Search query contains an error"
        | _ => "Search query contains an error"
        end in
      Raise (SearchException message)
  | inl tree =>
      let query := {| root := visit as_anon tree |} in
      if optimize then optimized query else Ok query
  end.

(** [evaluate_query] *)
Definition evaluate_query (registry : list ContactField) (org : Org)
    (text : string) (contact_json : Contact_json) : Result bool :=
  parsed ← parse_query text true (is_anon org) ;
  ContactQuery_evaluate registry parsed org contact_json.

End Parse.

(** ** The meaning of a Django query

    The rows of the database that a query reads, and the contacts that a
    [Q] object selects among them. *)

Record ContactRow : Type := mkContactRow {
  row_id : Z;
  row_name : option string
}.

Record ValueRow : Type := mkValueRow {
  row_contact_id : Z;
  row_contact_field_id : Z;
  row_string_value : option string;
  row_decimal_value : option Decimal;
  row_datetime_value : option Z;
  row_location_value : option Z
}.

Record ContactURNRow : Type := mkContactURNRow {
  row_urn_org_id : Z;
  row_urn_contact_id : option Z;
  row_scheme : string;
  row_path : string
}.

Record AdminBoundaryRow : Type := mkAdminBoundaryRow {
  row_boundary_id : Z;
  row_level : option BoundaryLevel;
  row_boundary_name : string
}.

Record Database : Type := mkDatabase {
  table_values : list ValueRow;
  table_urns : list ContactURNRow;
  table_boundaries : list AdminBoundaryRow
}.

Definition BoundaryLevel_eqb (a b : BoundaryLevel) : bool :=
  match a, b with
  | LEVEL_STATE, LEVEL_STATE | LEVEL_DISTRICT, LEVEL_DISTRICT
  | LEVEL_WARD, LEVEL_WARD => true
  | _, _ => false
  end.

(** A lookup on a column of text: [iexact] and [icontains] compare without
    regard to case, no lookup is equality, and equality with [None] is
    [IS NULL].  A column that is [NULL] passes no other test. *)
Definition text_lookup (lookup : option string) (column : option string)
    (v : option CondValue) : bool :=
  match lookup, column, v with
  | Some l, Some s, Some (Str t) =>
      if String.eqb l "iexact" then String.eqb (upper s) (upper t)
      else if String.eqb l "icontains" then contains (upper t) (upper s)
      else false
  | None, Some s, Some (Str t) => String.eqb s t
  | None, None, None => true
  | _, _, _ => false
  end.

Fixpoint boundary_matches (q : BoundaryQ) (row : AdminBoundaryRow) : bool :=
  match q with
  | Q_level (Some l) =>
      match row_level row with
      | Some l' => BoundaryLevel_eqb l l'
      | None => false
      end
  | Q_level None => false
  | Q_name lookup v => text_lookup (Some lookup) (Some (row_boundary_name row)) (Some v)
  | BoundaryQ_and a b => boundary_matches a row && boundary_matches b row
  | BoundaryQ_or a b => boundary_matches a row || boundary_matches b row
  end.

Definition is_null {A : Type} (column : option A) : bool :=
  match column with
  | None => true
  | Some _ => false
  end.

(** The column [field_and_string_value] that [get_base_value_query] adds:
    the id of the field, a bar, and the first 32 characters of the text in
    upper case; [NULL] when the text is. *)
Definition row_field_and_string_value (row : ValueRow) : option string :=
  s ← row_string_value row ;
  Some (String.append (pretty (row_contact_field_id row))
          (String.append "|" (upper (take_string STRING_VALUE_COMPARISON_LIMIT s)))).

Definition param_matches (db : Database) (param : ValueParam) (row : ValueRow) : bool :=
  match param with
  | field_and_string_value key =>
      match row_field_and_string_value row with
      | Some k => String.eqb k key
      | None => false
      end
  | field_and_string_value__in keys =>
      match row_field_and_string_value row with
      | Some k => string_in k keys
      | None => false
      end
  | contact_field field => row_contact_field_id row =? field_id field
  | decimal_value lookup d =>
      match row_decimal_value row with
      | Some x =>
          if String.eqb lookup "exact" then Decimal_eqb x d
          else if String.eqb lookup "gt" then Decimal_ltb d x
          else if String.eqb lookup "gte" then Decimal_leb d x
          else if String.eqb lookup "lt" then Decimal_ltb x d
          else if String.eqb lookup "lte" then Decimal_leb x d
          else false
      | None => false
      end
  | decimal_value__in ds =>
      match row_decimal_value row with
      | Some x => existsb (Decimal_eqb x) ds
      | None => false
      end
  | datetime_value__gte t =>
      match row_datetime_value row with
      | Some x => t <=? x
      | None => false
      end
  | datetime_value__lt t =>
      match row_datetime_value row with
      | Some x => x <? t
      | None => false
      end
  | location_value__in locations =>
      match row_location_value row with
      | Some b =>
          existsb (fun boundary => (row_boundary_id boundary =? b)
                                   && boundary_matches locations boundary)
                  (table_boundaries db)
      | None => false
      end
  | string_value__isnull b => Bool.eqb (is_null (row_string_value row)) b
  | decimal_value__isnull b => Bool.eqb (is_null (row_decimal_value row)) b
  | datetime_value__isnull b => Bool.eqb (is_null (row_datetime_value row)) b
  | location_value__isnull b => Bool.eqb (is_null (row_location_value row)) b
  end.

Fixpoint value_matches (db : Database) (q : ValueQ) (row : ValueRow) : bool :=
  match q with
  | Params params => forallb (fun param => param_matches db param row) params
  | ValueQ_and a b => value_matches db a row && value_matches db b row
  | ValueQ_or a b => value_matches db a row || value_matches db b row
  end.

Definition urn_matches (f : URNFilter) (row : ContactURNRow) : bool :=
  (row_urn_org_id row =? org_id (filter_org f))
  && String.eqb (row_scheme row) (filter_scheme f)
  && match on_path f with
     | Some (lookup, v) => text_lookup (Some lookup) (Some (row_path row)) (Some v)
     | None => true
     end.

(** The column of a contact that an attribute names. *)
Definition attr_column (attr : string) (contact : ContactRow) : option string :=
  if String.eqb attr "name" then row_name contact
  else if String.eqb attr "id" then Some (pretty (row_id contact))
  else None.

(** The contacts that a query selects. *)
Fixpoint Q_matches (db : Database) (q : Q) (contact : ContactRow) : bool :=
  match q with
  | Q_id id => row_id contact =? id
  | Q_attr attr lookup v => text_lookup lookup (attr_column attr contact) v
  | Q_id__in_urns f =>
      existsb (fun row => bool_decide (row_urn_contact_id row = Some (row_id contact))
                          && urn_matches f row) (table_urns db)
  | Q_id__in_values vq =>
      existsb (fun row => (row_contact_id row =? row_id contact)
                          && value_matches db vq row) (table_values db)
  | Q_and a b => Q_matches db a contact && Q_matches db b contact
  | Q_or a b => Q_matches db a contact || Q_matches db b contact
  | Q_not a => negb (Q_matches db a contact)
  end.

(** ** The meaning of an Elasticsearch query

    What a query says of a document by the id of the document alone: the
    answer of [ids] and of the combinations, and no answer where it depends
    on the content of the index. *)





(** ** Dynamic groups and the fields of a query *)

(** [ContactQuery.can_be_dynamic_group] *)
Definition can_be_dynamic_group (query : ContactQuery) : bool :=
  let props_not_allowed : gset string := {[ "name"; "id" ]} in
  let prop_names : gset string := list_to_set (get_prop_names (root query)) in
  bool_decide (prop_names ∩ props_not_allowed = ∅).

(** The fields among the entries of a property map, as [extract_fields]
    lists them (in the order of the map, which is not Python's). *)
Definition fields_of (prop_map : gmap string PropObj) : list ContactField :=
  omap (fun entry => match entry.2 with
                     | PROP_FIELD prop_obj => Some prop_obj
                     | _ => None
                     end) (map_to_list prop_map).

Section Extract.

(** The parser that ANTLR generates, as for [parse_query]. *)
Variable parser_parse : string -> ExpressionContext + ParseCancellationException.

(** [extract_fields] *)
Definition extract_fields (registry : list ContactField) (org : Org) (text : string)
    : Result (list ContactField) :=
  parsed ← parse_query parser_parse text true (is_anon org) ;
  prop_map ← get_prop_map registry parsed org ;
  Ok (fields_of prop_map).

End Extract.

(** * Definitions for the properties *)

(** The operator of a combination. *)
Definition node_op (n : QueryNode) : option BoolOp :=
  match n with
  | Cond _ => None
  | BoolCombination op _ | SinglePropCombination _ op _ => Some op
  end.

(** A child that is a condition, or a combination with the operator [op]. *)
Definition shares_op (op : BoolOp) (n : QueryNode) : bool :=
  match node_op n with
  | Some op' => BoolOp_eqb op' op
  | None => true
  end.

(** What a child gives to the combination that absorbs it: itself for a
    condition, its children for a combination. *)
Definition absorbed (n : QueryNode) : list QueryNode :=
  match n with
  | Cond _ => [n]
  | BoolCombination _ children | SinglePropCombination _ _ children => children
  end.

(** Every combination of the tree has a child; those that the visitor
    builds have two. *)
Fixpoint has_children (n : QueryNode) : bool :=
  match n with
  | Cond _ => true
  | BoolCombination _ children | SinglePropCombination _ _ children =>
      match children with
      | [] => false
      | _ :: _ => forallb has_children children
      end
  end.

(** The value of a combination of the nodes [l] by [op] on a contact. *)
Definition eval_list (contact_json : Contact_json) (prop_map : gmap string PropObj)
    (op : BoolOp) (l : list QueryNode) : Result bool :=
  vs ← for_each (fun n => evaluate n contact_json prop_map) l ;
  reduce (bool_op op) vs.

(** The same after the value [acc] of the nodes before [l]. *)
Definition eval_from (contact_json : Contact_json) (prop_map : gmap string PropObj)
    (op : BoolOp) (acc : bool) (l : list QueryNode) : Result bool :=
  vs ← for_each (fun n => evaluate n contact_json prop_map) l ;
  Ok (fold_left (bool_op op) vs acc).

(** A child whose value is the value of what it gives to its parent. *)
Definition can_be_absorbed (contact_json : Contact_json)
    (prop_map : gmap string PropObj) (op : BoolOp) (c : QueryNode) : Prop :=
  absorbed c <> []
  /\ evaluate c contact_json prop_map = eval_list contact_json prop_map op (absorbed c).

(** The keys of a list in the order of their first occurrence. *)
Fixpoint first_occurrences (keys : list (option string)) : list (option string) :=
  match keys with
  | [] => []
  | k :: keys' => k :: List.filter (fun k' => negb (bool_decide (k' = k)))
                                   (first_occurrences keys')
  end.

(** The children whose property is [k]. *)
Definition with_prop (k : option string) (children : list QueryNode) : list QueryNode :=
  List.filter (fun c => bool_decide (prop_of c = k)) children.

(** The groups as the spec has them: one group for each property, in the
    order of the first occurrence of the properties, with the children that
    have the property, in their order. *)
Definition groups_by_prop (children : list QueryNode) : OrderedDict :=
  map (fun k => (k, with_prop k children)) (first_occurrences (map prop_of children)).

(** A group of more than one condition on a property becomes a
    [SinglePropCombination]; the other groups stay as their children. *)
Definition wrap_group (op : BoolOp) (group : option string * list QueryNode)
    : list QueryNode :=
  match group with
  | (Some p, children) =>
      if (1 <? length children)%nat then [SinglePropCombination p op children]
      else children
  | (None, children) => children
  end.

(** The only node of a list, or the combination of the nodes. *)
Definition collapse (op : BoolOp) (nodes : list QueryNode) : QueryNode :=
  match nodes with
  | [only] => only
  | _ => BoolCombination op nodes
  end.

Definition key_in_dec (k : option string) (keys : list (option string))
    : {In k keys} + {~ In k keys} :=
  in_dec (fun a b => decide (a = b)) k keys.

(** Every [SinglePropCombination] of the tree passes the assertion of its
    constructor. *)
Fixpoint assertion_holds (n : QueryNode) : bool :=
  match n with
  | Cond _ => true
  | BoolCombination _ children => forallb assertion_holds children
  | SinglePropCombination p _ children =>
      forallb (is_condition_on p) children && forallb assertion_holds children
  end.

Definition invalid_operator : Exception :=
  SearchException "Invalid operator for empty string comparison".

(** A front end that reads a text of digits as one token, and nothing
    else. *)
Definition digits_front_end (text : string)
    : ExpressionContext + ParseCancellationException :=
  if is_number_text text then inl (ImplicitCondition text)
  else inr OtherCause.

(** The text of an attribute of a contact is not set: it is [NULL] or
    empty. *)
Definition attr_not_set (attr : string) (contact : ContactRow) : bool :=
  match attr_column attr contact with
  | Some s => String.eqb s ""
  | None => true
  end.

Definition named_bob : Condition := Condition_init "name" "=" (Str "bob").

(** C2, as it is stated, fails: the evaluation of [name = bob] on a contact
    is an exception, not a boolean. *)
Definition name_is_bob : ContactQuery :=
  {| root := visit false (ConditionContext "name" "=" (TextLiteral "bob")) |}.

Definition some_org : Org :=
  {| org_id := 1; is_anon := false; timezone := UTC; get_dayfirst := true |}.

(** 2020-01-15T00:00:00Z and 2020-01-16T00:00:00Z, in seconds. *)
Definition day_start : Z := 1579046400.
Definition day_end : Z := 1579132800.

(** A keyword that tests a value against several values at once. *)
Definition is_membership (param : ValueParam) : bool :=
  match param with
  | field_and_string_value__in _ | decimal_value__in _ | location_value__in _ => true
  | _ => false
  end.

Fixpoint ValueQ_membership_tests (q : ValueQ) : nat :=
  match q with
  | Params params => length (List.filter is_membership params)
  | ValueQ_and a b | ValueQ_or a b =>
      (ValueQ_membership_tests a + ValueQ_membership_tests b)%nat
  end.

(** The number of membership tests on the rows of [Value] in a query. *)
Fixpoint membership_tests (q : Q) : nat :=
  match q with
  | Q_id__in_values vq => ValueQ_membership_tests vq
  | Q_and a b | Q_or a b => (membership_tests a + membership_tests b)%nat
  | Q_not a => membership_tests a
  | _ => O
  end.

(** The number of sub-queries on the rows of [Value] in a query. *)
Fixpoint value_subqueries (q : Q) : nat :=
  match q with
  | Q_id__in_values _ => 1%nat
  | Q_and a b | Q_or a b => (value_subqueries a + value_subqueries b)%nat
  | Q_not a => value_subqueries a
  | _ => O
  end.

(** The key of the index on texts. *)
Definition text_key (f : ContactField) (s : string) : string :=
  String.append (pretty (field_id f))
    (String.append "|" (upper (take_string STRING_VALUE_COMPARISON_LIMIT s))).

Definition is_location (t : ValueType) : bool :=
  match t with
  | TYPE_STATE | TYPE_DISTRICT | TYPE_WARD => true
  | _ => false
  end.

(** ** Organizations, fields and queries of the examples *)

Definition anonymous_org : Org :=
  {| org_id := 1; is_anon := true; timezone := UTC; get_dayfirst := true |}.

Definition tel_is_123 : Condition := Condition_init "tel" "=" (Str "123").

(** The query [name ~ bob OR tel = 123], as the visitor builds it for an
    anonymous organization, and the same with a field in the place of the
    name. *)
Definition bob_or_tel : ContactQuery :=
  {| root := visit true (CombinationOr
                           (ConditionContext "name" "~" (TextLiteral "bob"))
                           (ConditionContext "tel" "=" (TextLiteral "123"))) |}.

Definition nickname : ContactField :=
  {| field_id := 5; field_uuid := "f1"; field_key := "nickname";
     value_type := TYPE_TEXT; field_org := anonymous_org; field_is_active := true |}.

Definition nick_or_tel : ContactQuery :=
  {| root := visit true (CombinationOr
                           (ConditionContext "nickname" "=" (TextLiteral "bob"))
                           (ConditionContext "tel" "=" (TextLiteral "123"))) |}.

Definition or_or_tree : QueryNode :=
  BoolCombination OR
    [BoolCombination OR [Cond tel_is_123; Cond (Condition_init "tel" "~" (Str "9"))];
     Cond (IsSetCondition_init "twitter" "!=")].

Definition created_on : ContactField :=
  {| field_id := 9; field_uuid := "f9"; field_key := "created_on";
     value_type := TYPE_DATETIME; field_org := some_org; field_is_active := true |}.

Definition state_field : ContactField :=
  {| field_id := 5; field_uuid := "f5"; field_key := "state";
     value_type := TYPE_TEXT; field_org := some_org; field_is_active := true |}.

Definition age : ContactField :=
  {| field_id := 3; field_uuid := "f3"; field_key := "age";
     value_type := TYPE_NUMBER; field_org := some_org; field_is_active := true |}.

(** The query that asks that the age be set and be above 5, as the visitor
    builds it. *)
Definition age_set_and_above_5 : ContactQuery :=
  {| root := visit false
               (CombinationAnd
                  (ConditionContext "age" "!="
                     (StringLiteral (String quote (String quote EmptyString))))
                  (ConditionContext "age" ">" (TextLiteral "5"))) |}.

(** ** Trees that [simplify] leaves as they are *)

Definition is_condition (n : QueryNode) : bool :=
  match n with
  | Cond _ => true
  | _ => false
  end.

(** In every combination of the tree, the children are all conditions, or
    one of them is a combination with the other operator; the first is not
    so for a [SinglePropCombination], which [simplify] would turn into a
    [BoolCombination]. *)
Fixpoint simplified (n : QueryNode) : bool :=
  match n with
  | Cond _ => true
  | BoolCombination op children =>
      forallb simplified children
      && (forallb is_condition children || negb (forallb (shares_op op) children))
  | SinglePropCombination _ op children =>
      forallb simplified children && negb (forallb (shares_op op) children)
  end.

(** ** Trees that [split_by_prop] returns *)

(** In every [BoolCombination] of the tree, the children that are
    conditions are on different properties. *)
Fixpoint grouped (n : QueryNode) : bool :=
  match n with
  | Cond _ => true
  | BoolCombination _ children =>
      bool_decide (NoDup (omap prop_of children)) && forallb grouped children
  | SinglePropCombination _ _ children => forallb grouped children
  end.

(** ** The value of a list of booleans *)

(** What [reduce] makes of booleans with [operator.and_] or
    [operator.or_]: whether all hold, or whether one does. *)
Definition all_or_any (op : BoolOp) (vs : list bool) : bool :=
  match op with
  | AND => forallb id vs
  | OR => existsb id vs
  end.

(** The boolean that a node evaluates to, if it does. *)
Definition truth (contact_json : Contact_json) (prop_map : gmap string PropObj)
    (n : QueryNode) : bool :=
  match evaluate n contact_json prop_map with
  | Ok b => b
  | Raise _ => false
  end.

(** The nodes of a list all evaluate to booleans. *)
Definition all_boolean (contact_json : Contact_json) (prop_map : gmap string PropObj)
    (l : list QueryNode) : Prop :=
  Forall (fun c => exists b, evaluate c contact_json prop_map = Ok b) l.

(** ** What a property name resolves to *)

(** The field of an organization that a name is the key of: the last one
    in the registry that is active. *)
Definition field_for (registry : list ContactField) (org : Org) (p : string)
    : option ContactField :=
  List.find (fun f => (org_id (field_org f) =? org_id org)
                      && String.eqb (field_key f) p
                      && field_is_active f) (rev registry).

(** A scheme if the name is one of the searchable schemes, else an
    attribute if it is one of the searchable attributes, else a field if
    the organization has one with that key. *)
Definition resolve (registry : list ContactField) (org : Org) (p : string)
    : option PropObj :=
  if string_in p SEARCHABLE_SCHEMES then Some (PROP_SCHEME p)
  else if string_in p (searchable_attrs org) then Some (PROP_ATTRIBUTE p)
  else PROP_FIELD <$> field_for registry org p.

(** The map of [get_prop_map] before the loop that looks for a property
    that is not recognized. *)
Definition candidate_map (registry : list ContactField) (query : ContactQuery)
    (org : Org) : gmap string (option PropObj) :=
  let all_props : gset string := list_to_set (get_prop_names (root query)) in
  let attr_props := all_props ∖ list_to_set (searchable_attrs org) in
  let prop_map : gmap string (option PropObj) := gset_to_gmap None all_props in
  let prop_map :=
    fold_left (fun m field => <[field_key field := Some (PROP_FIELD field)]> m)
              (active_fields registry org attr_props) prop_map in
  let prop_map :=
    fold_left (fun m attr => set_if_present m attr (PROP_ATTRIBUTE attr))
              (searchable_attrs org) prop_map in
  fold_left (fun m scheme => set_if_present m scheme (PROP_SCHEME scheme))
            SEARCHABLE_SCHEMES prop_map.

(** A front end that reads every text as the condition that the nickname
    be bob. *)
Definition nickname_front_end (text : string)
    : ExpressionContext + ParseCancellationException :=
  inl (ConditionContext "nickname" "=" (TextLiteral "bob")).

(** A front end that reads every text as the one word bob. *)
Definition bob_front_end (text : string)
    : ExpressionContext + ParseCancellationException :=
  inl (ImplicitCondition "bob").

(** The message of [parse_query] on a text that is no query. *)
Definition is_parse_error (e : Exception) : Prop :=
  e = SearchException "Search query contains an error"
  \/ exists token_text,
       e = SearchException
             (String.append "Search query contains an error at: " token_text).

(** ** The URNs of a contact *)

(** The contact has a URN of the scheme whose path, in upper case,
    passes the test. *)
Definition has_urn (scheme : string) (test : string -> bool)
    (contact_json : Contact_json) : bool :=
  existsb (fun urn => String.eqb (urn_scheme urn) scheme && test (upper (urn_path urn)))
          (urns contact_json).

(** ** Combinations that have a condition on a scheme as a child *)




(** ** What it is for a property to be set *)

(** The type of a field is one of those of [Value]. *)
Definition has_known_type (po : PropObj) : bool :=
  match po with
  | PROP_FIELD field =>
      match value_type field with
      | TYPE_OTHER _ => false
      | _ => true
      end
  | _ => true
  end.

Definition is_attribute (po : PropObj) : bool :=
  match po with
  | PROP_ATTRIBUTE _ => true
  | _ => false
  end.

Definition is_scheme (po : PropObj) : bool :=
  match po with
  | PROP_SCHEME _ => true
  | _ => false
  end.

(** The property is set on a contact, as the evaluation reads the
    contact: the contact has a URN of the scheme, or it has an entry for
    the field with a value of the type of the field (a text, a number that
    can be read, a date that can be read, a state, a district or a
    ward). *)
Definition is_set_on_contact (po : PropObj) (contact_json : Contact_json) : bool :=
  match po with
  | PROP_SCHEME scheme =>
      existsb (fun urn => String.eqb (urn_scheme urn) scheme) (urns contact_json)
  | PROP_FIELD field =>
      match fields contact_json !! field_uuid field with
      | None => false
      | Some entry =>
          match value_type field with
          | TYPE_TEXT => negb (is_null (dict_get entry "text"))
          | TYPE_NUMBER =>
              negb (is_null (s ← dict_get_or entry "decimal" "number" ;
                             Decimal_of_string s))
          | TYPE_DATETIME =>
              negb (is_null (dates.str_to_datetime (dict_get entry "datetime")
                               (timezone (field_org field)) true true))
          | TYPE_STATE => negb (is_null (dict_get entry "state"))
          | TYPE_DISTRICT => negb (is_null (dict_get entry "district"))
          | TYPE_WARD => negb (is_null (dict_get entry "ward"))
          | TYPE_OTHER _ => false
          end
      end
  | PROP_ATTRIBUTE _ => false
  end.

(** The column of a row of [Value] that holds the values of a type is not
    [NULL]. *)
Definition column_is_set (t : ValueType) (row : ValueRow) : bool :=
  match t with
  | TYPE_TEXT => negb (is_null (row_string_value row))
  | TYPE_NUMBER => negb (is_null (row_decimal_value row))
  | TYPE_DATETIME => negb (is_null (row_datetime_value row))
  | TYPE_STATE | TYPE_DISTRICT | TYPE_WARD => negb (is_null (row_location_value row))
  | TYPE_OTHER _ => false
  end.

(** The property is set on a contact, as the database has it: there is a
    row of [Value] of the contact and the field whose column is not
    [NULL], or a URN of the contact with the scheme in the organization,
    or the attribute is neither [NULL] nor empty. *)
Definition is_set_in_database (db : Database) (org : Org) (po : PropObj)
    (contact : ContactRow) : bool :=
  match po with
  | PROP_FIELD field =>
      existsb (fun row => (row_contact_id row =? row_id contact)
                          && (row_contact_field_id row =? field_id field)
                          && column_is_set (value_type field) row)
              (table_values db)
  | PROP_SCHEME scheme =>
      existsb (fun row => bool_decide (row_urn_contact_id row = Some (row_id contact))
                          && (row_urn_org_id row =? org_id org)
                          && String.eqb (row_scheme row) scheme)
              (table_urns db)
  | PROP_ATTRIBUTE attr => negb (attr_not_set attr contact)
  end.

(** The name in an Elasticsearch document of the values of a type. *)
Definition es_field_name (t : ValueType) : string :=
  match t with
  | TYPE_TEXT => "fields.text"
  | TYPE_NUMBER => "fields.number"
  | TYPE_DATETIME => "fields.datetime"
  | TYPE_STATE => "fields.state"
  | TYPE_DISTRICT => "fields.district"
  | TYPE_WARD => "fields.ward"
  | TYPE_OTHER _ => ""
  end.

(** The Elasticsearch query of the documents where the property is set:
    a nested document of the field with a value of its type, a nested
    URN of the scheme with a path, or a name that is not the empty
    text. *)
Definition es_set_query (po : PropObj) : es_Q :=
  match po with
  | PROP_FIELD field =>
      es_nested "fields"
        (es_and (es_term "fields.field" (ES_text (field_uuid field)))
                (es_exists (es_field_name (value_type field))))
  | PROP_SCHEME scheme =>
      es_nested "urns"
        (es_and (es_exists "urns.path") (es_term "urns.scheme" (ES_text (lower scheme))))
  | PROP_ATTRIBUTE _ => es_not (es_term "name" (ES_text ""))
  end.

(** The query of the documents where it is not set: the negation of the
    former, or for the name the query that the former negates. *)
Definition es_unset_query (po : PropObj) : es_Q :=
  match po with
  | PROP_ATTRIBUTE _ => es_term "name" (ES_text "")
  | _ => es_not (es_set_query po)
  end.

(** The contact whose age is 5. *)
Definition aged_5 : Contact_json :=
  {| fields := {[ "f3" := {[ "number" := JString "5" ]} ]}; urns := [] |}.

(** ** Induction on a tree *)

Section QueryNode_induction.

Variable P : QueryNode -> Prop.
Hypothesis on_Cond : forall c, P (Cond c).
Hypothesis on_BoolCombination :
  forall op children, Forall P children -> P (BoolCombination op children).
Hypothesis on_SinglePropCombination :
  forall p op children, Forall P children -> P (SinglePropCombination p op children).

Fixpoint QueryNode_children_ind (n : QueryNode) : P n :=
  let all := fix all (l : list QueryNode) : Forall P l :=
               match l with
               | [] => @List.Forall_nil _ P
               | c :: l' => @List.Forall_cons _ P c l' (QueryNode_children_ind c) (all l')
               end in
  match n with
  | Cond c => on_Cond c
  | BoolCombination op children => on_BoolCombination op children (all children)
  | SinglePropCombination p op children =>
      on_SinglePropCombination p op children (all children)
  end.

End QueryNode_induction.

(** * Properties *)

(** ** Dates *)

Example days_from_civil_2020_01_15 : dates.days_from_civil 2020 1 15 = 18276.
Proof. reflexivity. Qed.

Example str_to_datetime_date :
  dates.str_to_datetime (Some "2020-01-15") UTC true false
  = Some (dates.mkdatetime 18276 0 0).
Proof. reflexivity. Qed.

Example str_to_datetime_instant :
  dates.instant <$> dates.str_to_datetime (Some "2020-01-16T00:00:00Z") UTC true true
  = Some 1579132800.
Proof. reflexivity. Qed.

Example str_to_datetime_offset :
  dates.instant <$> dates.str_to_datetime (Some "2020-01-16T02:00:00+02:00") UTC true true
  = Some 1579132800.
Proof. reflexivity. Qed.

(** ** Results *)

Lemma bind_Ok {A B : Type} (a : A) (k : A -> Result B) : (x ← Ok a ; k x) = k a.
Proof. reflexivity. Qed.

Lemma bind_assoc {A B C : Type} (r : Result A) (f : A -> Result B) (g : B -> Result C) :
  (y ← (x ← r ; f x) ; g y) = (x ← r ; y ← f x ; g y).
Proof. destruct r; reflexivity. Qed.

Lemma for_each_app {A B : Type} (f : A -> Result B) (l1 l2 : list A) :
  for_each f (l1 ++ l2) = (x ← for_each f l1 ; y ← for_each f l2 ; Ok (x ++ y)).
Proof.
  induction l1 as [|a l1 IH]; simpl.
  - destruct (for_each f l2); reflexivity.
  - destruct (f a) as [b|e]; simpl; [|reflexivity].
    rewrite IH. destruct (for_each f l1); simpl; [|reflexivity].
    destruct (for_each f l2); reflexivity.
Qed.

Lemma for_each_ext {A B : Type} (f g : A -> Result B) (l : list A) :
  Forall (fun a => f a = g a) l -> for_each f l = for_each g l.
Proof.
  induction 1 as [|a l Ha _ IH]; simpl; [reflexivity|].
  rewrite Ha, IH. reflexivity.
Qed.

Lemma for_each_map {A B C : Type} (f : B -> Result C) (g : A -> B) (l : list A) :
  for_each f (map g l) = for_each (fun a => f (g a)) l.
Proof.
  induction l as [|a l IH]; simpl; [reflexivity|].
  rewrite IH. reflexivity.
Qed.

Lemma for_each_Ok {A B : Type} (f : A -> B) (l : list A) :
  for_each (fun a => Ok (f a)) l = Ok (map f l).
Proof.
  induction l as [|a l IH]; simpl; [reflexivity|].
  rewrite IH. reflexivity.
Qed.

(** ** [simplify] *)

Lemma simplify_node_op (n : QueryNode) : node_op (simplify n) = node_op n.
Proof.
  destruct n as [c|op cs|p op cs]; simpl; [reflexivity| |];
    destruct (simplify_loop op (map simplify cs) []); reflexivity.
Qed.

Lemma shares_op_simplify (op : BoolOp) (cs : list QueryNode) :
  forallb (shares_op op) (map simplify cs) = forallb (shares_op op) cs.
Proof.
  induction cs as [|c cs IH]; simpl; [reflexivity|].
  unfold shares_op at 1 3. rewrite simplify_node_op, IH. reflexivity.
Qed.

Lemma simplify_loop_spec (op : BoolOp) (cs acc : list QueryNode) :
  simplify_loop op cs acc
  = if forallb (shares_op op) cs then Some (acc ++ flat_map absorbed cs) else None.
Proof.
  revert acc. induction cs as [|c cs IH]; intros acc; simpl.
  - rewrite app_nil_r. reflexivity.
  - destruct c as [c|op' cs'|p op' cs']; unfold shares_op at 1; simpl.
    + rewrite IH. destruct (forallb _ cs); [|reflexivity].
      rewrite <- app_assoc. reflexivity.
    + destruct (BoolOp_eqb op' op); simpl; [|reflexivity].
      rewrite IH. destruct (forallb _ cs); [|reflexivity].
      rewrite <- app_assoc. reflexivity.
    + destruct (BoolOp_eqb op' op); simpl; [|reflexivity].
      rewrite IH. destruct (forallb _ cs); [|reflexivity].
      rewrite <- app_assoc. reflexivity.
Qed.

(** C5: a [BoolCombination] whose children that are combinations all have
    its operator becomes, by [simplify], the combination of what its
    simplified children give: a condition itself, a combination its
    children; so [OR(OR(a, b), c)] on conditions becomes [OR(a, b, c)].
    When a child is a combination with the other operator, nothing is
    absorbed at this node: the result is the node with its children
    simplified, so [OR(AND(a, b), c)] and [OR(AND(a, b), OR(c, d))] stay as
    they are.  A combination with the other operator stays nested where it
    is: [OR(OR(AND(a, b), c), d)] becomes [OR(AND(a, b), c, d)]. *)
Theorem simplify_flattens (op : BoolOp) (children : list QueryNode) :
  simplify (BoolCombination op children)
  = (if forallb (shares_op op) children
     then BoolCombination op (flat_map absorbed (map simplify children))
     else BoolCombination op (map simplify children))
  /\ (forall a b c : Condition,
        simplify (BoolCombination OR [BoolCombination OR [Cond a; Cond b]; Cond c])
        = BoolCombination OR [Cond a; Cond b; Cond c])
  /\ (forall a b c : Condition,
        simplify (BoolCombination OR [BoolCombination AND [Cond a; Cond b]; Cond c])
        = BoolCombination OR [BoolCombination AND [Cond a; Cond b]; Cond c])
  /\ (forall a b c d : Condition,
        simplify (BoolCombination OR
                    [BoolCombination AND [Cond a; Cond b];
                     BoolCombination OR [Cond c; Cond d]])
        = BoolCombination OR
            [BoolCombination AND [Cond a; Cond b]; BoolCombination OR [Cond c; Cond d]])
  /\ (forall a b c d : Condition,
        simplify (BoolCombination OR
                    [BoolCombination OR [BoolCombination AND [Cond a; Cond b]; Cond c];
                     Cond d])
        = BoolCombination OR [BoolCombination AND [Cond a; Cond b]; Cond c; Cond d]).
Proof.
  split; [|repeat split; reflexivity].
  simpl. rewrite simplify_loop_spec, shares_op_simplify.
  destruct (forallb (shares_op op) children); reflexivity.
Qed.

(** ** [simplify] and [evaluate] *)

Lemma BoolOp_eqb_eq (a b : BoolOp) : BoolOp_eqb a b = true -> a = b.
Proof. destruct a, b; simpl; congruence. Qed.

Lemma bool_op_assoc (op : BoolOp) (a b c : bool) :
  bool_op op (bool_op op a b) c = bool_op op a (bool_op op b c).
Proof. destruct op, a, b, c; reflexivity. Qed.

Lemma bool_op_fold (op : BoolOp) (vs : list bool) (a v : bool) :
  fold_left (bool_op op) vs (bool_op op a v) = bool_op op a (fold_left (bool_op op) vs v).
Proof.
  revert v. induction vs as [|w vs IH]; intros v; simpl; [reflexivity|].
  rewrite bool_op_assoc. apply IH.
Qed.

Section Evaluate_children.

Variable contact_json : Contact_json.
Variable prop_map : gmap string PropObj.

Local Abbreviation value_of n := (evaluate n contact_json prop_map).
Local Abbreviation values_of := (for_each (fun n => evaluate n contact_json prop_map)).
Local Abbreviation value_of_list := (eval_list contact_json prop_map).
Local Abbreviation value_from := (eval_from contact_json prop_map).
Local Abbreviation absorbable := (can_be_absorbed contact_json prop_map).

Lemma eval_list_cons op c l :
  value_of_list op (c :: l) = (v ← value_of c ; value_from op v l).
Proof.
  unfold eval_list, eval_from. simpl.
  destruct (value_of c); simpl; [|reflexivity].
  destruct (values_of l); reflexivity.
Qed.

Lemma eval_from_cons op acc c l :
  value_from op acc (c :: l) = (b ← value_of c ; value_from op (bool_op op acc b) l).
Proof.
  unfold eval_from. simpl.
  destruct (value_of c); simpl; [|reflexivity].
  destruct (values_of l); reflexivity.
Qed.

Lemma eval_from_app op acc l1 l2 :
  value_from op acc (l1 ++ l2) = (a ← value_from op acc l1 ; value_from op a l2).
Proof.
  unfold eval_from. rewrite for_each_app.
  destruct (values_of l1) as [vs1|]; simpl; [|reflexivity].
  destruct (values_of l2) as [vs2|]; simpl; [|reflexivity].
  rewrite fold_left_app. reflexivity.
Qed.

Lemma eval_list_app op l1 l2 :
  l1 <> [] ->
  value_of_list op (l1 ++ l2) = (a ← value_of_list op l1 ; value_from op a l2).
Proof.
  destruct l1 as [|c l1]; [congruence|]. intros _.
  rewrite <- app_comm_cons, !eval_list_cons.
  destruct (value_of c) as [v|]; simpl; [|reflexivity].
  apply eval_from_app.
Qed.

Lemma eval_from_inner op acc l :
  l <> [] ->
  value_from op acc l = (b ← value_of_list op l ; Ok (bool_op op acc b)).
Proof.
  destruct l as [|c l]; [congruence|]. intros _.
  rewrite eval_list_cons. unfold eval_from. simpl.
  destruct (value_of c) as [v|]; simpl; [|reflexivity].
  destruct (values_of l) as [vs|]; simpl; [|reflexivity].
  rewrite bool_op_fold. reflexivity.
Qed.

Lemma eval_list_absorb op before c after :
  absorbable op c ->
  value_of_list op (before ++ absorbed c ++ after) = value_of_list op (before ++ c :: after).
Proof.
  intros [Hne Hev]. destruct before as [|a0 before]; simpl.
  - rewrite eval_list_app by assumption.
    rewrite eval_list_cons, Hev. reflexivity.
  - rewrite !eval_list_cons.
    destruct (value_of a0) as [v|]; simpl; [|reflexivity].
    rewrite !eval_from_app.
    destruct (value_from op v before) as [a|]; simpl; [|reflexivity].
    rewrite eval_from_app, eval_from_cons.
    rewrite (eval_from_inner op a (absorbed c)) by assumption.
    rewrite <- Hev. destruct (value_of c); reflexivity.
Qed.

Lemma eval_list_flat op cs :
  Forall (absorbable op) cs ->
  forall before,
    value_of_list op (before ++ flat_map absorbed cs) = value_of_list op (before ++ cs).
Proof.
  induction 1 as [|c cs Hc _ IH]; intros before; simpl; [reflexivity|].
  rewrite app_assoc, IH, <- app_assoc.
  apply eval_list_absorb. assumption.
Qed.

Lemma can_be_absorbed_child op c :
  shares_op op c = true -> has_children c = true -> absorbable op c.
Proof.
  unfold can_be_absorbed, shares_op.
  destruct c as [c|op' cs|p op' cs]; cbn [node_op absorbed has_children].
  - intros _ _. split; [congruence|].
    rewrite eval_list_cons.
    destruct (value_of (Cond c)); reflexivity.
  - intros Hop Hcs. apply BoolOp_eqb_eq in Hop. subst op'.
    split; [destruct cs; [discriminate|congruence]|reflexivity].
  - intros Hop Hcs. apply BoolOp_eqb_eq in Hop. subst op'.
    split; [destruct cs; [discriminate|congruence]|reflexivity].
Qed.

Lemma has_children_inside (cs : list QueryNode) :
  match cs with [] => false | _ :: _ => forallb has_children cs end = true ->
  cs <> [] /\ Forall (fun c => has_children c = true) cs.
Proof.
  destruct cs as [|c cs]; [discriminate|]. intros H.
  split; [congruence|].
  apply List.Forall_forall, (proj1 (forallb_forall _ _)), H.
Qed.

Lemma has_children_flat (cs : list QueryNode) :
  cs <> [] -> Forall (fun c => has_children c = true) cs ->
  match flat_map absorbed cs with
  | [] => false
  | _ :: _ => forallb has_children (flat_map absorbed cs)
  end = true.
Proof.
  intros Hne Hall.
  assert (Hin : forallb has_children (flat_map absorbed cs) = true).
  { clear Hne. induction Hall as [|c cs Hc _ IH]; simpl; [reflexivity|].
    rewrite forallb_app, IH, andb_true_r.
    destruct c as [c|op' cs'|p op' cs']; simpl in *.
    - reflexivity.
    - destruct cs'; [discriminate|assumption].
    - destruct cs'; [discriminate|assumption]. }
  destruct (flat_map absorbed cs) as [|x l] eqn:E; [|exact Hin].
  destruct cs as [|c cs]; [congruence|]. simpl in E.
  apply app_eq_nil in E as [E _].
  apply Forall_inv in Hall.
  destruct c as [c|op' cs'|p op' cs']; simpl in *; subst; discriminate.
Qed.

(** The children of a combination once [simplify] has worked on them:
    the list that the loop has built, or the simplified children when the
    loop has returned early. *)
Lemma simplified_children (op : BoolOp) (cs : list QueryNode) :
  cs <> [] ->
  Forall (fun c => has_children c = true) cs ->
  Forall (fun c => has_children c = true ->
                   has_children (simplify c) = true
                   /\ value_of (simplify c)
                      = value_of c) cs ->
  forall flat,
    flat = match simplify_loop op (map simplify cs) [] with
           | Some simplified => simplified
           | None => map simplify cs
           end ->
    match flat with [] => false | _ :: _ => forallb has_children flat end = true
    /\ value_of_list op flat = value_of_list op cs.
Proof.
  intros Hne Hall IH flat ->.
  rewrite List.Forall_forall in IH, Hall.
  assert (Hall' : Forall (fun c => has_children c = true) (map simplify cs)).
  { apply List.Forall_forall. intros c' Hin.
    apply in_map_iff in Hin as (c & <- & Hin). apply IH; auto. }
  assert (Hev : value_of_list op (map simplify cs)
                = value_of_list op cs).
  { unfold eval_list. rewrite for_each_map.
    rewrite (for_each_ext (fun a => value_of (simplify a))
               (fun n => value_of n)); [reflexivity|].
    apply List.Forall_forall. intros c Hin. apply IH; auto. }
  assert (Hne' : map simplify cs <> []) by (destruct cs; [congruence|discriminate]).
  rewrite simplify_loop_spec.
  destruct (forallb (shares_op op) (map simplify cs)) eqn:Hsh.
  - split; [apply has_children_flat; assumption|].
    rewrite app_nil_l.
    change (value_of_list op
              ([] ++ flat_map absorbed (map simplify cs))
            = value_of_list op cs).
    rewrite eval_list_flat; [exact Hev|].
    apply List.Forall_forall. intros c Hin. apply can_be_absorbed_child.
    + rewrite forallb_forall in Hsh. apply Hsh, Hin.
    + rewrite List.Forall_forall in Hall'. apply Hall', Hin.
  - split; [|exact Hev].
    destruct (map simplify cs) eqn:E; [congruence|].
    apply forallb_forall. rewrite List.Forall_forall in Hall'. exact Hall'.
Qed.

End Evaluate_children.

(** C6: for every tree whose combinations have children, every contact
    and every property map, the tree that [simplify] returns evaluates to
    what the tree evaluates to, the same boolean or the same exception;
    and its combinations have children too. *)
Theorem simplify_preserves_evaluate (n : QueryNode) (contact_json : Contact_json)
    (prop_map : gmap string PropObj) :
  has_children n = true ->
  has_children (simplify n) = true
  /\ evaluate (simplify n) contact_json prop_map = evaluate n contact_json prop_map.
Proof.
  induction n as [c|op cs IH|p op cs IH] using QueryNode_children_ind; intros Hn.
  - split; [exact Hn|reflexivity].
  - cbn [has_children] in Hn. apply has_children_inside in Hn as [Hne Hall].
    destruct (simplified_children contact_json prop_map op cs Hne Hall IH _ eq_refl)
      as [Hflat Hev].
    cbn [simplify].
    destruct (simplify_loop op (map simplify cs) []) as [flat|];
      (split; [exact Hflat|exact Hev]).
  - cbn [has_children] in Hn. apply has_children_inside in Hn as [Hne Hall].
    destruct (simplified_children contact_json prop_map op cs Hne Hall IH _ eq_refl)
      as [Hflat Hev].
    cbn [simplify].
    destruct (simplify_loop op (map simplify cs) []) as [flat|];
      (split; [exact Hflat|exact Hev]).
Qed.

(** ** [split_by_prop] *)

Lemma first_occurrences_elem (keys : list (option string)) (k : option string) :
  In k (first_occurrences keys) <-> In k keys.
Proof.
  induction keys as [|k0 keys IH]; simpl; [reflexivity|].
  rewrite filter_In, IH. split.
  - intros [H|[H _]]; auto.
  - intros [H|H]; [auto|].
    destruct (decide (k = k0)) as [->|Hne]; [auto|].
    right. split; [assumption|]. rewrite bool_decide_eq_false_2; auto.
Qed.

Lemma first_occurrences_NoDup (keys : list (option string)) :
  List.NoDup (first_occurrences keys).
Proof.
  induction keys as [|k keys IH]; simpl; [constructor|].
  constructor.
  - rewrite filter_In. intros [_ H]. rewrite bool_decide_eq_true_2 in H; [discriminate|reflexivity].
  - apply List.NoDup_filter, IH.
Qed.

Lemma filter_snoc_out {A : Type} (f : A -> bool) (l : list A) (x : A) :
  f x = false -> List.filter f (l ++ [x]) = List.filter f l.
Proof.
  intros H. rewrite List.filter_app. simpl. rewrite H. apply app_nil_r.
Qed.

Lemma filter_snoc_in {A : Type} (f : A -> bool) (l : list A) (x : A) :
  f x = true -> List.filter f (l ++ [x]) = List.filter f l ++ [x].
Proof.
  intros H. rewrite List.filter_app. simpl. rewrite H. reflexivity.
Qed.

Lemma first_occurrences_snoc (keys : list (option string)) (k : option string) :
  first_occurrences (keys ++ [k])
  = if key_in_dec k keys then first_occurrences keys
    else first_occurrences keys ++ [k].
Proof.
  induction keys as [|k0 keys IH]; cbn [first_occurrences app].
  - destruct (key_in_dec k []) as [[]|_]. reflexivity.
  - rewrite IH.
    destruct (key_in_dec k keys) as [Hin|Hnin];
      destruct (key_in_dec k (k0 :: keys)) as [Hin'|Hnin'].
    + reflexivity.
    + exfalso. apply Hnin'. right. exact Hin.
    + destruct Hin' as [->|?]; [|contradiction].
      rewrite filter_snoc_out; [reflexivity|].
      rewrite bool_decide_eq_true_2; reflexivity.
    + rewrite filter_snoc_in; [reflexivity|].
      rewrite bool_decide_eq_false_2; [reflexivity|].
      intros ->. apply Hnin'. left. reflexivity.
Qed.

Lemma with_prop_snoc (k : option string) (cs : list QueryNode) (c : QueryNode) :
  with_prop k (cs ++ [c])
  = if bool_decide (prop_of c = k) then with_prop k cs ++ [c] else with_prop k cs.
Proof.
  unfold with_prop. rewrite List.filter_app. simpl.
  destruct (bool_decide (prop_of c = k)); [reflexivity|apply app_nil_r].
Qed.

Lemma with_prop_absent (k : option string) (cs : list QueryNode) :
  ~ In k (map prop_of cs) -> with_prop k cs = [].
Proof.
  intros H. unfold with_prop. induction cs as [|c cs IH]; simpl; [reflexivity|].
  simpl in H. rewrite bool_decide_eq_false_2 by tauto. apply IH. tauto.
Qed.

(** Appending to the group of a key that the dictionary has. *)
Lemma od_append_present (p : option string) (c : QueryNode)
    (F F' : option string -> option string * list QueryNode) (keys : list (option string)) :
  (forall k, F k = (k, (F k).2)) ->
  F' p = (p, (F p).2 ++ [c]) ->
  (forall k, k <> p -> F' k = F k) ->
  List.NoDup keys -> In p keys ->
  od_append p c (map F keys) = map F' keys.
Proof.
  intros HF Hp Hother Hnodup Hin.
  induction keys as [|k keys IH]; [destruct Hin|].
  simpl. rewrite (HF k). inversion Hnodup as [|? ? Hk Hnodup']; subst.
  destruct (decide (k = p)) as [->|Hne].
  - rewrite Hp. f_equal.
    apply map_ext_in. intros k Hin'. symmetry. apply Hother.
    intros ->. contradiction.
  - rewrite <- (HF k), (Hother k Hne). f_equal.
    apply IH; [assumption|]. destruct Hin; [contradiction|assumption].
Qed.

(** Appending the group of a key that the dictionary does not have. *)
Lemma od_append_absent (p : option string) (c : QueryNode)
    (F : option string -> option string * list QueryNode) (keys : list (option string)) :
  (forall k, F k = (k, (F k).2)) ->
  ~ In p keys ->
  od_append p c (map F keys) = map F keys ++ [(p, [c])].
Proof.
  intros HF Hnin. induction keys as [|k keys IH]; [reflexivity|].
  simpl. rewrite (HF k). simpl in Hnin.
  destruct (decide (k = p)) as [->|Hne]; [tauto|].
  rewrite <- (HF k). f_equal. apply IH. tauto.
Qed.

Lemma children_by_prop_snoc (cs : list QueryNode) (c : QueryNode) :
  children_by_prop (cs ++ [c]) = od_append (prop_of c) c (children_by_prop cs).
Proof. unfold children_by_prop. rewrite fold_left_app. reflexivity. Qed.

(** The dictionary that the loop of [split_by_prop] builds holds the groups
    of the spec. *)
Lemma children_by_prop_groups (cs : list QueryNode) :
  children_by_prop cs = groups_by_prop cs.
Proof.
  induction cs as [|c cs IH] using rev_ind; [reflexivity|].
  rewrite children_by_prop_snoc, IH. unfold groups_by_prop.
  rewrite map_app. simpl. rewrite first_occurrences_snoc.
  destruct (key_in_dec (prop_of c) (map prop_of cs)) as [Hin|Hnin].
  - apply od_append_present.
    + reflexivity.
    + simpl. rewrite with_prop_snoc, bool_decide_eq_true_2; reflexivity.
    + intros k Hne. rewrite with_prop_snoc, bool_decide_eq_false_2; [reflexivity|congruence].
    + apply first_occurrences_NoDup.
    + apply first_occurrences_elem, Hin.
  - rewrite od_append_absent.
    + rewrite map_app. simpl. f_equal.
      * apply map_ext_in. intros k Hk.
        rewrite with_prop_snoc, bool_decide_eq_false_2; [reflexivity|].
        intros <-. apply Hnin, first_occurrences_elem, Hk.
      * rewrite with_prop_snoc, bool_decide_eq_true_2 by reflexivity.
        rewrite with_prop_absent by assumption. reflexivity.
    + reflexivity.
    + rewrite first_occurrences_elem. assumption.
Qed.

Lemma with_prop_conditions (p : string) (cs : list QueryNode) :
  forallb (is_condition_on p) (with_prop (Some p) cs) = true.
Proof.
  apply forallb_forall. intros c Hin. apply filter_In in Hin as [_ Hc].
  apply bool_decide_eq_true_1 in Hc.
  destruct c as [c| |]; simpl in *; try discriminate.
  injection Hc as ->. apply String.eqb_refl.
Qed.

Lemma with_prop_forallb (f : QueryNode -> bool) (k : option string) (cs : list QueryNode) :
  forallb f cs = true -> forallb f (with_prop k cs) = true.
Proof.
  rewrite !forallb_forall. intros H c Hin. apply H.
  apply filter_In in Hin. tauto.
Qed.

(** The second loop of [split_by_prop] on the groups of the spec: no
    assertion fails, and the groups are wrapped. *)
Lemma new_children_of_groups (op : BoolOp) (cs : list QueryNode)
    (keys : list (option string)) :
  new_children_of op (map (fun k => (k, with_prop k cs)) keys)
  = Ok (flat_map (wrap_group op) (map (fun k => (k, with_prop k cs)) keys)).
Proof.
  induction keys as [|k keys IH]; [reflexivity|].
  cbn [map new_children_of flat_map]. rewrite IH.
  destruct k as [p|]; cbn [wrap_group]; [|reflexivity].
  destruct (1 <? length (with_prop (Some p) cs))%nat; [|reflexivity].
  unfold SinglePropCombination_init. rewrite with_prop_conditions. reflexivity.
Qed.

Lemma regroup_groups (op : BoolOp) (cs : list QueryNode) :
  regroup op cs = Ok (collapse op (flat_map (wrap_group op) (groups_by_prop cs))).
Proof.
  unfold regroup. rewrite children_by_prop_groups. unfold groups_by_prop.
  rewrite new_children_of_groups. cbn [mbind Result_bind bind].
  unfold collapse.
  destruct (flat_map _ _) as [|x [|y l]]; reflexivity.
Qed.

Lemma assertion_holds_groups (op : BoolOp) (cs : list QueryNode)
    (keys : list (option string)) :
  forallb assertion_holds cs = true ->
  forallb assertion_holds
    (flat_map (wrap_group op) (map (fun k => (k, with_prop k cs)) keys)) = true.
Proof.
  intros Hcs. induction keys as [|k keys IH]; [reflexivity|].
  cbn [map flat_map]. rewrite forallb_app, IH, andb_true_r.
  destruct k as [p|]; cbn [wrap_group].
  - destruct (1 <? length (with_prop (Some p) cs))%nat.
    + simpl. rewrite with_prop_conditions, with_prop_forallb by assumption. reflexivity.
    + apply with_prop_forallb, Hcs.
  - apply with_prop_forallb, Hcs.
Qed.

Lemma assertion_holds_collapse (op : BoolOp) (nodes : list QueryNode) :
  forallb assertion_holds nodes = true -> assertion_holds (collapse op nodes) = true.
Proof.
  destruct nodes as [|x [|y l]]; simpl; intros H; try assumption.
  rewrite andb_true_r in H. exact H.
Qed.

Lemma for_each_total {A B : Type} (f : A -> Result B) (P : B -> Prop) (l : list A) :
  Forall (fun a => exists b, f a = Ok b /\ P b) l ->
  exists bs, for_each f l = Ok bs /\ Forall P bs.
Proof.
  induction 1 as [|a l (b & Hb & HP) _ (bs & Hbs & HPs)]; simpl.
  - exists []. split; [reflexivity|constructor].
  - exists (b :: bs). rewrite Hb, Hbs. split; [reflexivity|].
    constructor; assumption.
Qed.

(** What [split_by_prop] makes of children whose trees pass the
    assertion: a tree that passes it. *)
Lemma regroup_assertion (op : BoolOp) (cs : list QueryNode) :
  Forall (fun c => assertion_holds c = true) cs ->
  exists n', regroup op cs = Ok n' /\ assertion_holds n' = true.
Proof.
  intros Hall. eexists. rewrite regroup_groups. split; [reflexivity|].
  apply assertion_holds_collapse, assertion_holds_groups.
  apply forallb_forall. rewrite List.Forall_forall in Hall. exact Hall.
Qed.

Lemma split_by_prop_returns (n : QueryNode) : exists n', split_by_prop n = Ok n'.
Proof.
  induction n as [c|op cs IH|p op cs IH] using QueryNode_children_ind;
    [exists (Cond c); reflexivity| |];
    (destruct (for_each_total split_by_prop (fun _ => True) cs) as (cs' & Hcs' & _);
     [eapply List.Forall_impl; [|exact IH]; intros c [c' Hc']; exists c'; split; auto|];
     eexists; cbn [split_by_prop]; rewrite Hcs'; apply regroup_groups).
Qed.

(** C7: [split_by_prop] on a [BoolCombination] splits the children, groups
    those that have the same property in the order of the first occurrence
    of the properties, makes a [SinglePropCombination] with the operator of
    the combination of each group of more than one condition, and returns
    the only node that is left, if there is only one, else the
    [BoolCombination] of the nodes; so [OR(age > 18, gender = M, age < 65)]
    becomes [OR(SinglePropCombination(OR, [age > 18, age < 65]), gender = M)]. *)
Theorem split_by_prop_groups (op : BoolOp) (children : list QueryNode) :
  (exists children',
     for_each split_by_prop children = Ok children'
     /\ children_by_prop children' = groups_by_prop children'
     /\ split_by_prop (BoolCombination op children)
        = Ok (collapse op (flat_map (wrap_group op) (groups_by_prop children'))))
  /\ (let age_gt := Cond (Condition_init "age" ">" (Str "18")) in
      let gender := Cond (Condition_init "gender" "=" (Str "M")) in
      let age_lt := Cond (Condition_init "age" "<" (Str "65")) in
      split_by_prop (BoolCombination OR [age_gt; gender; age_lt])
      = Ok (BoolCombination OR [SinglePropCombination "age" OR [age_gt; age_lt]; gender])).
Proof.
  split; [|reflexivity].
  destruct (for_each_total split_by_prop (fun _ => True) children) as (cs' & Hcs' & _).
  { apply List.Forall_forall. intros c _.
    destruct (split_by_prop_returns c) as (c' & Hc'). exists c'. split; [assumption|exact I]. }
  exists cs'. split; [assumption|]. split; [apply children_by_prop_groups|].
  cbn [split_by_prop]. rewrite Hcs'. apply regroup_groups.
Qed.

(** C10: [split_by_prop] returns a tree, on every tree: the assertion of
    [SinglePropCombination.__init__] holds each time that it is called, and
    every [SinglePropCombination] of the tree that is returned has as
    children conditions on its property. *)
Theorem split_by_prop_assertion (n : QueryNode) :
  exists n', split_by_prop n = Ok n' /\ assertion_holds n' = true.
Proof.
  induction n as [c|op cs IH|p op cs IH] using QueryNode_children_ind.
  - exists (Cond c). split; reflexivity.
  - apply for_each_total in IH as (cs' & Hcs' & Hall).
    destruct (regroup_assertion op cs' Hall) as (n' & Hn' & Hassert).
    exists n'. cbn [split_by_prop]. rewrite Hcs'. split; assumption.
  - apply for_each_total in IH as (cs' & Hcs' & Hall).
    destruct (regroup_assertion op cs' Hall) as (n' & Hn' & Hassert).
    exists n'. cbn [split_by_prop]. rewrite Hcs'. split; assumption.
Qed.

(** ** Conditions on the empty text *)

Lemma lower_char_idempotent (a : ascii) : lower_char (lower_char a) = lower_char a.
Proof. destruct a as [[] [] [] [] [] [] [] []]; reflexivity. Qed.

Lemma lower_idempotent (s : string) : lower (lower s) = lower s.
Proof.
  induction s as [|a s IH]; [reflexivity|].
  unfold lower in *. simpl. rewrite lower_char_idempotent, IH. reflexivity.
Qed.

(** What [is_set_of] answers on the condition that the visitor builds for
    the comparator [cmp], in lower case. *)
Lemma is_set_of_IsSetCondition (p cmp : string) :
  lower cmp = cmp ->
  is_set_of (IsSetCondition_init p cmp)
  = if String.eqb cmp "!=" then Ok true
    else if String.eqb cmp "is" || String.eqb cmp "=" then Ok false
    else Raise invalid_operator.
Proof.
  intros Hlow. unfold is_set_of, IsSetCondition_init, Condition_init, COMPARATOR_ALIASES.
  cbn [comparator].
  destruct (String.eqb cmp "is") eqn:His.
  { apply String.eqb_eq in His. subst cmp. reflexivity. }
  destruct (String.eqb cmp "has") eqn:Hhas.
  { apply String.eqb_eq in Hhas. subst cmp. reflexivity. }
  rewrite Hlow. unfold IS_SET_LOOKUPS, IS_NOT_SET_LOOKUPS, string_in. cbn [existsb].
  rewrite His, !orb_false_r, orb_false_l.
  destruct (String.eqb cmp "!="); [reflexivity|].
  destruct (String.eqb cmp "="); reflexivity.
Qed.

(** An [IsSetCondition] whose comparator is refused raises the exception
    in each of the three translations. *)
Lemma IsSetCondition_raises (c : Condition) (e : Exception) (org : Org)
    (prop_map : gmap string PropObj) (contact_json : Contact_json) :
  is_set_condition c = true ->
  is_set_of c = Raise e ->
  is_Some (prop_map !! prop c) ->
  as_query (Cond c) org prop_map = Raise e
  /\ evaluate (Cond c) contact_json prop_map = Raise e
  /\ as_elasticsearch (Cond c) org prop_map = Raise e.
Proof.
  intros Hc He [po Hpo].
  cbn [as_query evaluate as_elasticsearch]. unfold cond_as_query. rewrite Hc.
  unfold IsSetCondition_as_query, IsSetCondition_evaluate, IsSetCondition_as_elasticsearch.
  rewrite Hpo, He. repeat split; reflexivity.
Qed.

(** An [IsSetCondition] on a URN scheme evaluates to whether the contact
    has, or has not, a URN of the scheme. *)
Lemma IsSetCondition_evaluate_scheme (c : Condition) (b : bool) (scheme : string)
    (prop_map : gmap string PropObj) (contact_json : Contact_json) :
  is_set_condition c = true ->
  is_set_of c = Ok b ->
  prop_map !! prop c = Some (PROP_SCHEME scheme) ->
  evaluate (Cond c) contact_json prop_map
  = Ok (Bool.eqb b (existsb (fun urn => String.eqb (urn_scheme urn) scheme)
                            (urns contact_json))).
Proof.
  intros Hc Hb Hp. cbn [evaluate]. rewrite Hc.
  unfold IsSetCondition_evaluate. rewrite Hp, Hb. cbn [mbind Result_bind bind].
  f_equal. induction (urns contact_json) as [|urn l IH]; simpl.
  - destruct b; reflexivity.
  - destruct (String.eqb (urn_scheme urn) scheme); simpl; [destruct b; reflexivity|].
    exact IH.
Qed.

Lemma existsb_pointwise {A : Type} (f g : A -> bool) (l : list A) :
  (forall a, f a = g a) -> existsb f l = existsb g l.
Proof.
  intros H. induction l as [|a l IH]; [reflexivity|].
  cbn. rewrite H, IH. reflexivity.
Qed.

Lemma set_answer_is_null {A : Type} (b : bool) (contact_value : option A) :
  set_answer b contact_value = Bool.eqb b (negb (is_null contact_value)).
Proof. destruct b, contact_value; reflexivity. Qed.

Lemma Q_matches_not (db : Database) (q : Q) (contact : ContactRow) :
  Q_matches db (Q_not q) contact = negb (Q_matches db q contact).
Proof. reflexivity. Qed.

(** An [IsSetCondition] on a field or on a scheme evaluates to whether
    the property is set on the contact, or is not. *)
Lemma IsSetCondition_evaluate_is_set (c : Condition) (b : bool) (po : PropObj)
    (prop_map : gmap string PropObj) (contact_json : Contact_json) :
  is_set_condition c = true ->
  is_set_of c = Ok b ->
  prop_map !! prop c = Some po ->
  has_known_type po = true ->
  is_attribute po = false ->
  evaluate (Cond c) contact_json prop_map
  = Ok (Bool.eqb b (is_set_on_contact po contact_json)).
Proof.
  intros Hc Hb Hp Htype Hattr.
  destruct po as [field|attr|scheme]; [|discriminate|].
  - cbn [evaluate]. rewrite Hc. unfold IsSetCondition_evaluate.
    rewrite Hp, Hb. cbn [mbind Result_bind bind is_set_on_contact].
    destruct (fields contact_json !! field_uuid field) as [entry|];
      [|destruct b; reflexivity].
    cbn [has_known_type] in Htype.
    destruct (value_type field); try discriminate;
      rewrite set_answer_is_null; reflexivity.
  - apply IsSetCondition_evaluate_scheme; assumption.
Qed.

(** The Django query of an [IsSetCondition] selects the contacts on which
    the property is set, or those on which it is not. *)
Lemma IsSetCondition_as_query_is_set (c : Condition) (b : bool) (po : PropObj)
    (prop_map : gmap string PropObj) (org : Org) :
  is_set_condition c = true ->
  is_set_of c = Ok b ->
  prop_map !! prop c = Some po ->
  has_known_type po = true ->
  (is_scheme po = true -> is_anon org = false) ->
  exists q,
    as_query (Cond c) org prop_map = Ok q
    /\ forall db contact,
         Q_matches db q contact = Bool.eqb b (is_set_in_database db org po contact).
Proof.
  intros Hc Hb Hp Htype Hanon.
  cbn [as_query]. unfold cond_as_query, IsSetCondition_as_query.
  rewrite Hc, Hp, Hb. cbn [mbind Result_bind bind].
  destruct po as [field|attr|scheme].
  - cbn [has_known_type] in Htype.
    assert (Hrows : forall isnull db contact,
              (forall row, param_matches db isnull row
                           = column_is_set (value_type field) row) ->
              Q_matches db (Q_id__in_values (Params [contact_field field; isnull]))
                        contact
              = is_set_in_database db org (PROP_FIELD field) contact).
    { intros isnull db contact Hcol. cbn [Q_matches is_set_in_database].
      apply existsb_pointwise. intros row.
      cbn [value_matches forallb param_matches]. rewrite Hcol, andb_true_r.
      apply andb_assoc. }
    destruct (value_type field) eqn:Ht; try discriminate;
      cbn [mbind Result_bind bind];
      (eexists; split; [reflexivity|]; intros db contact;
       destruct b; rewrite ?Q_matches_not;
       rewrite (Hrows _ db contact)
         by (intros row; cbn [param_matches column_is_set];
             match goal with |- Bool.eqb (is_null ?x) false = _ => destruct x end;
             reflexivity);
       destruct (is_set_in_database db org (PROP_FIELD field) contact); reflexivity).
  - eexists. split; [reflexivity|]. intros db contact.
    cbn [is_set_in_database]. unfold attr_not_set.
    destruct b; cbn; unfold text_lookup;
      destruct (attr_column attr contact) as [s|]; cbn; rewrite ?orb_false_r;
      try reflexivity; destruct (String.eqb s ""); reflexivity.
  - rewrite (Hanon eq_refl).
    eexists. split; [reflexivity|]. intros db contact.
    assert (Hrows : Q_matches db
                      (Q_id__in_urns {| filter_org := org; filter_scheme := scheme;
                                        on_path := None |}) contact
                    = is_set_in_database db org (PROP_SCHEME scheme) contact).
    { cbn [Q_matches is_set_in_database]. apply existsb_pointwise. intros row.
      unfold urn_matches. cbn [filter_org filter_scheme on_path].
      rewrite andb_true_r. apply andb_assoc. }
    destruct b; rewrite ?Q_matches_not, Hrows;
      destruct (is_set_in_database db org (PROP_SCHEME scheme) contact); reflexivity.
Qed.

(** The Elasticsearch query of an [IsSetCondition] is the query of the
    documents where the property is set, or of those where it is not. *)
Lemma IsSetCondition_as_elasticsearch_is_set (c : Condition) (b : bool) (po : PropObj)
    (prop_map : gmap string PropObj) (org : Org) :
  is_set_condition c = true ->
  is_set_of c = Ok b ->
  prop_map !! prop c = Some po ->
  has_known_type po = true ->
  (is_scheme po = true -> is_anon org = false) ->
  (is_attribute po = true -> po = PROP_ATTRIBUTE "name") ->
  as_elasticsearch (Cond c) org prop_map
  = Ok (if b then es_set_query po else es_unset_query po).
Proof.
  intros Hc Hb Hp Htype Hanon Hname.
  cbn [as_elasticsearch]. rewrite Hc. unfold IsSetCondition_as_elasticsearch.
  rewrite Hp, Hb. cbn [mbind Result_bind bind].
  destruct po as [field|attr|scheme].
  - cbn [has_known_type] in Htype. cbn [es_set_query es_unset_query].
    destruct (value_type field); try discriminate; destruct b; reflexivity.
  - specialize (Hname eq_refl). injection Hname as ->. destruct b; reflexivity.
  - rewrite (Hanon eq_refl). destruct b; reflexivity.
Qed.

(** C4: a condition whose literal is the empty text is visited as an
    [IsSetCondition].  With the comparator [!=] it asks that the property
    be set: it evaluates to true on the contacts that have a value for the
    field or a URN of the scheme, its Django query selects the contacts
    that have one in the database, and its Elasticsearch query is that of
    the documents that have one.  With [is] or [=] it asks that the
    property be not set: the evaluation is the negation, the Django query
    selects the other contacts and the Elasticsearch query is that of the
    other documents.  With any other comparator each translation raises a
    [SearchException].  (For an anonymous organization a condition on a
    scheme is translated to a query of no contact, and the evaluation has
    no branch for an attribute, nor Elasticsearch for an id.) *)
Theorem empty_literal_is_set_condition (TEXT COMPARATOR : string)
    (literal : LiteralContext) :
  visitLiteral literal = "" ->
  let c := visitCondition TEXT COMPARATOR literal in
  let cmp := lower COMPARATOR in
  (forall as_anon, visit as_anon (ConditionContext TEXT COMPARATOR literal) = Cond c)
  /\ c = IsSetCondition_init (lower TEXT) cmp
  /\ is_set_condition c = true
  /\ is_set_of c
     = (if String.eqb cmp "!=" then Ok true
        else if String.eqb cmp "is" || String.eqb cmp "=" then Ok false
        else Raise (SearchException "Invalid operator for empty string comparison"))
  /\ (forall b scheme prop_map contact_json,
        is_set_of c = Ok b ->
        prop_map !! prop c = Some (PROP_SCHEME scheme) ->
        evaluate (Cond c) contact_json prop_map
        = Ok (Bool.eqb b (existsb (fun urn => String.eqb (urn_scheme urn) scheme)
                                  (urns contact_json))))
  /\ (forall e org prop_map contact_json,
        is_set_of c = Raise e ->
        is_Some (prop_map !! prop c) ->
        as_query (Cond c) org prop_map = Raise e
        /\ evaluate (Cond c) contact_json prop_map = Raise e
        /\ as_elasticsearch (Cond c) org prop_map = Raise e)
  /\ (forall po prop_map contact_json,
        prop_map !! prop c = Some po ->
        has_known_type po = true ->
        is_attribute po = false ->
        (cmp = "!=" ->
         evaluate (Cond c) contact_json prop_map
         = Ok (is_set_on_contact po contact_json))
        /\ (cmp = "is" \/ cmp = "=" ->
            evaluate (Cond c) contact_json prop_map
            = Ok (negb (is_set_on_contact po contact_json))))
  /\ (forall po prop_map org,
        prop_map !! prop c = Some po ->
        has_known_type po = true ->
        (is_scheme po = true -> is_anon org = false) ->
        (cmp = "!=" ->
         exists q,
           as_query (Cond c) org prop_map = Ok q
           /\ forall db contact,
                Q_matches db q contact = is_set_in_database db org po contact)
        /\ (cmp = "is" \/ cmp = "=" ->
            exists q,
              as_query (Cond c) org prop_map = Ok q
              /\ forall db contact,
                   Q_matches db q contact
                   = negb (is_set_in_database db org po contact)))
  /\ (forall po prop_map org,
        prop_map !! prop c = Some po ->
        has_known_type po = true ->
        (is_scheme po = true -> is_anon org = false) ->
        (is_attribute po = true -> po = PROP_ATTRIBUTE "name") ->
        (cmp = "!=" -> as_elasticsearch (Cond c) org prop_map = Ok (es_set_query po))
        /\ (cmp = "is" \/ cmp = "=" ->
            as_elasticsearch (Cond c) org prop_map = Ok (es_unset_query po))).
Proof.
  intros Hlit c cmp.
  assert (Hc : c = IsSetCondition_init (lower TEXT) cmp).
  { unfold c, visitCondition. rewrite Hlit. reflexivity. }
  assert (Hflag : is_set_of c
                  = (if String.eqb cmp "!=" then Ok true
                     else if String.eqb cmp "is" || String.eqb cmp "=" then Ok false
                     else Raise invalid_operator)).
  { rewrite Hc. apply is_set_of_IsSetCondition, lower_idempotent. }
  assert (Hset : cmp = "!=" -> is_set_of c = Ok true).
  { intros Hcmp. rewrite Hflag, Hcmp. reflexivity. }
  assert (Hunset : cmp = "is" \/ cmp = "=" -> is_set_of c = Ok false).
  { intros [Hcmp|Hcmp]; rewrite Hflag, Hcmp; reflexivity. }
  assert (Hkind : is_set_condition c = true) by (rewrite Hc; reflexivity).
  split; [reflexivity|]. split; [exact Hc|]. split; [exact Hkind|].
  split; [exact Hflag|].
  split; [|split; [|split; [|split]]].
  - intros b scheme prop_map contact_json Hb Hp.
    apply IsSetCondition_evaluate_scheme; assumption.
  - intros e org prop_map contact_json He Hp.
    apply IsSetCondition_raises; assumption.
  - intros po prop_map contact_json Hp Htype Hattr. split; intros Hcmp.
    + rewrite (IsSetCondition_evaluate_is_set c true po prop_map contact_json
                 Hkind (Hset Hcmp) Hp Htype Hattr).
      destruct (is_set_on_contact po contact_json); reflexivity.
    + rewrite (IsSetCondition_evaluate_is_set c false po prop_map contact_json
                 Hkind (Hunset Hcmp) Hp Htype Hattr).
      destruct (is_set_on_contact po contact_json); reflexivity.
  - intros po prop_map org Hp Htype Hanon. split; intros Hcmp.
    + destruct (IsSetCondition_as_query_is_set c true po prop_map org
                  Hkind (Hset Hcmp) Hp Htype Hanon) as (q & Hq & Hsel).
      exists q. split; [exact Hq|]. intros db contact. rewrite Hsel.
      destruct (is_set_in_database db org po contact); reflexivity.
    + destruct (IsSetCondition_as_query_is_set c false po prop_map org
                  Hkind (Hunset Hcmp) Hp Htype Hanon) as (q & Hq & Hsel).
      exists q. split; [exact Hq|]. intros db contact. rewrite Hsel.
      destruct (is_set_in_database db org po contact); reflexivity.
  - intros po prop_map org Hp Htype Hanon Hname. split; intros Hcmp.
    + apply (IsSetCondition_as_elasticsearch_is_set c true po prop_map org
               Hkind (Hset Hcmp) Hp Htype Hanon Hname).
    + apply (IsSetCondition_as_elasticsearch_is_set c false po prop_map org
               Hkind (Hunset Hcmp) Hp Htype Hanon Hname).
Qed.

Lemma empty_literal_is_set_condition_witness :
  visitLiteral (StringLiteral (String quote (String quote EmptyString))) = ""
  /\ visitCondition "Age" "!=" (StringLiteral (String quote (String quote EmptyString)))
     = IsSetCondition_init "age" "!="
  /\ evaluate
       (Cond (visitCondition "Age" "!="
                (StringLiteral (String quote (String quote EmptyString)))))
       aged_5 {[ "age" := PROP_FIELD age ]}
     = Ok true
  /\ evaluate
       (Cond (visitCondition "Age" "!="
                (StringLiteral (String quote (String quote EmptyString)))))
       {| fields := ∅; urns := [] |} {[ "age" := PROP_FIELD age ]}
     = Ok false.
Proof.
  split; [reflexivity|].
  destruct (empty_literal_is_set_condition "Age" "!="
              (StringLiteral (String quote (String quote EmptyString))) eq_refl)
    as (_ & Hc & _ & _ & _ & _ & Hev & _).
  split; [exact Hc|].
  assert (Hage : ({[ "age" := PROP_FIELD age ]} : gmap string PropObj)
                 !! prop (visitCondition "Age" "!="
                            (StringLiteral (String quote (String quote EmptyString))))
                 = Some (PROP_FIELD age)) by (vm_compute; reflexivity).
  split.
  - rewrite (proj1 (Hev (PROP_FIELD age) _ aged_5 Hage eq_refl eq_refl) eq_refl).
    vm_compute. reflexivity.
  - rewrite (proj1 (Hev (PROP_FIELD age) _ {| fields := ∅; urns := [] |}
                      Hage eq_refl eq_refl) eq_refl).
    vm_compute. reflexivity.
Defined.

(** ** Phone numbers *)

Lemma is_tel_char_cases (a : ascii) :
  is_tel_char a = is_digit a || is_special_char a.
Proof. reflexivity. Qed.

Lemma digit_is_not_special (a : ascii) : is_digit a = true -> is_special_char a = false.
Proof. destruct a as [[] [] [] [] [] [] [] []]; vm_compute; congruence. Qed.

Lemma tel_char_is_not_newline (a : ascii) : is_tel_char a = true -> Ascii.eqb a newline = false.
Proof. destruct a as [[] [] [] [] [] [] [] []]; vm_compute; congruence. Qed.

Lemma without_last_newline_tel (s : string) :
  all_chars is_tel_char s = true -> without_last_newline s = s.
Proof.
  induction s as [|a s IH]; [reflexivity|].
  cbn [all_chars]. intros H. apply andb_true_iff in H as [Ha Hs].
  cbn [without_last_newline]. destruct s as [|b s].
  - rewrite (tel_char_is_not_newline a Ha). reflexivity.
  - rewrite (IH Hs). reflexivity.
Qed.

(** What is left of a phone number are its digits. *)
Lemma cleaned_digits (s : string) :
  all_chars is_tel_char s = true ->
  all_chars is_digit (CLEAN_SPECIAL_CHARS_REGEX_sub s) = true.
Proof.
  induction s as [|a s IH]; [reflexivity|].
  cbn [all_chars CLEAN_SPECIAL_CHARS_REGEX_sub]. intros H.
  apply andb_true_iff in H as [Ha Hs].
  destruct (is_special_char a) eqn:Hsp; [apply IH, Hs|].
  cbn [all_chars]. rewrite (IH Hs), andb_true_r.
  rewrite is_tel_char_cases, Hsp, orb_false_r in Ha. exact Ha.
Qed.

Lemma digits_are_tel (s : string) :
  all_chars is_digit s = true -> all_chars is_tel_char s = true.
Proof.
  induction s as [|a s IH]; [reflexivity|].
  cbn [all_chars]. intros H. apply andb_true_iff in H as [Ha Hs].
  rewrite is_tel_char_cases, Ha, (IH Hs). reflexivity.
Qed.

Lemma TEL_VALUE_REGEX_match_tel (s : string) :
  s <> "" -> all_chars is_tel_char s = true -> TEL_VALUE_REGEX_match s = true.
Proof.
  intros Hne Hs. unfold TEL_VALUE_REGEX_match.
  rewrite (without_last_newline_tel s Hs), Hs, andb_true_r.
  destruct s; [congruence|reflexivity].
Qed.

(** C9, as the code has it: for an organization that is not anonymous, a
    text of one or more digits, [+], blanks, [-] and parentheses is seen as
    a phone number and cleaned of all but its digits, the [+] too; when
    the parser reads what is left as one token, the query is the condition
    that [tel] contains it.  The text [+1 (555) 123-4567] is cleaned to
    [15551234567]. *)
Theorem phone_number_query
    (parser_parse : string -> ExpressionContext + ParseCancellationException)
    (text : string) (optimize : bool) :
  text <> "" ->
  all_chars is_tel_char text = true ->
  let cleaned := CLEAN_SPECIAL_CHARS_REGEX_sub text in
  is_phonenumber text = (true, Some cleaned)
  /\ all_chars is_digit cleaned = true
  /\ (cleaned <> "" ->
      parser_parse cleaned = inl (ImplicitCondition cleaned) ->
      parse_query parser_parse text optimize false
      = Ok {| root := Cond (Condition_init "tel" "~" (Str cleaned)) |})
  /\ CLEAN_SPECIAL_CHARS_REGEX_sub "+1 (555) 123-4567" = "15551234567".
Proof.
  intros Hne Htel cleaned.
  assert (Hphone : is_phonenumber text = (true, Some cleaned)).
  { unfold is_phonenumber. rewrite TEL_VALUE_REGEX_match_tel by assumption. reflexivity. }
  assert (Hdigits : all_chars is_digit cleaned = true) by (apply cleaned_digits, Htel).
  split; [exact Hphone|]. split; [exact Hdigits|]. split; [|reflexivity].
  intros Hcleaned Hparse.
  unfold parse_query. rewrite Hphone. cbn [negb andb]. rewrite Hparse.
  cbn [visit]. unfold visitImplicitCondition.
  rewrite TEL_VALUE_REGEX_match_tel by (try assumption; apply digits_are_tel, Hdigits).
  destruct optimize; reflexivity.
Qed.

Lemma phone_number_query_witness :
  parse_query digits_front_end "+1 (555) 123-4567" true false
  = Ok {| root := Cond (Condition_init "tel" "~" (Str "15551234567")) |}.
Proof.
  apply (phone_number_query digits_front_end "+1 (555) 123-4567" true).
  - discriminate.
  - reflexivity.
  - discriminate.
  - reflexivity.
Defined.

(** C9, as it is stated, fails: the [+] does not stay in the cleaned
    text. *)
Lemma phone_number_keeps_no_plus :
  is_phonenumber "+1 (555) 123-4567" = (true, Some "15551234567")
  /\ is_phonenumber "+1 (555) 123-4567" <> (true, Some "+15551234567")
  /\ parse_query digits_front_end "+1 (555) 123-4567" true false
     <> Ok {| root := Cond (Condition_init "tel" "~" (Str "+15551234567")) |}.
Proof.
  split; [reflexivity|]. split; [discriminate|].
  vm_compute. discriminate.
Qed.

(** ** Anonymous organizations *)

























(** ** Conditions on attributes *)

Lemma evaluate_attribute (c : Condition) (attr : string)
    (prop_map : gmap string PropObj) (contact_json : Contact_json) :
  prop_map !! prop c = Some (PROP_ATTRIBUTE attr) ->
  evaluate (Cond c) contact_json prop_map
  = (if is_set_condition c
     then _ ← is_set_of c ; Raise (ValueError "Unrecognized contact field type 'A'")
     else Raise (ValueError "Unrecognized contact field type 'A'")).
Proof.
  intros Hp. cbn [evaluate]. destruct (is_set_condition c).
  - unfold IsSetCondition_evaluate. rewrite Hp. reflexivity.
  - unfold Condition_evaluate. rewrite Hp. reflexivity.
Qed.

Lemma is_set_of_cases (c : Condition) :
  (exists b, is_set_of c = Ok b) \/ is_set_of c = Raise invalid_operator.
Proof.
  unfold is_set_of.
  destruct (string_in _ IS_SET_LOOKUPS); [left; eauto|].
  destruct (string_in _ IS_NOT_SET_LOOKUPS); [left; eauto|].
  right. reflexivity.
Qed.

(** C2, as the code has it: on a condition whose property is an attribute
    the evaluation on a contact returns no boolean; it raises a
    [ValueError] (an [IsSetCondition] with a comparator that is refused
    raises the [SearchException] of that before).  The comparators of an
    attribute are those of the Django query of the condition: [=] is
    equality without regard to case, [~] is containment without regard to
    case, and an [IsSetCondition] asks whether the attribute is set. *)
Theorem attribute_conditions (c : Condition) (attr : string) (org : Org)
    (prop_map : gmap string PropObj) (contact_json : Contact_json) :
  prop_map !! prop c = Some (PROP_ATTRIBUTE attr) ->
  (evaluate (Cond c) contact_json prop_map
   = Raise (ValueError "Unrecognized contact field type 'A'")
   \/ (is_set_condition c = true
       /\ evaluate (Cond c) contact_json prop_map
          = Raise (SearchException "Invalid operator for empty string comparison")))
  /\ (forall v, is_set_condition c = false -> value c = Str v -> comparator c = "=" ->
        exists q, as_query (Cond c) org prop_map = Ok q
                  /\ forall db contact,
                       Q_matches db q contact
                       = match attr_column attr contact with
                         | Some s => String.eqb (upper s) (upper v)
                         | None => false
                         end)
  /\ (forall v, is_set_condition c = false -> value c = Str v -> comparator c = "~" ->
        exists q, as_query (Cond c) org prop_map = Ok q
                  /\ forall db contact,
                       Q_matches db q contact
                       = match attr_column attr contact with
                         | Some s => contains (upper v) (upper s)
                         | None => false
                         end)
  /\ (forall is_set, is_set_condition c = true -> is_set_of c = Ok is_set ->
        exists q, as_query (Cond c) org prop_map = Ok q
                  /\ forall db contact,
                       Q_matches db q contact
                       = if is_set then negb (attr_not_set attr contact)
                         else attr_not_set attr contact).
Proof.
  intros Hp. split; [|split; [|split]].
  - rewrite (evaluate_attribute c attr prop_map contact_json Hp).
    destruct (is_set_condition c); [|left; reflexivity].
    destruct (is_set_of_cases c) as [[b ->]| ->]; [left; reflexivity|].
    right. split; reflexivity.
  - intros v Hc Hv Hcmp. cbn [as_query]. unfold cond_as_query, Condition_as_query.
    rewrite Hc, Hp. unfold _build_attr_query. rewrite Hcmp. cbn.
    eexists. split; [reflexivity|]. intros db contact. cbn. rewrite Hv.
    unfold text_lookup. destruct (attr_column attr contact); reflexivity.
  - intros v Hc Hv Hcmp. cbn [as_query]. unfold cond_as_query, Condition_as_query.
    rewrite Hc, Hp. unfold _build_attr_query. rewrite Hcmp. cbn.
    eexists. split; [reflexivity|]. intros db contact. cbn. rewrite Hv.
    unfold text_lookup. destruct (attr_column attr contact); reflexivity.
  - intros is_set Hc Hset. cbn [as_query]. unfold cond_as_query, IsSetCondition_as_query.
    rewrite Hc, Hp, Hset. cbn.
    eexists. split; [reflexivity|]. intros db contact. unfold attr_not_set.
    destruct is_set; cbn; unfold text_lookup;
      destruct (attr_column attr contact); cbn; rewrite ?orb_false_r; reflexivity.
Qed.

Lemma attribute_conditions_witness :
  evaluate (Cond named_bob) {| fields := ∅; urns := [] |}
           {[ "name" := PROP_ATTRIBUTE "name" ]}
  = Raise (ValueError "Unrecognized contact field type 'A'")
  \/ (is_set_condition named_bob = true
      /\ evaluate (Cond named_bob) {| fields := ∅; urns := [] |}
                  {[ "name" := PROP_ATTRIBUTE "name" ]}
         = Raise (SearchException "Invalid operator for empty string comparison")).
Proof.
  apply (attribute_conditions named_bob "name"
           {| org_id := 1; is_anon := false; timezone := UTC; get_dayfirst := true |}).
  reflexivity.
Defined.

Lemma evaluate_attribute_is_no_boolean :
  ContactQuery_evaluate [] name_is_bob some_org {| fields := ∅; urns := [] |}
  = Raise (ValueError "Unrecognized contact field type 'A'")
  /\ ContactQuery_evaluate [] name_is_bob some_org {| fields := ∅; urns := [] |}
     <> Ok true
  /\ ContactQuery_evaluate [] name_is_bob some_org {| fields := ∅; urns := [] |}
     <> Ok false.
Proof.
  split; [vm_compute; reflexivity|].
  split; vm_compute; discriminate.
Qed.

(** ** Conditions on dates *)

Lemma str_to_datetime_2020_01_15 (dayfirst : bool) :
  dates.str_to_datetime (Some "2020-01-15") UTC dayfirst false
  = Some (dates.mkdatetime 18276 0 0).
Proof. destruct dayfirst; reflexivity. Qed.

Lemma evaluate_datetime (cmp : string) (field : ContactField)
    (prop_map : gmap string PropObj) (contact_json : Contact_json)
    (values : gmap string JSON) (text : string) (dt : dates.datetime) :
  value_type field = TYPE_DATETIME ->
  timezone (field_org field) = UTC ->
  prop_map !! "created_on" = Some (PROP_FIELD field) ->
  fields contact_json !! field_uuid field = Some values ->
  dict_get values "datetime" = Some text ->
  dates.str_to_datetime (Some text) UTC true true = Some dt ->
  evaluate (Cond (Condition_init "created_on" cmp (Str "2020-01-15")))
           contact_json prop_map
  = let t := dates.instant dt in
    let cmp := comparator (Condition_init "created_on" cmp (Str "2020-01-15")) in
    if String.eqb cmp "=" then Ok ((day_start <=? t) && (t <? day_end))
    else if String.eqb cmp ">" then Ok (day_end <=? t)
    else if String.eqb cmp ">=" then Ok (day_start <=? t)
    else if String.eqb cmp "<" then Ok (t <? day_start)
    else if String.eqb cmp "<=" then Ok (t <? day_end)
    else Raise (ValueError (String.append "Unknown datetime comparator: " cmp)).
Proof.
  intros Htype Htz Hp Hfields Hget Hdt.
  cbn [evaluate is_set_condition Condition_init]. unfold Condition_evaluate.
  cbn [prop value Condition_init value_date_text].
  rewrite Hp, Hfields, Htype, Htz, str_to_datetime_2020_01_15, Hget, Hdt.
  unfold dates.date_to_utc_range. rewrite Htz.
  cbn [dates.date dates.local_day utcoffset UTC fst snd].
  reflexivity.
Qed.

Lemma as_query_datetime (cmp : string) (field : ContactField) (org : Org)
    (prop_map : gmap string PropObj) :
  value_type field = TYPE_DATETIME ->
  timezone (field_org field) = UTC ->
  prop_map !! "created_on" = Some (PROP_FIELD field) ->
  as_query (Cond (Condition_init "created_on" cmp (Str "2020-01-15"))) org prop_map
  = let cmp := comparator (Condition_init "created_on" cmp (Str "2020-01-15")) in
    match DATETIME_LOOKUPS cmp with
    | None => Raise (SearchException (String.append "Can't query date fields with " cmp))
    | Some lookup =>
        Ok (Q_id__in_values
              (Params (contact_field field ::
                       if String.eqb lookup "<equal>"
                       then [datetime_value__gte day_start; datetime_value__lt day_end]
                       else if String.eqb lookup "lt" then [datetime_value__lt day_start]
                       else if String.eqb lookup "lte" then [datetime_value__lt day_end]
                       else if String.eqb lookup "gt" then [datetime_value__gte day_end]
                       else [datetime_value__gte day_start])))
    end.
Proof.
  intros Htype Htz Hp.
  cbn [as_query]. unfold cond_as_query, Condition_as_query.
  cbn [is_set_condition prop Condition_init]. rewrite Hp.
  unfold _build_value_query, build_value_query_params. rewrite Htype.
  unfold _build_datetime_field_params.
  cbn [value comparator Condition_init value_date_text].
  destruct (DATETIME_LOOKUPS _) as [lookup|]; [|reflexivity].
  rewrite Htz, str_to_datetime_2020_01_15.
  unfold dates.date_to_utc_range. rewrite Htz.
  cbn [dates.date dates.local_day utcoffset UTC fst snd].
  destruct (String.eqb lookup "<equal>"); [reflexivity|].
  destruct (String.eqb lookup "lt"); [reflexivity|].
  destruct (String.eqb lookup "lte"); [reflexivity|].
  destruct (String.eqb lookup "gt"); reflexivity.
Qed.

(** C3: for a datetime field of an organization on UTC, [created_on >
    "2020-01-15"] holds of the contacts whose value is at or after
    2020-01-16T00:00:00Z, so of that instant and not of
    2020-01-15T23:59:59Z, and [created_on = "2020-01-15"] holds of the
    contacts whose value is from 2020-01-15T00:00:00Z up to, and without,
    2020-01-16T00:00:00Z; both in the evaluation on a contact and in the
    rows that the Django query selects. *)
Theorem datetime_day_range (field : ContactField) (org : Org)
    (prop_map : gmap string PropObj) :
  value_type field = TYPE_DATETIME ->
  timezone (field_org field) = UTC ->
  prop_map !! "created_on" = Some (PROP_FIELD field) ->
  let after := Cond (Condition_init "created_on" ">" (Str "2020-01-15")) in
  let on := Cond (Condition_init "created_on" "=" (Str "2020-01-15")) in
  let contact_at text :=
    {| fields := {[ field_uuid field := {[ "datetime" := JString text ]} ]};
       urns := [] |} in
  dates.instant <$> dates.str_to_datetime (Some "2020-01-15T00:00:00Z") UTC true true
  = Some day_start
  /\ dates.instant <$> dates.str_to_datetime (Some "2020-01-16T00:00:00Z") UTC true true
     = Some day_end
  /\ evaluate after (contact_at "2020-01-16T00:00:00Z") prop_map = Ok true
  /\ evaluate after (contact_at "2020-01-15T23:59:59Z") prop_map = Ok false
  /\ (forall contact_json values text dt,
        fields contact_json !! field_uuid field = Some values ->
        dict_get values "datetime" = Some text ->
        dates.str_to_datetime (Some text) UTC true true = Some dt ->
        evaluate after contact_json prop_map = Ok (day_end <=? dates.instant dt)
        /\ evaluate on contact_json prop_map
           = Ok ((day_start <=? dates.instant dt) && (dates.instant dt <? day_end)))
  /\ (exists q_after q_on,
        as_query after org prop_map = Ok (Q_id__in_values q_after)
        /\ as_query on org prop_map = Ok (Q_id__in_values q_on)
        /\ forall db row t,
             row_contact_field_id row = field_id field ->
             row_datetime_value row = Some t ->
             value_matches db q_after row = (day_end <=? t)
             /\ value_matches db q_on row = ((day_start <=? t) && (t <? day_end))).
Proof.
  intros Htype Htz Hp after on contact_at.
  assert (Hat : forall text dt,
             dates.str_to_datetime (Some text) UTC true true = Some dt ->
             evaluate after (contact_at text) prop_map = Ok (day_end <=? dates.instant dt)).
  { intros text dt Hdt.
    apply (evaluate_datetime ">" field prop_map (contact_at text)
             {[ "datetime" := JString text ]} text dt); try assumption.
    - apply lookup_singleton_eq.
    - unfold dict_get. rewrite lookup_singleton_eq. reflexivity. }
  split; [reflexivity|]. split; [reflexivity|].
  split; [apply (Hat _ (dates.mkdatetime 18277 0 0)); reflexivity|].
  split; [apply (Hat _ (dates.mkdatetime 18276 86399 0)); reflexivity|].
  split.
  - intros contact_json values text dt Hfields Hget Hdt. split.
    + apply (evaluate_datetime ">" field prop_map contact_json values text dt); assumption.
    + apply (evaluate_datetime "=" field prop_map contact_json values text dt); assumption.
  - eexists _, _. split; [|split].
    + unfold after. rewrite (as_query_datetime ">" field org prop_map Htype Htz Hp).
      reflexivity.
    + unfold on. rewrite (as_query_datetime "=" field org prop_map Htype Htz Hp).
      reflexivity.
    + intros db row t Hfield Ht. cbn. rewrite Hfield, Ht, Z.eqb_refl. cbn.
      rewrite !andb_true_r. split; reflexivity.
Qed.

(** ** The Django query of a [SinglePropCombination] *)

Lemma for_each_Cond {B : Type} (f : Condition -> Result B) (g : QueryNode -> Result B)
    (conds : list Condition) :
  (forall c, g (Cond c) = f c) ->
  for_each g (map Cond conds) = for_each f conds.
Proof.
  intros H. rewrite for_each_map. apply for_each_ext.
  apply List.Forall_forall. intros c _. apply H.
Qed.

Lemma all_equality (conds : list Condition) :
  Forall (fun c => comparator c = "=") conds ->
  forallb (fun cmp => String.eqb cmp "=") (map comparator conds) = true.
Proof.
  induction 1 as [|c conds Hc _ IH]; [reflexivity|].
  simpl. rewrite Hc, IH. reflexivity.
Qed.

(** The folded query: that of the one condition on the list of the
    values. *)
Lemma SinglePropCombination_folds (p : string) (conds : list Condition)
    (field : ContactField) (org : Org) (prop_map : gmap string PropObj) :
  prop_map !! p = Some (PROP_FIELD field) ->
  Forall (fun c => comparator c = "=") conds ->
  value_type field <> TYPE_DATETIME ->
  as_query (SinglePropCombination p OR (map Cond conds)) org prop_map
  = _build_value_query (Condition_init p "=" (ValueList (map value conds))) field.
Proof.
  intros Hp Heq Htype. cbn [as_query]. rewrite Hp.
  unfold SinglePropCombination_field_query.
  rewrite (for_each_Cond (fun c => Ok (comparator c)) node_comparator) by reflexivity.
  rewrite for_each_Ok. cbn [mbind Result_bind bind].
  rewrite (all_equality conds Heq). cbn [BoolOp_eqb andb].
  replace (negb match value_type field with TYPE_DATETIME => true | _ => false end)
    with true by (destruct (value_type field); try reflexivity; congruence).
  rewrite (for_each_Cond (fun c => Ok (value c)) node_value) by reflexivity.
  rewrite for_each_Ok. cbn [mbind Result_bind bind].
  unfold Condition_as_query. cbn [prop Condition_init]. rewrite Hp. reflexivity.
Qed.

(** The query that is not folded: one filter for each child. *)
Lemma SinglePropCombination_datetime (p : string) (op : BoolOp) (conds : list Condition)
    (field : ContactField) (org : Org) (prop_map : gmap string PropObj) :
  prop_map !! p = Some (PROP_FIELD field) ->
  value_type field = TYPE_DATETIME ->
  as_query (SinglePropCombination p op (map Cond conds)) org prop_map
  = (value_queries ← for_each (fun c => params ← _build_datetime_field_params c field ;
                                        Ok (Params params)) conds ;
     value_query ← reduce (ValueQ_op op) value_queries ;
     Ok (Q_id__in_values value_query)).
Proof.
  intros Hp Htype. cbn [as_query]. rewrite Hp.
  unfold SinglePropCombination_field_query.
  rewrite (for_each_Cond (fun c => Ok (comparator c)) node_comparator) by reflexivity.
  rewrite for_each_Ok. cbn [mbind Result_bind bind].
  rewrite Htype. cbn [negb]. rewrite !andb_false_r.
  rewrite (for_each_Cond
             (fun c => params ← _build_datetime_field_params c field ; Ok (Params params))).
  - reflexivity.
  - intros c. cbn [node_build_value_query_params]. unfold build_value_query_params.
    rewrite Htype. reflexivity.
Qed.

Lemma datetime_params_no_membership (c : Condition) (field : ContactField)
    (params : list ValueParam) :
  _build_datetime_field_params c field = Ok params ->
  List.filter is_membership params = [].
Proof.
  unfold _build_datetime_field_params.
  destruct (DATETIME_LOOKUPS _) as [lookup|]; [|discriminate].
  destruct (dates.str_to_datetime _ _ _ _); [|discriminate].
  destruct (String.eqb lookup "<equal>"); [intros [= <-]; reflexivity|].
  destruct (String.eqb lookup "lt"); [intros [= <-]; reflexivity|].
  destruct (String.eqb lookup "lte"); [intros [= <-]; reflexivity|].
  destruct (String.eqb lookup "gt"); intros [= <-]; reflexivity.
Qed.

Lemma fold_ValueQ_membership (op : BoolOp) (qs : list ValueQ) (q0 : ValueQ) :
  ValueQ_membership_tests q0 = O ->
  Forall (fun q => ValueQ_membership_tests q = O) qs ->
  ValueQ_membership_tests (fold_left (ValueQ_op op) qs q0) = O.
Proof.
  intros H0 Hall. revert q0 H0.
  induction Hall as [|q qs Hq _ IH]; intros q0 H0; [exact H0|].
  simpl. apply IH. destruct op; simpl; rewrite H0, Hq; reflexivity.
Qed.

Lemma for_each_Forall_In {A B : Type} (f : A -> Result B) (P : B -> Prop)
    (l : list A) (bs : list B) :
  (forall a b, In a l -> f a = Ok b -> P b) ->
  for_each f l = Ok bs -> Forall P bs.
Proof.
  revert bs. induction l as [|a l IH]; intros bs Hf H; simpl in H.
  - injection H as <-. constructor.
  - destruct (f a) as [b|] eqn:Ha; [|discriminate].
    destruct (for_each f l) as [bs'|]; [|discriminate].
    cbn in H. injection H as <-. constructor.
    + apply (Hf a); [left; reflexivity|exact Ha].
    + apply IH; [|reflexivity]. intros a' b' Hin. apply Hf. right. exact Hin.
Qed.

Lemma for_each_Forall {A B : Type} (f : A -> Result B) (P : B -> Prop)
    (l : list A) (bs : list B) :
  (forall a b, f a = Ok b -> P b) ->
  for_each f l = Ok bs -> Forall P bs.
Proof. intros Hf. apply for_each_Forall_In. intros a b _. apply Hf. Qed.

Lemma for_each_length {A B : Type} (f : A -> Result B) (l : list A) (bs : list B) :
  for_each f l = Ok bs -> length bs = length l.
Proof.
  revert bs. induction l as [|a l IH]; intros bs H; simpl in H.
  - injection H as <-. reflexivity.
  - destruct (f a) as [b|]; [|discriminate].
    destruct (for_each f l) as [bs'|]; [|discriminate].
    cbn in H. injection H as <-. simpl. f_equal. apply IH. reflexivity.
Qed.

Lemma fold_Q_subqueries (op : BoolOp) (qs : list Q) (q0 : Q) :
  Forall (fun q => value_subqueries q = 1%nat) qs ->
  value_subqueries (fold_left (Q_op op) qs q0)
  = (value_subqueries q0 + length qs)%nat.
Proof.
  intros Hall. revert q0.
  induction Hall as [|q qs Hq _ IH]; intros q0; simpl; [lia|].
  rewrite IH. destruct op; simpl; rewrite Hq; lia.
Qed.

(** A condition on a field is one sub-query on the rows of [Value]. *)
Lemma cond_on_field_subquery (c : Condition) (field : ContactField) (org : Org)
    (prop_map : gmap string PropObj) (q : Q) :
  prop_map !! prop c = Some (PROP_FIELD field) ->
  as_query (Cond c) org prop_map = Ok q -> value_subqueries q = 1%nat.
Proof.
  intros Hp. cbn [as_query]. unfold cond_as_query.
  destruct (is_set_condition c).
  - unfold IsSetCondition_as_query. rewrite Hp.
    destruct (is_set_of c) as [[]|]; [| |discriminate]; cbn;
      destruct (value_type field); cbn; intros [= <-]; reflexivity.
  - unfold Condition_as_query. rewrite Hp. unfold _build_value_query.
    destruct (build_value_query_params c field); [|discriminate].
    cbn. intros [= <-]. reflexivity.
Qed.

Lemma folded_params (p : string) (texts : list string) (field : ContactField) :
  build_value_query_params (Condition_init p "=" (ValueList (map Str texts))) field
  = match value_type field with
    | TYPE_TEXT => Ok [field_and_string_value__in (map (text_key field) texts)]
    | TYPE_NUMBER =>
        ds ← for_each _parse_number (map Str texts) ;
        Ok [contact_field field; decimal_value__in ds]
    | TYPE_DATETIME =>
        _build_datetime_field_params (Condition_init p "=" (ValueList (map Str texts))) field
    | TYPE_STATE | TYPE_DISTRICT | TYPE_WARD =>
        names ← reduce BoundaryQ_or (map (fun s => Q_name "iexact" (Str s)) texts) ;
        Ok [contact_field field;
            location_value__in
              (BoundaryQ_and (Q_level (BOUNDARY_LEVELS_BY_VALUE_TYPE (value_type field)))
                             names)]
    | TYPE_OTHER code => unrecognized_field_type code
    end.
Proof.
  unfold build_value_query_params.
  destruct (value_type field) eqn:Htype; try reflexivity.
  - unfold _build_text_field_params. cbn [value Condition_init].
    rewrite for_each_map. unfold index_key. fold (text_key field).
    rewrite (for_each_Ok (text_key field)). reflexivity.
  - unfold _build_location_field_params. cbn [value comparator Condition_init]. cbn.
    rewrite Htype, map_map. reflexivity.
  - unfold _build_location_field_params. cbn [value comparator Condition_init]. cbn.
    rewrite Htype, map_map. reflexivity.
  - unfold _build_location_field_params. cbn [value comparator Condition_init]. cbn.
    rewrite Htype, map_map. reflexivity.
Qed.

(** C8: the Django query of a [SinglePropCombination] with the operator OR
    whose children all have the comparator [=], on a field that is not a
    datetime, is one sub-query on the rows of [Value] with one test of the
    value against the list of the values of the children: the keys of the
    texts, the numbers, or the boundaries that have one of the names.  On a
    datetime field the range filters of the children are combined, with no
    test against a list.  The [BoolCombination] of the same children has
    one sub-query for each child. *)
Theorem single_prop_membership (p : string) (conds : list Condition)
    (texts : list string) (field : ContactField) (org : Org)
    (prop_map : gmap string PropObj) :
  prop_map !! p = Some (PROP_FIELD field) ->
  Forall (fun c => prop c = p /\ comparator c = "=") conds ->
  map value conds = map Str texts ->
  conds <> [] ->
  let combination := SinglePropCombination p OR (map Cond conds) in
  (value_type field = TYPE_TEXT ->
     as_query combination org prop_map
     = Ok (Q_id__in_values
             (Params [field_and_string_value__in (map (text_key field) texts)])))
  /\ (value_type field = TYPE_NUMBER ->
        as_query combination org prop_map
        = (ds ← for_each _parse_number (map Str texts) ;
           Ok (Q_id__in_values (Params [contact_field field; decimal_value__in ds]))))
  /\ (is_location (value_type field) = true ->
        exists names,
          reduce BoundaryQ_or (map (fun s => Q_name "iexact" (Str s)) texts) = Ok names
          /\ as_query combination org prop_map
             = Ok (Q_id__in_values
                     (Params [contact_field field;
                              location_value__in
                                (BoundaryQ_and
                                   (Q_level (BOUNDARY_LEVELS_BY_VALUE_TYPE (value_type field)))
                                   names)])))
  /\ (value_type field <> TYPE_DATETIME ->
        forall q, as_query combination org prop_map = Ok q ->
                  value_subqueries q = 1%nat /\ membership_tests q = 1%nat)
  /\ (value_type field = TYPE_DATETIME ->
        as_query combination org prop_map
        = (value_queries ←
             for_each (fun c => params ← _build_datetime_field_params c field ;
                                Ok (Params params)) conds ;
           value_query ← reduce ValueQ_or value_queries ;
           Ok (Q_id__in_values value_query))
        /\ forall q, as_query combination org prop_map = Ok q -> membership_tests q = O)
  /\ (forall q, as_query (BoolCombination OR (map Cond conds)) org prop_map = Ok q ->
                value_subqueries q = length conds).
Proof.
  intros Hp Hconds Hvalues Hne combination.
  assert (Heq : Forall (fun c => comparator c = "=") conds).
  { eapply List.Forall_impl; [|exact Hconds]. intros c [_ H]. exact H. }
  assert (Hfold : value_type field <> TYPE_DATETIME ->
                  as_query combination org prop_map
                  = (params ← build_value_query_params
                                (Condition_init p "=" (ValueList (map Str texts))) field ;
                     Ok (Q_id__in_values (Params params)))).
  { intros Htype. unfold combination.
    rewrite (SinglePropCombination_folds p conds field org prop_map Hp Heq Htype).
    rewrite Hvalues. reflexivity. }
  assert (Hnames : exists names,
             reduce BoundaryQ_or (map (fun s => Q_name "iexact" (Str s)) texts) = Ok names).
  { destruct texts as [|s texts]; [|eexists; reflexivity].
    destruct conds; [congruence|discriminate]. }
  split; [|split; [|split; [|split; [|split]]]].
  - intros Htype. rewrite Hfold by congruence. rewrite folded_params, Htype. reflexivity.
  - intros Htype. rewrite Hfold by congruence. rewrite folded_params, Htype.
    destruct (for_each _parse_number (map Str texts)); reflexivity.
  - intros Htype. destruct Hnames as [names Hnames]. exists names.
    split; [exact Hnames|].
    rewrite Hfold by (intros E; rewrite E in Htype; discriminate).
    rewrite folded_params, Hnames.
    destruct (value_type field); try discriminate; reflexivity.
  - intros Htype q. rewrite (Hfold Htype), folded_params.
    destruct Hnames as [names Hnames]. rewrite Hnames.
    destruct (value_type field); try congruence; cbn;
      try (intros [= <-]; split; reflexivity); try discriminate.
    destruct (for_each _parse_number (map Str texts)); cbn; [|discriminate].
    intros [= <-]. split; reflexivity.
  - intros Htype.
    pose proof (SinglePropCombination_datetime p OR conds field org prop_map Hp Htype) as Hq.
    split; [exact Hq|].
    intros q. unfold combination. rewrite Hq.
    destruct (for_each _ conds) as [vqs|] eqn:Hvqs; [|discriminate]. cbn.
    destruct vqs as [|vq0 vqs]; [discriminate|]. cbn. intros [= <-]. cbn.
    assert (Hall : Forall (fun vq => ValueQ_membership_tests vq = O) (vq0 :: vqs)).
    { apply (for_each_Forall _ _ _ _) with (2 := Hvqs). intros c vq Hc.
      destruct (_build_datetime_field_params c field) as [params|] eqn:Hparams;
        [|discriminate].
      cbn in Hc. injection Hc as <-. cbn.
      rewrite (datetime_params_no_membership c field params Hparams). reflexivity. }
    apply (fold_ValueQ_membership OR); [apply (Forall_inv Hall)|apply (Forall_inv_tail Hall)].
  - intros q. cbn [as_query].
    destruct (for_each _ (map Cond conds)) as [qs|] eqn:Hqs; cbn; [|discriminate].
    assert (Hall : Forall (fun q => value_subqueries q = 1%nat) qs).
    { rewrite for_each_map in Hqs.
      apply (for_each_Forall_In _ _ _ _) with (2 := Hqs). intros c q' Hin Hq'.
      rewrite List.Forall_forall in Hconds. destruct (Hconds c Hin) as [Hc _].
      apply (cond_on_field_subquery c field org prop_map q'); [|exact Hq'].
      rewrite Hc. exact Hp. }
    apply for_each_length in Hqs. rewrite List.length_map in Hqs.
    destruct qs as [|q0 qs]; [discriminate|]. cbn [reduce]. intros [= <-].
    change (value_subqueries (fold_left (Q_op OR) qs q0) = length conds).
    rewrite (fold_Q_subqueries OR qs q0 (Forall_inv_tail Hall)).
    rewrite (Forall_inv Hall). simpl in Hqs. lia.
Qed.

(** ** Examples *)



(** The evaluation on a contact does not look at the organization: a
    condition on a URN scheme holds of a contact that has the URN, for an
    anonymous organization as for any other. *)
Remark evaluate_ignores_anonymity :
  ContactQuery_evaluate [] {| root := Cond tel_is_123 |} anonymous_org
    {| fields := ∅; urns := [ {| urn_scheme := "tel"; urn_path := "123" |} ] |}
  = Ok true.
Proof. vm_compute. reflexivity. Qed.

Lemma simplify_preserves_evaluate_witness :
  has_children or_or_tree = true
  /\ evaluate (simplify or_or_tree)
       {| fields := ∅; urns := [ {| urn_scheme := "tel"; urn_path := "123" |} ] |}
       {[ "tel" := PROP_SCHEME "tel" ]}
     = evaluate or_or_tree
         {| fields := ∅; urns := [ {| urn_scheme := "tel"; urn_path := "123" |} ] |}
         {[ "tel" := PROP_SCHEME "tel" ]}.
Proof.
  split; [reflexivity|].
  apply simplify_preserves_evaluate. reflexivity.
Defined.

Lemma datetime_day_range_witness :
  timezone (field_org created_on) = UTC
  /\ evaluate (Cond (Condition_init "created_on" ">" (Str "2020-01-15")))
       {| fields := {[ "f9" := {[ "datetime" := JString "2020-01-16T00:00:00Z" ]} ]};
          urns := [] |}
       {[ "created_on" := PROP_FIELD created_on ]}
     = Ok true.
Proof.
  split; [reflexivity|].
  apply (datetime_day_range created_on some_org
           {[ "created_on" := PROP_FIELD created_on ]}).
  - reflexivity.
  - reflexivity.
  - vm_compute. reflexivity.
Defined.

Lemma single_prop_membership_witness :
  as_query (SinglePropCombination "state" OR
              [Cond (Condition_init "state" "=" (Str "x"));
               Cond (Condition_init "state" "=" (Str "y"))])
           some_org {[ "state" := PROP_FIELD state_field ]}
  = Ok (Q_id__in_values (Params [field_and_string_value__in ["5|X"; "5|Y"]])).
Proof.
  apply (single_prop_membership "state"
           [Condition_init "state" "=" (Str "x"); Condition_init "state" "=" (Str "y")]
           ["x"; "y"] state_field some_org {[ "state" := PROP_FIELD state_field ]}).
  - reflexivity.
  - repeat constructor.
  - reflexivity.
  - discriminate.
  - reflexivity.
Defined.


(** ** Trees of the visitor and their property maps *)

(** The combinations that the visitor builds have two children. *)
Lemma visit_has_children (as_anon : bool) (ctx : ExpressionContext) :
  has_children (visit as_anon ctx) = true.
Proof.
  induction ctx as [TEXT|TEXT COMPARATOR literal|e0 IH0 e1 IH1|e0 IH0 e1 IH1
                   |e0 IH0 e1 IH1|e IH]; cbn [visit has_children forallb];
    try reflexivity; try exact IH; rewrite IH0, IH1; reflexivity.
Qed.

Lemma set_if_present_is_Some (m : gmap string (option PropObj)) (key p : string)
    (entry : PropObj) :
  is_Some (m !! p) -> is_Some (set_if_present m key entry !! p).
Proof.
  intros H. unfold set_if_present. destruct (m !! key) eqn:Hkey; [|exact H].
  destruct (decide (key = p)) as [->|Hne].
  - rewrite lookup_insert_eq. eauto.
  - rewrite lookup_insert_ne by assumption. exact H.
Qed.

Lemma set_if_present_same (m : gmap string (option PropObj)) (key : string)
    (entry : PropObj) :
  is_Some (m !! key) -> set_if_present m key entry !! key = Some (Some entry).
Proof.
  intros [x Hx]. unfold set_if_present. rewrite Hx. apply lookup_insert_eq.
Qed.

Lemma set_if_present_other (m : gmap string (option PropObj)) (key p : string)
    (entry : PropObj) :
  key <> p -> set_if_present m key entry !! p = m !! p.
Proof.
  intros Hne. unfold set_if_present. destruct (m !! key); [|reflexivity].
  apply lookup_insert_ne, Hne.
Qed.

Lemma fold_insert_is_Some (fs : list ContactField) (m : gmap string (option PropObj))
    (p : string) :
  is_Some (m !! p) ->
  is_Some (fold_left (fun m field => <[field_key field := Some (PROP_FIELD field)]> m)
                     fs m !! p).
Proof.
  revert m. induction fs as [|f fs IH]; intros m H; [exact H|].
  simpl. apply IH. destruct (decide (field_key f = p)) as [->|Hne].
  - rewrite lookup_insert_eq. eauto.
  - rewrite lookup_insert_ne by assumption. exact H.
Qed.

Lemma fold_set_if_present_is_Some (entry : string -> PropObj) (keys : list string)
    (m : gmap string (option PropObj)) (p : string) :
  is_Some (m !! p) ->
  is_Some (fold_left (fun m key => set_if_present m key (entry key)) keys m !! p).
Proof.
  revert m. induction keys as [|k keys IH]; intros m H; [exact H|].
  simpl. apply IH, set_if_present_is_Some, H.
Qed.

(** The name of a searchable scheme is a scheme in the property map of
    every query that has it, whatever the fields of the organization. *)
Lemma scheme_in_prop_map (registry : list ContactField) (query : ContactQuery)
    (org : Org) (prop_map : gmap string PropObj) (p : string) :
  get_prop_map registry query org = Ok prop_map ->
  In p SEARCHABLE_SCHEMES ->
  In p (get_prop_names (root query)) ->
  prop_map !! p = Some (PROP_SCHEME p).
Proof.
  unfold get_prop_map. intros Hmap Hscheme Hin.
  set (m2 := fold_left (fun m attr => set_if_present m attr (PROP_ATTRIBUTE attr)) _ _)
    in Hmap.
  assert (H2 : is_Some (m2 !! p)).
  { apply fold_set_if_present_is_Some, fold_insert_is_Some.
    rewrite lookup_gset_to_gmap, option_guard_True; [eauto|].
    apply elem_of_list_to_set, list_elem_of_In, Hin. }
  destruct (List.filter _ _) as [|[p0 o] l]; [|discriminate].
  injection Hmap as <-. rewrite lookup_omap. cbn [SEARCHABLE_SCHEMES fold_left].
  destruct Hscheme as [<-|[<-|[]]].
  - rewrite set_if_present_other by discriminate.
    rewrite set_if_present_same by assumption. reflexivity.
  - rewrite set_if_present_same; [reflexivity|].
    apply set_if_present_is_Some, H2.
Qed.

(** In a [SinglePropCombination] on a field, [as_query] reads a child by
    [build_value_query_params], which an [IsSetCondition] inherits from
    [Condition]: there the comparator [!=] is not one of a number field,
    and the query that is translated before [optimized] is no more
    translated after it. *)
Remark is_set_inside_single_prop_combination :
  optimized age_set_and_above_5
  = Ok {| root := SinglePropCombination "age" AND
                    [Cond (IsSetCondition_init "age" "!=");
                     Cond (Condition_init "age" ">" (Str "5"))] |}
  /\ (q ← optimized age_set_and_above_5 ; ContactQuery_as_query [age] q some_org)
     = Raise (SearchException "Can't query number fields with !=")
  /\ ContactQuery_as_query [age] age_set_and_above_5 some_org
     = Ok (Q_and (Q_id__in_values (Params [contact_field age; decimal_value__isnull false]))
                 (Q_id__in_values
                    (Params [contact_field age;
                             decimal_value "gt" {| coefficient := 5; places := 0 |}]))).
Proof. repeat split; vm_compute; reflexivity. Qed.

(** ** More on [simplify] *)

Lemma prop_names_absorbed (c : QueryNode) :
  concat (map get_prop_names (absorbed c)) = get_prop_names c.
Proof. destruct c; cbn; rewrite ?app_nil_r; reflexivity. Qed.

Lemma prop_names_flat (cs : list QueryNode) :
  concat (map get_prop_names (flat_map absorbed cs)) = concat (map get_prop_names cs).
Proof.
  induction cs as [|c cs IH]; [reflexivity|].
  cbn [flat_map map concat]. rewrite map_app, concat_app, IH, prop_names_absorbed.
  reflexivity.
Qed.

(** [simplify] keeps the property names of a tree, in their order. *)
Lemma simplify_prop_names (n : QueryNode) :
  get_prop_names (simplify n) = get_prop_names n.
Proof.
  induction n as [c|op cs IH|p op cs IH] using QueryNode_children_ind;
    [reflexivity| |];
    (assert (Hcs : concat (map get_prop_names (map simplify cs))
                   = concat (map get_prop_names cs))
      by (f_equal; rewrite map_map; apply map_ext_Forall; exact IH));
    cbn [simplify]; rewrite simplify_loop_spec;
    destruct (forallb (shares_op op) (map simplify cs));
    cbn [get_prop_names app]; rewrite ?prop_names_flat; exact Hcs.
Qed.

Lemma shares_op_condition (op : BoolOp) (cs : list QueryNode) :
  forallb is_condition cs = true -> forallb (shares_op op) cs = true.
Proof.
  induction cs as [|c cs IH]; [reflexivity|].
  cbn [forallb]. intros H. apply andb_true_iff in H as [Hc Hcs].
  rewrite (IH Hcs), andb_true_r. destruct c; [reflexivity|discriminate|discriminate].
Qed.

Lemma absorbed_conditions (cs : list QueryNode) :
  forallb is_condition cs = true -> flat_map absorbed cs = cs.
Proof.
  induction cs as [|c cs IH]; [reflexivity|].
  cbn [forallb flat_map]. intros H. apply andb_true_iff in H as [Hc Hcs].
  rewrite (IH Hcs). destruct c; [reflexivity|discriminate|discriminate].
Qed.

(** What the children of a combination give, when they are simplified and
    share its operator: simplified nodes that are all conditions or among
    which one has the other operator. *)
Lemma simplified_flat (op : BoolOp) (cs : list QueryNode) :
  forallb simplified cs = true ->
  forallb (shares_op op) cs = true ->
  forallb simplified (flat_map absorbed cs) = true
  /\ (forallb is_condition (flat_map absorbed cs)
      || negb (forallb (shares_op op) (flat_map absorbed cs))) = true.
Proof.
  induction cs as [|c cs IH]; [split; reflexivity|].
  cbn [forallb flat_map]. intros Hs Hsh.
  apply andb_true_iff in Hs as [Hc Hcs]. apply andb_true_iff in Hsh as [Hshc Hshcs].
  destruct (IH Hcs Hshcs) as [IH1 IH2].
  rewrite !forallb_app, IH1, andb_true_r.
  destruct c as [c|op' cs'|p op' cs'].
  - split; [reflexivity|]. cbn. exact IH2.
  - unfold shares_op in Hshc. cbn in Hshc. apply BoolOp_eqb_eq in Hshc. subst op'.
    cbn [absorbed]. cbn [simplified] in Hc.
    apply andb_true_iff in Hc as [Hc1 Hc2]. split; [exact Hc1|].
    apply orb_true_iff in Hc2 as [Hconds|Hmixed].
    + rewrite Hconds, (shares_op_condition op cs' Hconds). exact IH2.
    + apply negb_true_iff in Hmixed. rewrite Hmixed. cbn.
      apply orb_true_r.
  - unfold shares_op in Hshc. cbn in Hshc. apply BoolOp_eqb_eq in Hshc. subst op'.
    cbn [absorbed]. cbn [simplified] in Hc.
    apply andb_true_iff in Hc as [Hc1 Hmixed]. split; [exact Hc1|].
    apply negb_true_iff in Hmixed. rewrite Hmixed. cbn.
    apply orb_true_r.
Qed.

Lemma simplify_simplified (n : QueryNode) : simplified (simplify n) = true.
Proof.
  induction n as [c|op cs IH|p op cs IH] using QueryNode_children_ind;
    [reflexivity| |];
    (assert (Hcs : forallb simplified (map simplify cs) = true)
      by (apply forallb_forall; intros c' Hin;
          apply in_map_iff in Hin as (c & <- & Hin);
          rewrite List.Forall_forall in IH; apply IH, Hin));
    cbn [simplify]; rewrite simplify_loop_spec;
    destruct (forallb (shares_op op) (map simplify cs)) eqn:Hsh;
    cbn [simplified app]; rewrite ?Hsh, ?Hcs, ?orb_true_r; try reflexivity;
    destruct (simplified_flat op (map simplify cs) Hcs Hsh) as [H1 H2];
    rewrite H1, H2; reflexivity.
Qed.

Lemma simplified_fixed (n : QueryNode) : simplified n = true -> simplify n = n.
Proof.
  induction n as [c|op cs IH|p op cs IH] using QueryNode_children_ind;
    [reflexivity| |]; cbn [simplified]; intros H;
    apply andb_true_iff in H as [Hcs Hshape];
    (assert (Hmap : map simplify cs = cs)
      by (rewrite <- (map_id cs) at 2; apply map_ext_Forall;
          rewrite List.Forall_forall in IH |- *; intros c Hin; apply IH; [exact Hin|];
          rewrite forallb_forall in Hcs; apply Hcs, Hin));
    cbn [simplify]; rewrite Hmap, simplify_loop_spec.
  - apply orb_true_iff in Hshape as [Hconds|Hmixed].
    + rewrite (shares_op_condition op cs Hconds), (absorbed_conditions cs Hconds).
      reflexivity.
    + apply negb_true_iff in Hmixed. rewrite Hmixed. reflexivity.
  - apply negb_true_iff in Hshape. rewrite Hshape. reflexivity.
Qed.

(** X1: [simplify] is idempotent: the tree that it returns is one that it
    leaves as it is. *)
Theorem simplify_idempotent (n : QueryNode) :
  simplified (simplify n) = true /\ simplify (simplify n) = simplify n.
Proof.
  split; [apply simplify_simplified|].
  apply simplified_fixed, simplify_simplified.
Qed.

(** ** More on [split_by_prop] *)

Lemma Permutation_concat_map {A B : Type} (f : A -> list B) (l l' : list A) :
  Permutation l l' -> Permutation (concat (map f l)) (concat (map f l')).
Proof.
  induction 1 as [|x l l' _ IH|x y l|l l' l'' _ IH1 _ IH2]; cbn.
  - constructor.
  - apply Permutation_app_head, IH.
  - rewrite !app_assoc. apply Permutation_app_tail, Permutation_app_comm.
  - etransitivity; eassumption.
Qed.

(** The groups of the dictionary hold the children, each one once. *)
Lemma od_append_members (p : option string) (c : QueryNode) (d : OrderedDict) :
  Permutation (flat_map snd (od_append p c d)) (flat_map snd d ++ [c]).
Proof.
  induction d as [|[p' cs] d IH]; cbn [od_append flat_map snd app].
  - reflexivity.
  - destruct (decide (p' = p)); cbn [flat_map snd].
    + rewrite <- !app_assoc. apply Permutation_app_head, Permutation_app_comm.
    + rewrite IH, app_assoc. reflexivity.
Qed.

Lemma groups_members (cs : list QueryNode) :
  Permutation (flat_map snd (groups_by_prop cs)) cs.
Proof.
  rewrite <- children_by_prop_groups.
  induction cs as [|c cs IH] using rev_ind; [reflexivity|].
  rewrite children_by_prop_snoc, od_append_members, IH. reflexivity.
Qed.

Lemma prop_names_wrap (op : BoolOp) (groups : OrderedDict) :
  concat (map get_prop_names (flat_map (wrap_group op) groups))
  = concat (map get_prop_names (flat_map snd groups)).
Proof.
  induction groups as [|[k g] groups IH]; [reflexivity|].
  cbn [flat_map snd]. rewrite !map_app, !concat_app, IH. f_equal.
  destruct k as [p|]; cbn [wrap_group]; [|reflexivity].
  destruct (1 <? length g)%nat; [|reflexivity].
  cbn. apply app_nil_r.
Qed.

Lemma prop_names_collapse (op : BoolOp) (nodes : list QueryNode) :
  get_prop_names (collapse op nodes) = concat (map get_prop_names nodes).
Proof.
  destruct nodes as [|x [|y l]]; cbn; rewrite ?app_nil_r; reflexivity.
Qed.

Lemma for_each_Forall2 {A B : Type} (f : A -> Result B) (R : A -> B -> Prop)
    (l : list A) :
  Forall (fun a => exists b, f a = Ok b /\ R a b) l ->
  exists bs, for_each f l = Ok bs /\ Forall2 R l bs.
Proof.
  induction 1 as [|a l (b & Hb & HR) _ (bs & Hbs & HRs)]; cbn.
  - exists []. split; [reflexivity|constructor].
  - exists (b :: bs). rewrite Hb, Hbs. split; [reflexivity|].
    constructor; assumption.
Qed.

Lemma Forall2_prop_names (cs cs' : list QueryNode) :
  Forall2 (fun c c' => Permutation (get_prop_names c') (get_prop_names c)) cs cs' ->
  Permutation (concat (map get_prop_names cs')) (concat (map get_prop_names cs)).
Proof.
  induction 1 as [|c c' cs cs' Hc _ IH]; cbn; [reflexivity|].
  apply Permutation_app; assumption.
Qed.

(** [split_by_prop] keeps the property names of a tree, each as often as
    it was there; their order may change. *)
Lemma split_by_prop_prop_names (n : QueryNode) :
  exists n', split_by_prop n = Ok n'
             /\ Permutation (get_prop_names n') (get_prop_names n).
Proof.
  induction n as [c|op cs IH|p op cs IH] using QueryNode_children_ind;
    [exists (Cond c); split; reflexivity| |];
    (apply for_each_Forall2 in IH as (cs' & Hcs' & Hall);
     eexists; cbn [split_by_prop]; rewrite Hcs'; cbn [mbind Result_bind bind];
     rewrite regroup_groups; split; [reflexivity|];
     rewrite prop_names_collapse, prop_names_wrap;
     rewrite (Permutation_concat_map get_prop_names _ _ (groups_members cs'));
     cbn [get_prop_names]; apply Forall2_prop_names, Hall).
Qed.

Lemma with_prop_None (cs : list QueryNode) : omap prop_of (with_prop None cs) = [].
Proof.
  unfold with_prop. induction cs as [|c cs IH]; [reflexivity|].
  cbn [List.filter]. destruct (bool_decide (prop_of c = None)) eqn:Hc; [|exact IH].
  apply bool_decide_eq_true_1 in Hc. cbn. rewrite Hc. exact IH.
Qed.

(** The conditions that the wrapped groups leave are one for a key at
    most. *)
Lemma wrapped_condition_props (op : BoolOp) (cs : list QueryNode)
    (keys : list (option string)) :
  exists some, omap prop_of (flat_map (wrap_group op)
                               (map (fun k => (k, with_prop k cs)) keys))
               = omap id some
               /\ sublist some keys.
Proof.
  induction keys as [|k keys (some & Hsome & Hsub)]; [exists []; split; constructor|].
  cbn [map flat_map]. rewrite omap_app, Hsome.
  assert (Hk : omap prop_of (wrap_group op (k, with_prop k cs)) = []
               \/ omap prop_of (wrap_group op (k, with_prop k cs)) = omap id [k]).
  { destruct k as [p|]; cbn [wrap_group].
    - destruct (with_prop (Some p) cs) as [|c [|c' g]] eqn:Hg; cbn [length Nat.ltb Nat.leb].
      + left. reflexivity.
      + right. assert (Hin : In c (with_prop (Some p) cs)) by (rewrite Hg; left; reflexivity).
        apply filter_In in Hin as [_ Hc]. apply bool_decide_eq_true_1 in Hc.
        cbn. rewrite Hc. reflexivity.
      + left. reflexivity.
    - left. apply with_prop_None. }
  destruct Hk as [-> | ->].
  - exists some. split; [reflexivity|]. apply sublist_cons, Hsub.
  - exists (k :: some). split; [rewrite <- omap_app; reflexivity|].
    apply sublist_skip, Hsub.
Qed.

Lemma omap_id_NoDup (keys : list (option string)) :
  NoDup keys -> NoDup (omap id keys).
Proof.
  induction 1 as [|k keys Hk _ IH]; [constructor|].
  destruct k as [p|]; cbn; [|exact IH].
  constructor; [|exact IH]. intros Hin. apply Hk.
  apply list_elem_of_omap in Hin as (k & Hin & Hk'). destruct k; [|discriminate].
  cbn in Hk'. injection Hk' as ->. exact Hin.
Qed.

Lemma grouped_with_prop (k : option string) (cs : list QueryNode) :
  forallb grouped cs = true -> forallb grouped (with_prop k cs) = true.
Proof. apply with_prop_forallb. Qed.

Lemma grouped_wrap (op : BoolOp) (cs : list QueryNode) (keys : list (option string)) :
  forallb grouped cs = true ->
  forallb grouped (flat_map (wrap_group op) (map (fun k => (k, with_prop k cs)) keys))
  = true.
Proof.
  intros Hcs. induction keys as [|k keys IH]; [reflexivity|].
  cbn [map flat_map]. rewrite forallb_app, IH, andb_true_r.
  destruct k as [p|]; cbn [wrap_group]; [|apply grouped_with_prop, Hcs].
  destruct (1 <? length (with_prop (Some p) cs))%nat; [|apply grouped_with_prop, Hcs].
  cbn. rewrite grouped_with_prop by assumption. reflexivity.
Qed.

Lemma grouped_regroup (op : BoolOp) (cs : list QueryNode) :
  forallb grouped cs = true ->
  exists n', regroup op cs = Ok n' /\ grouped n' = true.
Proof.
  intros Hcs. eexists. rewrite regroup_groups. split; [reflexivity|].
  unfold groups_by_prop.
  pose proof (grouped_wrap op cs (first_occurrences (map prop_of cs)) Hcs) as Hall.
  destruct (wrapped_condition_props op cs (first_occurrences (map prop_of cs)))
    as (some & Hsome & Hsub).
  assert (Hdistinct : NoDup (omap prop_of
            (flat_map (wrap_group op)
               (map (fun k => (k, with_prop k cs)) (first_occurrences (map prop_of cs)))))).
  { rewrite Hsome. apply omap_id_NoDup. eapply sublist_NoDup; [|exact Hsub].
    apply NoDup_ListNoDup, first_occurrences_NoDup. }
  destruct (flat_map _ _) as [|x [|y l]]; cbn [collapse grouped].
  - reflexivity.
  - cbn in Hall. rewrite andb_true_r in Hall. exact Hall.
  - rewrite Hall, andb_true_r. apply bool_decide_eq_true_2, Hdistinct.
Qed.

(** X2: in the tree that [split_by_prop] returns, the conditions that are
    children of one [BoolCombination] are on different properties: those on
    the same property have been put in a [SinglePropCombination]. *)
Theorem split_by_prop_grouped (n : QueryNode) :
  exists n', split_by_prop n = Ok n' /\ grouped n' = true.
Proof.
  induction n as [c|op cs IH|p op cs IH] using QueryNode_children_ind;
    [exists (Cond c); split; reflexivity| |];
    (apply for_each_total in IH as (cs' & Hcs' & Hall);
     destruct (grouped_regroup op cs') as (n' & Hn' & Hgrouped);
       [apply forallb_forall; rewrite List.Forall_forall in Hall; exact Hall|];
     exists n'; cbn [split_by_prop]; rewrite Hcs'; split; assumption).
Qed.

(** ** [split_by_prop] and [evaluate] *)

Lemma fold_all_or_any (op : BoolOp) (vs : list bool) (v : bool) :
  fold_left (bool_op op) vs v = bool_op op v (all_or_any op vs).
Proof.
  revert v. induction vs as [|w vs IH]; intros v; cbn [fold_left].
  - destruct op, v; reflexivity.
  - rewrite IH. destruct op, v, w; reflexivity.
Qed.

Lemma reduce_all_or_any (op : BoolOp) (vs : list bool) :
  vs <> [] -> reduce (bool_op op) vs = Ok (all_or_any op vs).
Proof.
  destruct vs as [|v vs]; [congruence|]. intros _.
  cbn [reduce]. rewrite fold_all_or_any. destruct op; reflexivity.
Qed.

Lemma all_or_any_app (op : BoolOp) (l1 l2 : list bool) :
  all_or_any op (l1 ++ l2) = bool_op op (all_or_any op l1) (all_or_any op l2).
Proof. destruct op; cbn; [apply forallb_app|apply existsb_app]. Qed.

Lemma all_or_any_Permutation (op : BoolOp) (l l' : list bool) :
  Permutation l l' -> all_or_any op l = all_or_any op l'.
Proof.
  induction 1 as [|x l l' _ IH|x y l|l l' l'' _ IH1 _ IH2].
  - reflexivity.
  - destruct op; cbn in *; rewrite IH; reflexivity.
  - destruct op, x, y; reflexivity.
  - congruence.
Qed.

Lemma for_each_all_Ok {A B : Type} (f : A -> Result B) (l : list A) (bs : list B) :
  for_each f l = Ok bs -> Forall (fun a => exists b, f a = Ok b) l.
Proof.
  revert bs. induction l as [|a l IH]; intros bs H; [constructor|].
  cbn in H. destruct (f a) as [b|] eqn:Ha; [|discriminate].
  destruct (for_each f l) as [bs'|]; [|discriminate].
  constructor; [eauto|]. apply (IH bs'). reflexivity.
Qed.

Section Evaluate_groups.

Variable contact_json : Contact_json.
Variable prop_map : gmap string PropObj.

Local Abbreviation value_of n := (evaluate n contact_json prop_map).
Local Abbreviation truth_of := (truth contact_json prop_map).
Local Abbreviation booleans := (all_boolean contact_json prop_map).

Lemma value_of_truth (c : QueryNode) (b : bool) : value_of c = Ok b -> truth_of c = b.
Proof. unfold truth. intros ->. reflexivity. Qed.

Lemma for_each_truth (l : list QueryNode) :
  booleans l ->
  for_each (fun n => value_of n) l = Ok (map truth_of l).
Proof.
  induction 1 as [|c l [b Hb] _ IH]; [reflexivity|].
  cbn. rewrite (value_of_truth c b Hb), Hb, IH. reflexivity.
Qed.

(** A combination of nodes that evaluate to booleans evaluates to whether
    all of them, or one of them, hold. *)
Lemma evaluate_booleans (op : BoolOp) (l : list QueryNode) :
  booleans l -> l <> [] ->
  value_of (BoolCombination op l) = Ok (all_or_any op (map truth_of l)).
Proof.
  intros Hl Hne. cbn [evaluate]. rewrite (for_each_truth l Hl).
  cbn [mbind Result_bind bind]. apply reduce_all_or_any.
  destruct l; [congruence|discriminate].
Qed.

Lemma booleans_with_prop (k : option string) (cs : list QueryNode) :
  booleans cs -> booleans (with_prop k cs).
Proof.
  unfold all_boolean. rewrite !List.Forall_forall. intros H c Hin.
  apply H. apply filter_In in Hin. tauto.
Qed.

Lemma wrap_group_value (op : BoolOp) (k : option string) (g : list QueryNode) :
  booleans g ->
  booleans (wrap_group op (k, g))
  /\ all_or_any op (map truth_of (wrap_group op (k, g)))
     = all_or_any op (map truth_of g).
Proof.
  intros Hg. destruct k as [p|]; cbn [wrap_group]; [|split; [exact Hg|reflexivity]].
  destruct (1 <? length g)%nat eqn:Hlen; [|split; [exact Hg|reflexivity]].
  assert (Hne : g <> []) by (destruct g; [discriminate|congruence]).
  assert (Hv : value_of (SinglePropCombination p op g)
               = Ok (all_or_any op (map truth_of g)))
    by (apply (evaluate_booleans op g Hg Hne)).
  split.
  - constructor; [eauto|constructor].
  - cbn [map]. rewrite (value_of_truth _ _ Hv). destruct op; cbn.
    + apply andb_true_r.
    + apply orb_false_r.
Qed.

Lemma wrapped_groups_value (op : BoolOp) (cs : list QueryNode)
    (keys : list (option string)) :
  booleans cs ->
  let groups := map (fun k => (k, with_prop k cs)) keys in
  booleans (flat_map (wrap_group op) groups)
  /\ all_or_any op (map truth_of (flat_map (wrap_group op) groups))
     = all_or_any op (map truth_of (flat_map snd groups)).
Proof.
  intros Hcs. induction keys as [|k keys [IH1 IH2]]; [split; [constructor|reflexivity]|].
  cbn [map flat_map snd].
  destruct (wrap_group_value op k (with_prop k cs) (booleans_with_prop k cs Hcs))
    as [H1 H2].
  split.
  - apply Forall_app. split; assumption.
  - rewrite !map_app, !all_or_any_app, H2. f_equal. exact IH2.
Qed.

Lemma wrap_group_nil (op : BoolOp) (groups : OrderedDict) :
  flat_map (wrap_group op) groups = [] -> flat_map snd groups = [].
Proof.
  induction groups as [|[k g] groups IH]; [reflexivity|].
  cbn [flat_map snd]. intros H. apply app_eq_nil in H as [Hg Hrest].
  rewrite (IH Hrest), app_nil_r.
  destruct k as [p|]; cbn [wrap_group] in Hg; [|exact Hg].
  destruct (1 <? length g)%nat; [discriminate|exact Hg].
Qed.

Lemma collapse_value (op : BoolOp) (nodes : list QueryNode) :
  booleans nodes -> nodes <> [] ->
  value_of (collapse op nodes) = Ok (all_or_any op (map truth_of nodes)).
Proof.
  intros Hnodes Hne. destruct nodes as [|x [|y l]]; [congruence| |].
  - cbn [collapse map]. apply Forall_inv in Hnodes as [b Hb].
    rewrite (value_of_truth x b Hb), Hb. destruct op, b; reflexivity.
  - apply (evaluate_booleans op _ Hnodes Hne).
Qed.

(** The node that [split_by_prop] makes of children that evaluate to
    booleans evaluates to what their combination does. *)
Lemma regroup_value (op : BoolOp) (cs : list QueryNode) :
  booleans cs -> cs <> [] ->
  exists n', regroup op cs = Ok n'
             /\ value_of n' = Ok (all_or_any op (map truth_of cs)).
Proof.
  intros Hcs Hne. eexists. rewrite regroup_groups. split; [reflexivity|].
  unfold groups_by_prop.
  destruct (wrapped_groups_value op cs (first_occurrences (map prop_of cs)) Hcs)
    as [H1 H2].
  rewrite collapse_value.
  - rewrite H2. f_equal. apply all_or_any_Permutation, Permutation_map.
    apply groups_members.
  - exact H1.
  - intros Hnil. apply wrap_group_nil in Hnil.
    pose proof (groups_members cs) as Hperm. unfold groups_by_prop in Hperm.
    rewrite Hnil in Hperm. apply Permutation_nil in Hperm. congruence.
Qed.

Lemma Forall2_truth (cs cs' : list QueryNode) :
  Forall2 (fun c c' => forall b, value_of c = Ok b <-> value_of c' = Ok b) cs cs' ->
  (booleans cs -> booleans cs' /\ map truth_of cs' = map truth_of cs)
  /\ (booleans cs' -> booleans cs).
Proof.
  induction 1 as [|c c' cs cs' Hc _ [IH1 IH2]]; [repeat split; constructor|].
  split.
  - intros Hok. apply Forall_cons in Hok as [[v Hv] Hok].
    destruct (IH1 Hok) as [IH3 IH4]. pose proof (proj1 (Hc v) Hv) as Hv'. split.
    + constructor; [exists v; exact Hv'|exact IH3].
    + cbn [map]. unfold truth at 1 3. rewrite Hv, Hv', IH4. reflexivity.
  - intros Hok. apply Forall_cons in Hok as [[v Hv] Hok].
    constructor; [exists v; apply Hc, Hv|apply IH2, Hok].
Qed.

Lemma collapse_booleans (op : BoolOp) (nodes : list QueryNode) (b : bool) :
  value_of (collapse op nodes) = Ok b -> booleans nodes /\ nodes <> [].
Proof.
  destruct nodes as [|x [|y l]]; cbn [collapse].
  - discriminate.
  - intros Hx. split; [|discriminate]. constructor; [eauto|constructor].
  - cbn [evaluate]. intros Hv. split; [|discriminate].
    destruct (for_each _ (x :: y :: l)) as [vs|] eqn:Hvs; [|discriminate].
    apply (for_each_all_Ok _ _ _ Hvs).
Qed.

Lemma wrapped_booleans (op : BoolOp) (groups : OrderedDict) :
  booleans (flat_map (wrap_group op) groups) -> booleans (flat_map snd groups).
Proof.
  induction groups as [|[k g] groups IH]; [intros _; constructor|].
  cbn [flat_map snd]. intros H. apply Forall_app in H as [Hg Hrest].
  apply Forall_app. split; [|apply IH, Hrest].
  destruct k as [p|]; cbn [wrap_group] in Hg; [|exact Hg].
  destruct (1 <? length g)%nat; [|exact Hg].
  apply Forall_inv in Hg as [b Hb]. cbn [evaluate] in Hb.
  destruct (for_each _ g) as [vs|] eqn:Hvs; [|discriminate].
  apply (for_each_all_Ok _ _ _ Hvs).
Qed.

(** The children are evaluated, all of them, when the node that
    [split_by_prop] makes of them is. *)
Lemma regroup_booleans (op : BoolOp) (cs : list QueryNode) (n' : QueryNode) (b : bool) :
  regroup op cs = Ok n' -> value_of n' = Ok b -> booleans cs /\ cs <> [].
Proof.
  rewrite regroup_groups. intros [= <-] Hv.
  apply collapse_booleans in Hv as [Hnodes Hne].
  apply wrapped_booleans in Hnodes. split.
  - eapply Permutation_Forall; [apply groups_members|exact Hnodes].
  - intros ->. apply Hne. reflexivity.
Qed.

(** The step of [split_by_prop] at a combination: the node that it makes
    evaluates to a boolean when the combination does, and to the same. *)
Lemma split_combination_value (op : BoolOp) (cs : list QueryNode) :
  Forall (fun c => exists c', split_by_prop c = Ok c'
                              /\ forall b, value_of c = Ok b <-> value_of c' = Ok b) cs ->
  exists n', (cs' ← for_each split_by_prop cs ; regroup op cs') = Ok n'
             /\ forall b, value_of (BoolCombination op cs) = Ok b <-> value_of n' = Ok b.
Proof.
  intros IH. apply for_each_Forall2 in IH as (cs' & Hcs' & Hall).
  destruct (Forall2_truth cs cs' Hall) as [Hto Hfrom].
  assert (Hlen : cs = [] <-> cs' = []) by (split; intros ->; inversion Hall; reflexivity).
  assert (Hforward : booleans cs -> cs <> [] ->
            exists n', regroup op cs' = Ok n'
                       /\ value_of n' = value_of (BoolCombination op cs)).
  { intros Hok Hne. destruct (Hto Hok) as [Hok' Htruth].
    destruct (regroup_value op cs' Hok') as (n' & Hn' & Hv); [tauto|].
    exists n'. split; [exact Hn'|].
    rewrite Hv, Htruth, (evaluate_booleans op cs Hok Hne). reflexivity. }
  rewrite Hcs'. cbn [mbind Result_bind bind].
  eexists. split; [apply regroup_groups|]. intros b. split.
  - intros Hb.
    assert (Hvs : exists vs, for_each (fun n => value_of n) cs = Ok vs /\ vs <> []).
    { cbn [evaluate] in Hb.
      destruct (for_each (fun child => value_of child) cs) as [vs|]; [|discriminate].
      exists vs. split; [reflexivity|]. intros ->. discriminate. }
    destruct Hvs as (vs & Hvs & Hvne).
    assert (Hne : cs <> []).
    { intros ->. cbn in Hvs. injection Hvs as <-. congruence. }
    destruct (Hforward (for_each_all_Ok _ _ _ Hvs) Hne) as (n' & Hn' & Hv).
    rewrite regroup_groups in Hn'. injection Hn' as <-. congruence.
  - intros Hb.
    destruct (regroup_booleans op cs' _ b (regroup_groups op cs') Hb) as [Hok' Hne'].
    destruct (Hforward (Hfrom Hok')) as (n' & Hn' & Hv); [tauto|].
    rewrite regroup_groups in Hn'. injection Hn' as <-. congruence.
Qed.

End Evaluate_groups.

(** A tree evaluates to a boolean on a contact when the tree that
    [split_by_prop] returns does, and to the same.  (When one raises an
    exception, the other raises one too, which can be that of another
    child: the children are evaluated in the order of their groups.) *)
Lemma split_by_prop_evaluate (n : QueryNode) (contact_json : Contact_json)
    (prop_map : gmap string PropObj) :
  exists n', split_by_prop n = Ok n'
             /\ forall b, evaluate n contact_json prop_map = Ok b
                          <-> evaluate n' contact_json prop_map = Ok b.
Proof.
  induction n as [c|op cs IH|p op cs IH] using QueryNode_children_ind.
  - exists (Cond c). split; [reflexivity|tauto].
  - apply (split_combination_value contact_json prop_map op cs IH).
  - apply (split_combination_value contact_json prop_map op cs IH).
Qed.

(** ** [optimized] *)

(** The property map of a query is that of its property names, as a set. *)
Lemma get_prop_map_names (registry : list ContactField) (query query' : ContactQuery)
    (org : Org) :
  (list_to_set (get_prop_names (root query')) : gset string)
  = list_to_set (get_prop_names (root query)) ->
  get_prop_map registry query' org = get_prop_map registry query org.
Proof. intros H. unfold get_prop_map. rewrite H. reflexivity. Qed.

Lemma optimized_names (query : ContactQuery) :
  exists query', optimized query = Ok query'
                 /\ Permutation (get_prop_names (root query'))
                                (get_prop_names (root query)).
Proof.
  destruct (split_by_prop_prop_names (simplify (root query))) as (n' & Hn' & Hperm).
  exists {| root := n' |}. unfold optimized. rewrite Hn'. split; [reflexivity|].
  cbn [root]. rewrite <- (simplify_prop_names (root query)). exact Hperm.
Qed.

(** X3: the query that [optimized] returns has the property names of the
    query, each as often as it was there; so it has the same property map,
    for every organization, and it can be a dynamic group when the query
    can. *)
Theorem optimized_prop_names (query : ContactQuery) :
  exists query',
    optimized query = Ok query'
    /\ Permutation (get_prop_names (root query')) (get_prop_names (root query))
    /\ (forall registry org,
          get_prop_map registry query' org = get_prop_map registry query org)
    /\ can_be_dynamic_group query' = can_be_dynamic_group query.
Proof.
  destruct (optimized_names query) as (query' & Hq' & Hperm).
  assert (Hset : (list_to_set (get_prop_names (root query')) : gset string)
                 = list_to_set (get_prop_names (root query)))
    by (apply list_to_set_perm_L, Hperm).
  exists query'. split; [exact Hq'|]. split; [exact Hperm|]. split.
  - intros registry org. apply get_prop_map_names, Hset.
  - unfold can_be_dynamic_group. rewrite Hset. reflexivity.
Qed.

(** [simplify] keeps the value of a tree whose combinations have
    children. *)
Lemma simplify_value (n : QueryNode) (contact_json : Contact_json)
    (prop_map : gmap string PropObj) :
  has_children n = true ->
  has_children (simplify n) = true
  /\ evaluate (simplify n) contact_json prop_map = evaluate n contact_json prop_map.
Proof.
  induction n as [c|op cs IH|p op cs IH] using QueryNode_children_ind; intros Hn;
    [split; [exact Hn|reflexivity]| |];
    (cbn [has_children] in Hn; apply has_children_inside in Hn as [Hne Hall];
     destruct (simplified_children contact_json prop_map op cs Hne Hall IH _ eq_refl)
       as [Hflat Hev];
     cbn [simplify];
     destruct (simplify_loop op (map simplify cs) []) as [flat|];
     (split; [exact Hflat|exact Hev])).
Qed.

Lemma optimized_value (query : ContactQuery) :
  has_children (root query) = true ->
  exists query',
    optimized query = Ok query'
    /\ forall registry org contact_json b,
         ContactQuery_evaluate registry query org contact_json = Ok b
         <-> ContactQuery_evaluate registry query' org contact_json = Ok b.
Proof.
  intros Hquery.
  destruct (optimized_names query) as (query' & Hq' & Hperm).
  exists query'. split; [exact Hq'|].
  intros registry org contact_json b. unfold ContactQuery_evaluate.
  rewrite (get_prop_map_names registry query query' org)
    by (apply list_to_set_perm_L, Hperm).
  destruct (get_prop_map registry query org) as [prop_map|e]; [|tauto].
  cbn [mbind Result_bind bind].
  destruct (split_by_prop_evaluate (simplify (root query)) contact_json prop_map)
    as (n' & Hn' & Hiff).
  unfold optimized in Hq'. rewrite Hn' in Hq'. injection Hq' as <-. cbn [root].
  rewrite <- Hiff.
  rewrite (proj2 (simplify_value (root query) contact_json prop_map Hquery)).
  tauto.
Qed.

(** X4: a query whose combinations have children, as those of the visitor
    have, evaluates to a boolean on a contact when the query that
    [optimized] returns does, and to the same boolean; so one raises an
    exception when the other does. *)
Theorem optimized_evaluate (query : ContactQuery) :
  has_children (root query) = true ->
  exists query',
    optimized query = Ok query'
    /\ forall registry org contact_json b,
         ContactQuery_evaluate registry query org contact_json = Ok b
         <-> ContactQuery_evaluate registry query' org contact_json = Ok b.
Proof. exact (optimized_value query). Qed.

Lemma optimized_evaluate_witness :
  has_children (root bob_or_tel) = true
  /\ exists query',
       optimized bob_or_tel = Ok query'
       /\ forall registry org contact_json b,
            ContactQuery_evaluate registry bob_or_tel org contact_json = Ok b
            <-> ContactQuery_evaluate registry query' org contact_json = Ok b.
Proof.
  split; [reflexivity|].
  apply optimized_evaluate. reflexivity.
Defined.

(** ** The property map *)

Lemma string_in_In (s : string) (l : list string) : string_in s l = true <-> In s l.
Proof.
  unfold string_in. rewrite existsb_exists. split.
  - intros (x & Hin & Heq). apply String.eqb_eq in Heq. subst. exact Hin.
  - intros Hin. exists s. split; [exact Hin|apply String.eqb_refl].
Qed.

Lemma string_in_elem_of (s : string) (l : list string) :
  string_in s l = bool_decide (s ∈ (list_to_set l : gset string)).
Proof.
  destruct (string_in s l) eqn:H; symmetry.
  - apply bool_decide_eq_true_2, elem_of_list_to_set, list_elem_of_In, string_in_In, H.
  - apply bool_decide_eq_false_2. intros Hin.
    apply elem_of_list_to_set, list_elem_of_In, string_in_In in Hin. congruence.
Qed.

Lemma get_prop_map_candidates (registry : list ContactField) (query : ContactQuery)
    (org : Org) :
  get_prop_map registry query org
  = match List.filter (fun item => match item.2 with None => true | Some _ => false end)
                      (map_to_list (candidate_map registry query org)) with
    | (p, _) :: _ => Raise (SearchException (String.append "Unrecognized field: " p))
    | [] => Ok (omap id (candidate_map registry query org))
    end.
Proof. reflexivity. Qed.

Lemma set_if_present_lookup (m : gmap string (option PropObj)) (key p : string)
    (entry : PropObj) :
  set_if_present m key entry !! p
  = match m !! p with
    | Some x => if String.eqb key p then Some (Some entry) else Some x
    | None => None
    end.
Proof.
  unfold set_if_present. destruct (String.eqb key p) eqn:Hkey.
  - apply String.eqb_eq in Hkey. subst key.
    destruct (m !! p) eqn:Hp; [apply lookup_insert_eq|exact Hp].
  - apply String.eqb_neq in Hkey.
    destruct (m !! key); [rewrite lookup_insert_ne by exact Hkey|];
      destruct (m !! p); reflexivity.
Qed.

Lemma fold_set_if_present_lookup (entry : string -> PropObj) (keys : list string)
    (m : gmap string (option PropObj)) (p : string) :
  fold_left (fun m key => set_if_present m key (entry key)) keys m !! p
  = match m !! p with
    | Some x => if string_in p keys then Some (Some (entry p)) else Some x
    | None => None
    end.
Proof.
  revert m. induction keys as [|k keys IH]; intros m; cbn [fold_left].
  - destruct (m !! p); reflexivity.
  - rewrite IH, set_if_present_lookup. unfold string_in. cbn [existsb].
    destruct (m !! p) as [x|]; [|reflexivity].
    rewrite (String.eqb_sym p k).
    destruct (String.eqb k p) eqn:Hk; [|reflexivity].
    apply String.eqb_eq in Hk. subst k.
    destruct (existsb (String.eqb p) keys); reflexivity.
Qed.

Lemma find_app_first {A : Type} (f : A -> bool) (l1 l2 : list A) :
  List.find f (l1 ++ l2)
  = match List.find f l1 with Some x => Some x | None => List.find f l2 end.
Proof.
  induction l1 as [|a l1 IH]; [reflexivity|].
  cbn. destruct (f a); [reflexivity|exact IH].
Qed.

Lemma fold_insert_lookup (fs : list ContactField) (m : gmap string (option PropObj))
    (p : string) :
  fold_left (fun m field => <[field_key field := Some (PROP_FIELD field)]> m) fs m !! p
  = match List.find (fun f => String.eqb (field_key f) p) (rev fs) with
    | Some f => Some (Some (PROP_FIELD f))
    | None => m !! p
    end.
Proof.
  revert m. induction fs as [|f fs IH]; intros m; [reflexivity|].
  cbn [fold_left rev]. rewrite IH, find_app_first.
  destruct (List.find _ (rev fs)); [reflexivity|].
  cbn [List.find]. destruct (String.eqb (field_key f) p) eqn:Hf.
  - apply String.eqb_eq in Hf. subst p. apply lookup_insert_eq.
  - apply String.eqb_neq in Hf. apply lookup_insert_ne, Hf.
Qed.

Lemma find_rev_filter {A : Type} (f g : A -> bool) (l : list A) :
  List.find f (rev (List.filter g l)) = List.find (fun x => g x && f x) (rev l).
Proof.
  induction l as [|a l IH]; [reflexivity|].
  cbn [List.filter rev]. rewrite find_app_first.
  destruct (g a) eqn:Hg; cbn [rev]; rewrite ?find_app_first, IH.
  - destruct (List.find _ (rev l)); [reflexivity|]. cbn. rewrite Hg. reflexivity.
  - destruct (List.find _ (rev l)); [reflexivity|]. cbn. rewrite Hg. reflexivity.
Qed.

Lemma find_ext {A : Type} (f g : A -> bool) (l : list A) :
  (forall x, f x = g x) -> List.find f l = List.find g l.
Proof.
  intros H. induction l as [|a l IH]; [reflexivity|].
  cbn. rewrite H, IH. reflexivity.
Qed.

(** The fields that [get_prop_map] reads from the registry give, for a
    name, the field that it is the key of. *)
Lemma active_fields_find (registry : list ContactField) (org : Org)
    (attr_props : gset string) (p : string) :
  List.find (fun f => String.eqb (field_key f) p)
            (rev (active_fields registry org attr_props))
  = if bool_decide (p ∈ attr_props) then field_for registry org p else None.
Proof.
  unfold active_fields, field_for. rewrite find_rev_filter.
  destruct (bool_decide (p ∈ attr_props)) eqn:Hp.
  - apply find_ext. intros f.
    destruct (String.eqb (field_key f) p) eqn:Hf.
    + apply String.eqb_eq in Hf. rewrite Hf, Hp.
      destruct (org_id (field_org f) =? org_id org), (field_is_active f); reflexivity.
    + destruct (org_id (field_org f) =? org_id org),
        (bool_decide (field_key f ∈ attr_props)), (field_is_active f); reflexivity.
  - induction (rev registry) as [|f l IH]; [reflexivity|].
    cbn [List.find]. destruct (String.eqb (field_key f) p) eqn:Hf.
    + apply String.eqb_eq in Hf. rewrite Hf, Hp.
      destruct (org_id (field_org f) =? org_id org), (field_is_active f); exact IH.
    + destruct (org_id (field_org f) =? org_id org),
        (bool_decide (field_key f ∈ attr_props)), (field_is_active f); exact IH.
Qed.

(** The candidates: each property name of the query with what it resolves
    to, if anything. *)
Lemma candidate_map_lookup (registry : list ContactField) (query : ContactQuery)
    (org : Org) (p : string) :
  candidate_map registry query org !! p
  = if string_in p (get_prop_names (root query))
    then Some (resolve registry org p) else None.
Proof.
  unfold candidate_map.
  rewrite (fold_set_if_present_lookup PROP_SCHEME).
  rewrite (fold_set_if_present_lookup PROP_ATTRIBUTE).
  rewrite fold_insert_lookup, active_fields_find, lookup_gset_to_gmap.
  rewrite (string_in_elem_of p (get_prop_names (root query))).
  unfold resolve.
  generalize (string_in p SEARCHABLE_SCHEMES). intros is_scheme.
  destruct (bool_decide (p ∈ (list_to_set (get_prop_names (root query)) : gset string)))
    eqn:Hall.
  - apply bool_decide_eq_true_1 in Hall. rewrite option_guard_True by exact Hall.
    destruct (string_in p (searchable_attrs org)) eqn:Hattr.
    + rewrite bool_decide_eq_false_2.
      * cbn. destruct is_scheme; reflexivity.
      * rewrite elem_of_difference. intros [_ Hnot].
        apply Hnot, elem_of_list_to_set, list_elem_of_In, string_in_In, Hattr.
    + rewrite bool_decide_eq_true_2.
      * destruct (field_for registry org p); cbn;
          destruct is_scheme; reflexivity.
      * rewrite elem_of_difference. split; [exact Hall|]. intros Hin.
        apply elem_of_list_to_set, list_elem_of_In, string_in_In in Hin. congruence.
  - apply bool_decide_eq_false_1 in Hall. rewrite option_guard_False by exact Hall.
    rewrite bool_decide_eq_false_2; [reflexivity|].
    rewrite elem_of_difference. tauto.
Qed.

Lemma unrecognized_filter (m : gmap string (option PropObj)) :
  match List.filter (fun item : string * option PropObj =>
                       match item.2 with None => true | Some _ => false end)
                    (map_to_list m) with
  | [] => forall p o, m !! p = Some o -> o <> None
  | (p, _) :: _ => m !! p = Some None
  end.
Proof.
  destruct (List.filter _ _) as [|[p o] l] eqn:Hf.
  - intros p o Hp ->.
    assert (Hin : In (p, @None PropObj) []).
    { rewrite <- Hf. apply filter_In. split; [|reflexivity].
      apply list_elem_of_In, elem_of_map_to_list, Hp. }
    destruct Hin.
  - assert (Hin : In (p, o) (List.filter
                               (fun item : string * option PropObj =>
                                  match item.2 with None => true | Some _ => false end)
                               (map_to_list m)))
      by (rewrite Hf; left; reflexivity).
    apply filter_In in Hin as [Hin Ho]. cbn in Ho.
    destruct o; [discriminate|].
    apply elem_of_map_to_list, list_elem_of_In, Hin.
Qed.

Lemma get_prop_map_Ok (registry : list ContactField) (query : ContactQuery) (org : Org)
    (prop_map : gmap string PropObj) :
  get_prop_map registry query org = Ok prop_map ->
  forall p, prop_map !! p
            = if string_in p (get_prop_names (root query))
              then resolve registry org p else None.
Proof.
  rewrite get_prop_map_candidates. intros H p.
  destruct (List.filter _ _) as [|[p0 o] l]; [|discriminate].
  injection H as <-. rewrite lookup_omap, candidate_map_lookup.
  destruct (string_in p (get_prop_names (root query))); reflexivity.
Qed.

Lemma get_prop_map_Raise (registry : list ContactField) (query : ContactQuery)
    (org : Org) (e : Exception) :
  get_prop_map registry query org = Raise e ->
  exists p, In p (get_prop_names (root query))
            /\ resolve registry org p = None
            /\ e = SearchException (String.append "Unrecognized field: " p).
Proof.
  rewrite get_prop_map_candidates. intros H.
  pose proof (unrecognized_filter (candidate_map registry query org)) as Hf.
  destruct (List.filter _ _) as [|[p o] l]; [discriminate|].
  injection H as <-. exists p.
  rewrite candidate_map_lookup in Hf.
  destruct (string_in p (get_prop_names (root query))) eqn:Hin; [|discriminate].
  apply string_in_In in Hin. injection Hf as Hf. auto.
Qed.

Lemma get_prop_map_resolved (registry : list ContactField) (query : ContactQuery)
    (org : Org) (prop_map : gmap string PropObj) (p : string) :
  get_prop_map registry query org = Ok prop_map ->
  In p (get_prop_names (root query)) ->
  resolve registry org p <> None.
Proof.
  rewrite get_prop_map_candidates. intros H Hin.
  pose proof (unrecognized_filter (candidate_map registry query org)) as Hf.
  destruct (List.filter _ _) as [|[p0 o] l]; [|discriminate].
  apply (Hf p). rewrite candidate_map_lookup.
  apply string_in_In in Hin. rewrite Hin. reflexivity.
Qed.

(** X5: in the property map of a query, each property name of the query,
    and no other, has an entry: the scheme when the name is [tel] or
    [twitter], else the attribute when it is [name] or, for an anonymous
    organization, [id], else a field of the organization that is active
    and has the name as its key. *)
Theorem get_prop_map_resolution (registry : list ContactField) (query : ContactQuery)
    (org : Org) (prop_map : gmap string PropObj) :
  get_prop_map registry query org = Ok prop_map ->
  forall p,
    prop_map !! p
    = if string_in p (get_prop_names (root query))
      then (if string_in p SEARCHABLE_SCHEMES then Some (PROP_SCHEME p)
            else if string_in p (searchable_attrs org) then Some (PROP_ATTRIBUTE p)
            else PROP_FIELD <$> field_for registry org p)
      else None.
Proof. exact (get_prop_map_Ok registry query org prop_map). Qed.

Lemma get_prop_map_resolution_witness :
  get_prop_map [nickname] nick_or_tel anonymous_org
  = Ok (omap id (candidate_map [nickname] nick_or_tel anonymous_org))
  /\ omap id (candidate_map [nickname] nick_or_tel anonymous_org) !! "nickname"
     = Some (PROP_FIELD nickname).
Proof.
  split; [vm_compute; reflexivity|].
  rewrite (get_prop_map_resolution [nickname] nick_or_tel anonymous_org
             (omap id (candidate_map [nickname] nick_or_tel anonymous_org)))
    by (vm_compute; reflexivity).
  reflexivity.
Defined.

(** X6: [get_prop_map] returns a map when every property name of the query
    is a scheme, a searchable attribute or the key of an active field of
    the organization, and only then; otherwise the [SearchException] that
    it raises names a property of the query that is none of these. *)
Theorem get_prop_map_unrecognized (registry : list ContactField) (query : ContactQuery)
    (org : Org) :
  ((exists prop_map, get_prop_map registry query org = Ok prop_map)
   <-> forall p, In p (get_prop_names (root query)) -> resolve registry org p <> None)
  /\ (forall e, get_prop_map registry query org = Raise e ->
        exists p, In p (get_prop_names (root query))
                  /\ resolve registry org p = None
                  /\ e = SearchException (String.append "Unrecognized field: " p)).
Proof.
  split; [split|].
  - intros [prop_map H] p. apply (get_prop_map_resolved registry query org prop_map p H).
  - intros Hall. destruct (get_prop_map registry query org) as [prop_map|e] eqn:H;
      [eauto|].
    apply get_prop_map_Raise in H as (p & Hin & Hnone & _).
    destruct (Hall p Hin Hnone).
  - apply get_prop_map_Raise.
Qed.

Lemma dynamic_group_names (query : ContactQuery) (p : string) :
  can_be_dynamic_group query = true ->
  In p (get_prop_names (root query)) -> p <> "name" /\ p <> "id".
Proof.
  unfold can_be_dynamic_group. intros H Hin.
  apply bool_decide_eq_true_1 in H.
  assert (Hp : p ∈ (list_to_set (get_prop_names (root query)) : gset string))
    by (apply elem_of_list_to_set, list_elem_of_In, Hin).
  split; intros ->; set_solver.
Qed.

(** X7: the property map of a query that can be a dynamic group has no
    attribute, for an organization that is anonymous or not: each entry is
    the scheme [tel] or [twitter] under its own name, or a field under its
    key. *)
Theorem dynamic_group_no_attribute (registry : list ContactField)
    (query : ContactQuery) (org : Org) (prop_map : gmap string PropObj) :
  can_be_dynamic_group query = true ->
  get_prop_map registry query org = Ok prop_map ->
  forall p entry, prop_map !! p = Some entry ->
    (p = "tel" \/ p = "twitter") /\ entry = PROP_SCHEME p
    \/ exists field, entry = PROP_FIELD field /\ field_key field = p.
Proof.
  intros Hdyn Hmap p entry Hp.
  rewrite (get_prop_map_Ok registry query org prop_map Hmap p) in Hp.
  destruct (string_in p (get_prop_names (root query))) eqn:Hin; [|discriminate].
  apply string_in_In in Hin.
  destruct (dynamic_group_names query p Hdyn Hin) as [Hname Hid].
  unfold resolve in Hp.
  destruct (string_in p SEARCHABLE_SCHEMES) eqn:Hs.
  - injection Hp as <-. left. split; [|reflexivity].
    apply string_in_In in Hs. cbn in Hs. intuition congruence.
  - destruct (string_in p (searchable_attrs org)) eqn:Ha.
    + apply string_in_In in Ha. unfold searchable_attrs in Ha.
      destruct (is_anon org); cbn in Ha; intuition congruence.
    + unfold field_for in Hp.
      destruct (List.find _ _) as [f|] eqn:Hf; [|discriminate].
      injection Hp as <-. right. exists f. split; [reflexivity|].
      apply find_some in Hf as [_ Hf].
      apply andb_true_iff in Hf as [Hf _]. apply andb_true_iff in Hf as [_ Hf].
      apply String.eqb_eq, Hf.
Qed.

Lemma dynamic_group_no_attribute_witness :
  can_be_dynamic_group nick_or_tel = true
  /\ get_prop_map [nickname] nick_or_tel anonymous_org
     = Ok (omap id (candidate_map [nickname] nick_or_tel anonymous_org))
  /\ forall p entry,
       omap id (candidate_map [nickname] nick_or_tel anonymous_org) !! p = Some entry ->
       (p = "tel" \/ p = "twitter") /\ entry = PROP_SCHEME p
       \/ exists field, entry = PROP_FIELD field /\ field_key field = p.
Proof.
  split; [vm_compute; reflexivity|]. split; [vm_compute; reflexivity|].
  apply (dynamic_group_no_attribute [nickname] nick_or_tel anonymous_org).
  - vm_compute. reflexivity.
  - vm_compute. reflexivity.
Defined.

(** ** The fields of a query *)

Lemma fields_of_In (prop_map : gmap string PropObj) (f : ContactField) :
  In f (fields_of prop_map) <-> exists p, prop_map !! p = Some (PROP_FIELD f).
Proof.
  unfold fields_of. rewrite <- list_elem_of_In, list_elem_of_omap. split.
  - intros ([p entry] & Hin & Hf). apply elem_of_map_to_list in Hin.
    cbn in Hf. destruct entry; try discriminate. injection Hf as ->. eauto.
  - intros [p Hp]. exists (p, PROP_FIELD f). split; [|reflexivity].
    apply elem_of_map_to_list, Hp.
Qed.

Lemma field_keys_sublist (l : list (string * PropObj)) :
  (forall p f, In (p, PROP_FIELD f) l -> field_key f = p) ->
  sublist (field_key <$> omap (fun entry : string * PropObj =>
                                 match entry.2 with
                                 | PROP_FIELD prop_obj => Some prop_obj
                                 | _ => None
                                 end) l)
          (l.*1).
Proof.
  induction l as [|[p entry] l IH]; intros Hkeys; [constructor|].
  assert (Hl : forall p f, In (p, PROP_FIELD f) l -> field_key f = p)
    by (intros q f Hin; apply Hkeys; right; exact Hin).
  destruct entry as [f| |]; cbn.
  - rewrite (Hkeys p f (or_introl eq_refl)). apply sublist_skip, IH, Hl.
  - apply sublist_cons, IH, Hl.
  - apply sublist_cons, IH, Hl.
Qed.

Lemma resolve_field (registry : list ContactField) (org : Org) (p : string)
    (f : ContactField) :
  resolve registry org p = Some (PROP_FIELD f) ->
  In f registry
  /\ org_id (field_org f) = org_id org
  /\ field_is_active f = true
  /\ field_key f = p
  /\ string_in p SEARCHABLE_SCHEMES = false
  /\ string_in p (searchable_attrs org) = false.
Proof.
  unfold resolve, field_for.
  destruct (string_in p SEARCHABLE_SCHEMES); [discriminate|].
  destruct (string_in p (searchable_attrs org)); [discriminate|].
  destruct (List.find _ _) as [f'|] eqn:Hf; [|discriminate].
  intros H. injection H as ->.
  apply find_some in Hf as [Hin Hf].
  apply andb_true_iff in Hf as [Hf Hactive]. apply andb_true_iff in Hf as [Horg Hkey].
  apply in_rev in Hin. apply Z.eqb_eq in Horg. apply String.eqb_eq in Hkey.
  repeat split; assumption || reflexivity.
Qed.

(** X8: the fields that [extract_fields] returns for a query are fields of
    the organization that are active; the key of each is a property name
    of the query that is no scheme and no searchable attribute, and no two
    of them have the same key. *)
Theorem extract_fields_sound
    (parser_parse : string -> ExpressionContext + ParseCancellationException)
    (registry : list ContactField) (org : Org) (text : string)
    (found : list ContactField) :
  extract_fields parser_parse registry org text = Ok found ->
  (forall f, In f found ->
     In f registry
     /\ org_id (field_org f) = org_id org
     /\ field_is_active f = true
     /\ ~ In (field_key f) SEARCHABLE_SCHEMES
     /\ ~ In (field_key f) (searchable_attrs org)
     /\ exists parsed, parse_query parser_parse text true (is_anon org) = Ok parsed
                       /\ In (field_key f) (get_prop_names (root parsed)))
  /\ NoDup (field_key <$> found).
Proof.
  unfold extract_fields.
  destruct (parse_query parser_parse text true (is_anon org)) as [parsed|e];
    [|discriminate].
  cbn [mbind Result_bind bind].
  destruct (get_prop_map registry parsed org) as [prop_map|e] eqn:Hmap; [|discriminate].
  cbn [mbind Result_bind bind]. intros H. injection H as <-.
  assert (Hentry : forall p f, prop_map !! p = Some (PROP_FIELD f) ->
                     In p (get_prop_names (root parsed))
                     /\ resolve registry org p = Some (PROP_FIELD f)).
  { intros p f Hp. rewrite (get_prop_map_Ok registry parsed org prop_map Hmap p) in Hp.
    destruct (string_in p (get_prop_names (root parsed))) eqn:Hin; [|discriminate].
    apply string_in_In in Hin. auto. }
  split.
  - intros f Hf. apply fields_of_In in Hf as [p Hp].
    destruct (Hentry p f Hp) as [Hin Hres].
    destruct (resolve_field registry org p f Hres)
      as (Hreg & Horg & Hactive & Hkey & Hscheme & Hattr).
    subst p. repeat (split; [assumption|]).
    split; [intros H; apply string_in_In in H; congruence|].
    split; [intros H; apply string_in_In in H; congruence|].
    exists parsed. auto.
  - apply (sublist_NoDup _ ((map_to_list prop_map).*1));
      [apply NoDup_fst_map_to_list|].
    apply field_keys_sublist. intros p f Hin.
    apply list_elem_of_In, elem_of_map_to_list in Hin.
    destruct (Hentry p f Hin) as [_ Hres].
    apply (resolve_field registry org p f Hres).
Qed.

Lemma extract_fields_sound_witness :
  extract_fields nickname_front_end [nickname] anonymous_org "nickname = bob"
  = Ok [nickname]
  /\ NoDup (field_key <$> [nickname]).
Proof.
  split; [vm_compute; reflexivity|].
  apply (extract_fields_sound nickname_front_end [nickname] anonymous_org
           "nickname = bob" [nickname]).
  vm_compute. reflexivity.
Defined.

(** ** Queries from a text *)

Lemma optimized_returns (query : ContactQuery) :
  exists query', optimized query = Ok query'.
Proof.
  unfold optimized.
  destruct (split_by_prop_returns (simplify (root query))) as [n' ->]. eauto.
Qed.

(** X9: [parse_query] raises nothing but the [SearchException] of a text
    that the parser refuses, with or without the token where it stopped;
    the optimization raises nothing, so a text is parsed with it when it
    is parsed without it. *)
Theorem parse_query_errors
    (parser_parse : string -> ExpressionContext + ParseCancellationException)
    (text : string) (as_anon : bool) :
  (forall optimize e,
     parse_query parser_parse text optimize as_anon = Raise e -> is_parse_error e)
  /\ ((exists query, parse_query parser_parse text false as_anon = Ok query)
      <-> exists query, parse_query parser_parse text true as_anon = Ok query).
Proof.
  unfold parse_query. destruct (is_phonenumber text) as [is_phone cleaned_phone].
  destruct (parser_parse _) as [tree|ex].
  - split.
    + intros [|] e H; [|discriminate].
      destruct (optimized_returns {| root := visit as_anon tree |}) as [q Hq].
      congruence.
    + split; intros _; [apply optimized_returns|eauto].
  - split.
    + intros optimize e H. injection H as <-.
      destruct ex as [[token|]|]; [|left; reflexivity|left; reflexivity].
      destruct (negb (is_EOF token)); [right; eauto|left; reflexivity].
    + split; intros [query H]; discriminate.
Qed.

(** X10: [evaluate_query], which optimizes the query that it parses,
    returns a boolean for a contact when the evaluation of the query as it
    is parsed does, and the same boolean. *)
Theorem evaluate_query_optimized
    (parser_parse : string -> ExpressionContext + ParseCancellationException)
    (registry : list ContactField) (org : Org) (text : string)
    (contact_json : Contact_json) (parsed : ContactQuery) :
  parse_query parser_parse text false (is_anon org) = Ok parsed ->
  forall b,
    evaluate_query parser_parse registry org text contact_json = Ok b
    <-> ContactQuery_evaluate registry parsed org contact_json = Ok b.
Proof.
  unfold evaluate_query, parse_query.
  destruct (is_phonenumber text) as [is_phone cleaned_phone].
  destruct (parser_parse _) as [tree|ex]; [|discriminate].
  intros H b. injection H as <-.
  destruct (optimized_value {| root := visit (is_anon org) tree |}
              (visit_has_children (is_anon org) tree)) as (query' & -> & Hiff).
  cbn [mbind Result_bind bind]. symmetry. apply Hiff.
Qed.

Lemma evaluate_query_optimized_witness :
  parse_query nickname_front_end "nickname = bob" false true
  = Ok {| root := visit true (ConditionContext "nickname" "=" (TextLiteral "bob")) |}
  /\ forall b,
       evaluate_query nickname_front_end [nickname] anonymous_org "nickname = bob"
                      {| fields := ∅; urns := [] |} = Ok b
       <-> ContactQuery_evaluate [nickname]
             {| root := visit true (ConditionContext "nickname" "=" (TextLiteral "bob")) |}
             anonymous_org {| fields := ∅; urns := [] |} = Ok b.
Proof.
  split; [reflexivity|].
  apply (evaluate_query_optimized nickname_front_end [nickname] anonymous_org).
  reflexivity.
Defined.

Lemma implicit_condition_attribute (as_anon : bool) (TEXT : string) :
  as_anon = true \/ TEL_VALUE_REGEX_match TEXT = false ->
  is_set_condition (visitImplicitCondition as_anon TEXT) = false
  /\ (prop (visitImplicitCondition as_anon TEXT) = "name"
      \/ as_anon = true /\ prop (visitImplicitCondition as_anon TEXT) = "id").
Proof.
  unfold visitImplicitCondition. intros [->| Htel].
  - destruct (int_of_string TEXT); cbn; auto.
  - rewrite Htel. destruct as_anon; [destruct (int_of_string TEXT)|]; cbn; auto.
Qed.

(** X11: a text that is read as one word, and not as a phone number, is a
    condition on the name of the contact or, for an anonymous
    organization, on its id; [evaluate_query] has no value for it: the
    evaluation raises the [ValueError] of a condition on an attribute. *)
Theorem evaluate_query_implicit
    (parser_parse : string -> ExpressionContext + ParseCancellationException)
    (registry : list ContactField) (org : Org) (text TEXT : string)
    (contact_json : Contact_json) :
  parser_parse text = inl (ImplicitCondition TEXT) ->
  is_anon org = true
  \/ TEL_VALUE_REGEX_match text = false /\ TEL_VALUE_REGEX_match TEXT = false ->
  evaluate_query parser_parse registry org text contact_json
  = Raise (ValueError "Unrecognized contact field type 'A'").
Proof.
  intros Hparse Hcase. unfold evaluate_query, parse_query.
  assert (Hstream :
            (let '(is_phone, cleaned_phone) := is_phonenumber text in
             match cleaned_phone with
             | Some cleaned => if negb (is_anon org) && is_phone then cleaned else text
             | None => text
             end) = text).
  { unfold is_phonenumber. destruct Hcase as [->|[-> _]]; [|reflexivity].
    destruct (TEL_VALUE_REGEX_match text); reflexivity. }
  destruct (is_phonenumber text) as [is_phone cleaned_phone].
  rewrite Hstream, Hparse. cbn [visit].
  destruct (implicit_condition_attribute (is_anon org) TEXT) as [Hset Hprop];
    [tauto|].
  set (c := visitImplicitCondition (is_anon org) TEXT) in *.
  cbn [optimized root simplify split_by_prop mbind Result_bind bind].
  unfold ContactQuery_evaluate.
  assert (Hres : resolve registry org (prop c) = Some (PROP_ATTRIBUTE (prop c))).
  { unfold resolve, searchable_attrs.
    destruct Hprop as [->|[-> ->]]; reflexivity || (destruct (is_anon org); reflexivity). }
  destruct (get_prop_map registry {| root := Cond c |} org) as [prop_map|e] eqn:Hmap.
  - cbn [mbind Result_bind bind root].
    pose proof (get_prop_map_Ok registry _ org prop_map Hmap (prop c)) as Hp.
    cbn [root get_prop_names string_in existsb] in Hp.
    rewrite String.eqb_refl, Hres in Hp. cbn [orb] in Hp.
    rewrite (evaluate_attribute c (prop c) prop_map contact_json Hp), Hset.
    reflexivity.
  - apply get_prop_map_Raise in Hmap as (p & Hin & Hnone & _).
    cbn [root get_prop_names] in Hin. destruct Hin as [<-|[]]. congruence.
Qed.

Lemma evaluate_query_implicit_witness :
  evaluate_query bob_front_end [nickname] anonymous_org "bob"
                 {| fields := ∅; urns := [] |}
  = Raise (ValueError "Unrecognized contact field type 'A'").
Proof.
  apply (evaluate_query_implicit bob_front_end [nickname] anonymous_org "bob" "bob").
  - reflexivity.
  - left. reflexivity.
Defined.

(** ** The evaluation of a combination *)

Lemma for_each_values {A B : Type} (f : A -> Result B) (l : list A) (bs : list B) :
  for_each f l = Ok bs <-> Forall2 (fun a b => f a = Ok b) l bs.
Proof.
  revert bs. induction l as [|a l IH]; intros bs.
  - cbn. split; [intros H; injection H as <-; constructor|].
    intros H. inversion H. reflexivity.
  - cbn [for_each]. split.
    + destruct (f a) as [b|e] eqn:Ha; [|discriminate].
      cbn [mbind Result_bind bind].
      destruct (for_each f l) as [bs'|e] eqn:Hl; [|discriminate].
      intros H. injection H as <-. constructor; [exact Ha|]. apply IH. reflexivity.
    + intros H. inversion H as [|a' b l' bs' Ha Hl]; subst.
      rewrite Ha. cbn [mbind Result_bind bind].
      apply IH in Hl. rewrite Hl. reflexivity.
Qed.

Lemma for_each_raises {A B : Type} (f : A -> Result B) (before after : list A)
    (a : A) (e : Exception) :
  Forall (fun a => exists b, f a = Ok b) before ->
  f a = Raise e ->
  for_each f (before ++ a :: after) = Raise e.
Proof.
  intros Hbefore Ha. induction Hbefore as [|a' l [b Hb] _ IH].
  - cbn. rewrite Ha. reflexivity.
  - cbn [app for_each]. rewrite Hb. cbn [mbind Result_bind bind].
    cbn [for_each] in IH. rewrite IH. reflexivity.
Qed.

(** X12: a combination is evaluated on a contact without a short cut:
    it has a value when it has children and each of them has one, and
    then an [AND] holds when all of them hold and an [OR] when one of
    them does; the exception of the first child that raises one is the
    exception of the combination, whatever the other children are.  A
    [SinglePropCombination] is evaluated as the [BoolCombination] of its
    children. *)
Theorem evaluate_combination (op : BoolOp) (children : list QueryNode)
    (contact_json : Contact_json) (prop_map : gmap string PropObj) :
  (forall b,
     evaluate (BoolCombination op children) contact_json prop_map = Ok b
     <-> children <> []
         /\ exists values,
              Forall2 (fun child v => evaluate child contact_json prop_map = Ok v)
                      children values
              /\ b = all_or_any op values)
  /\ (forall before child after e,
        children = before ++ child :: after ->
        Forall (fun c => exists v, evaluate c contact_json prop_map = Ok v) before ->
        evaluate child contact_json prop_map = Raise e ->
        evaluate (BoolCombination op children) contact_json prop_map = Raise e)
  /\ (forall p,
        evaluate (SinglePropCombination p op children) contact_json prop_map
        = evaluate (BoolCombination op children) contact_json prop_map).
Proof.
  split; [|split].
  - intros b. cbn [evaluate]. split.
    + destruct (for_each _ children) as [values|e] eqn:Hvalues; [|discriminate].
      cbn [mbind Result_bind bind]. intros Hb.
      apply for_each_values in Hvalues.
      assert (Hne : values <> []) by (intros ->; discriminate).
      split; [intros ->; inversion Hvalues; congruence|].
      exists values. split; [exact Hvalues|].
      rewrite (reduce_all_or_any op values Hne) in Hb. congruence.
    + intros (Hne & values & Hvalues & ->).
      assert (Hne' : values <> [])
        by (intros ->; inversion Hvalues; congruence).
      apply for_each_values in Hvalues. rewrite Hvalues.
      cbn [mbind Result_bind bind]. apply reduce_all_or_any, Hne'.
  - intros before child after e -> Hbefore Hchild. cbn [evaluate].
    rewrite (for_each_raises (fun child => evaluate child contact_json prop_map)
               before after child e Hbefore Hchild).
    reflexivity.
  - reflexivity.
Qed.

(** ** Conditions that ask whether a value is set *)

Lemma set_answer_negb {A : Type} (contact_value : option A) :
  set_answer false contact_value = negb (set_answer true contact_value).
Proof. destruct contact_value; reflexivity. Qed.

Lemma complement_values (x b : bool) :
  @Ok bool x = Ok b <-> @Ok bool (negb x) = Ok (negb b).
Proof. destruct x, b; cbn; split; (reflexivity || discriminate). Qed.

(** X13: on every contact, the condition that a property is not set, with
    [=] or [is], has the value that the condition that it is set, with
    [!=], does not have; and one raises an exception when the other
    does. *)
Theorem is_set_complement (p : string) (contact_json : Contact_json)
    (prop_map : gmap string PropObj) :
  IsSetCondition_init p "is" = IsSetCondition_init p "="
  /\ forall b,
       evaluate (Cond (IsSetCondition_init p "!=")) contact_json prop_map = Ok b
       <-> evaluate (Cond (IsSetCondition_init p "=")) contact_json prop_map
           = Ok (negb b).
Proof.
  split; [reflexivity|]. intros b.
  cbn [evaluate IsSetCondition_init is_set_condition].
  unfold IsSetCondition_evaluate.
  change (prop (IsSetCondition_init p "!=")) with p.
  change (prop (IsSetCondition_init p "=")) with p.
  destruct (prop_map !! p) as [[field|attr|scheme]|]; [| | |split; intros H; discriminate H].
  - change (is_set_of _) with (Ok true) at 1.
    change (is_set_of _) with (Ok false).
    cbn [mbind Result_bind bind].
    destruct (fields contact_json !! field_uuid field) as [contact_field|].
    + destruct (value_type field); rewrite ?set_answer_negb;
        (apply complement_values || (split; intros H; discriminate H)).
    + apply (complement_values false).
  - split; intros H; discriminate H.
  - change (is_set_of _) with (Ok true) at 1.
    change (is_set_of _) with (Ok false).
    cbn [mbind Result_bind bind]. rewrite set_answer_negb.
    apply complement_values.
Qed.

(** ** Conditions on a scheme *)

Lemma prefix_refl (s : string) : String.prefix s s = true.
Proof.
  induction s as [|a s IH]; [reflexivity|].
  cbn. destruct (ascii_dec a a); [exact IH|congruence].
Qed.

Lemma contains_refl (s : string) : contains s s = true.
Proof. destruct s; cbn [contains]; rewrite prefix_refl; reflexivity. Qed.

Lemma evaluate_urns_equal (c : Condition) (scheme v : string) (l : list URN) :
  value c = Str v -> comparator c = "=" ->
  evaluate_urns c scheme l
  = Ok (existsb (fun urn => String.eqb (urn_scheme urn) scheme
                            && String.eqb (upper (urn_path urn)) (upper v)) l).
Proof.
  intros Hv Hc. induction l as [|urn l IH]; [reflexivity|].
  cbn [evaluate_urns existsb]. rewrite Hv, Hc. cbn [value_upper mbind Result_bind bind].
  destruct (String.eqb (urn_scheme urn) scheme); [|exact IH].
  cbn [String.eqb Ascii.eqb andb].
  change (("=" =? "=")%string) with true. cbn iota.
  destruct (String.eqb (upper (urn_path urn)) (upper v)); [reflexivity|exact IH].
Qed.

Lemma evaluate_urns_contains (c : Condition) (scheme v : string) (l : list URN) :
  value c = Str v -> comparator c = "~" ->
  evaluate_urns c scheme l
  = Ok (existsb (fun urn => String.eqb (urn_scheme urn) scheme
                            && contains (upper v) (upper (urn_path urn))) l).
Proof.
  intros Hv Hc. induction l as [|urn l IH]; [reflexivity|].
  cbn [evaluate_urns existsb]. rewrite Hv, Hc. cbn [value_upper mbind Result_bind bind].
  destruct (String.eqb (urn_scheme urn) scheme); [|exact IH].
  change (("~" =? "=")%string) with false.
  change (("~" =? "~")%string) with true. cbn iota. cbn [andb].
  destruct (contains (upper v) (upper (urn_path urn))); [reflexivity|exact IH].
Qed.

(** X14: on a contact, a condition on a scheme with [=] holds when the
    contact has a URN of the scheme whose path is the value, and with [~]
    when it has one whose path contains the value, both without regard to
    case; so the contacts of the first are contacts of the second. *)
Theorem scheme_condition_evaluate (p scheme v : string) (contact_json : Contact_json)
    (prop_map : gmap string PropObj) :
  prop_map !! p = Some (PROP_SCHEME scheme) ->
  evaluate (Cond (Condition_init p "=" (Str v))) contact_json prop_map
  = Ok (has_urn scheme (fun path => String.eqb path (upper v)) contact_json)
  /\ evaluate (Cond (Condition_init p "~" (Str v))) contact_json prop_map
     = Ok (has_urn scheme (fun path => contains (upper v) path) contact_json)
  /\ (evaluate (Cond (Condition_init p "=" (Str v))) contact_json prop_map = Ok true ->
      evaluate (Cond (Condition_init p "~" (Str v))) contact_json prop_map = Ok true).
Proof.
  intros Hp.
  assert (Heq : evaluate (Cond (Condition_init p "=" (Str v))) contact_json prop_map
                = Ok (has_urn scheme (fun path => String.eqb path (upper v))
                              contact_json)).
  { cbn [evaluate Condition_init is_set_condition]. unfold Condition_evaluate.
    change (prop (Condition_init p "=" (Str v))) with p.
    rewrite Hp. apply evaluate_urns_equal; reflexivity. }
  assert (Hin : evaluate (Cond (Condition_init p "~" (Str v))) contact_json prop_map
                = Ok (has_urn scheme (fun path => contains (upper v) path)
                              contact_json)).
  { cbn [evaluate Condition_init is_set_condition]. unfold Condition_evaluate.
    change (prop (Condition_init p "~" (Str v))) with p.
    rewrite Hp. apply evaluate_urns_contains; reflexivity. }
  split; [exact Heq|]. split; [exact Hin|].
  rewrite Heq, Hin. intros H. injection H as H. f_equal.
  unfold has_urn in *. apply existsb_exists in H as (urn & Hurn & H).
  apply existsb_exists. exists urn. split; [exact Hurn|].
  apply andb_true_iff in H as [Hs Hpath]. apply String.eqb_eq in Hpath.
  rewrite Hs, Hpath. apply contains_refl.
Qed.

Lemma scheme_condition_evaluate_witness :
  ({[ "tel" := PROP_SCHEME "tel" ]} : gmap string PropObj) !! "tel"
  = Some (PROP_SCHEME "tel")
  /\ evaluate (Cond (Condition_init "tel" "~" (Str "123")))
       {| fields := ∅; urns := [ {| urn_scheme := "tel"; urn_path := "+5512345" |} ] |}
       {[ "tel" := PROP_SCHEME "tel" ]}
     = Ok (has_urn "tel" (fun path => contains (upper "123") path)
             {| fields := ∅;
                urns := [ {| urn_scheme := "tel"; urn_path := "+5512345" |} ] |}).
Proof.
  split; [vm_compute; reflexivity|].
  refine (proj1 (proj2 (scheme_condition_evaluate "tel" "tel" "123" _ _ _))).
  vm_compute. reflexivity.
Defined.

(** X15: for an organization that is not anonymous, a condition on a
    scheme whose comparator is neither [=] nor [~] is refused by the
    Django translation with a [SearchException], but not by the
    Elasticsearch translation, which returns the query of the documents
    with a URN of the scheme, whatever the value; the evaluation raises a
    [ValueError] on a contact that has a URN of the scheme and is false on
    the others. *)
Theorem scheme_comparators (c : Condition) (org : Org) (scheme v : string)
    (prop_map : gmap string PropObj) (contact_json : Contact_json) :
  prop_map !! prop c = Some (PROP_SCHEME scheme) ->
  is_set_condition c = false ->
  value c = Str v ->
  is_anon org = false ->
  comparator c <> "=" ->
  comparator c <> "~" ->
  as_query (Cond c) org prop_map
  = Raise (SearchException
             (String.append "Can't query contact URNs with " (comparator c)))
  /\ as_elasticsearch (Cond c) org prop_map
     = Ok (es_nested "urns" (es_term "urns.scheme" (ES_text (lower scheme))))
  /\ evaluate (Cond c) contact_json prop_map
     = if has_urn scheme (fun _ => true) contact_json
       then Raise (ValueError (String.append "Unknown urn scheme comparator: "
                                             (comparator c)))
       else Ok false.
Proof.
  intros Hp Hc Hv Hanon Heq Hin.
  apply String.eqb_neq in Heq. apply String.eqb_neq in Hin.
  split; [|split].
  - cbn [as_query]. unfold cond_as_query, Condition_as_query.
    rewrite Hc, Hp, Hanon. unfold _build_urn_query, ATTR_OR_URN_LOOKUPS.
    rewrite Heq, Hin. reflexivity.
  - cbn [as_elasticsearch]. rewrite Hc. unfold Condition_as_elasticsearch.
    rewrite Hp, Hv, Hanon, Heq, Hin. reflexivity.
  - cbn [evaluate]. rewrite Hc. unfold Condition_evaluate. rewrite Hp.
    unfold has_urn. induction (urns contact_json) as [|urn l IH]; [reflexivity|].
    cbn [evaluate_urns existsb]. rewrite Hv, Heq, Hin.
    cbn [value_upper mbind Result_bind bind].
    destruct (String.eqb (urn_scheme urn) scheme); [reflexivity|exact IH].
Qed.

Lemma scheme_comparators_witness :
  as_query (Cond (Condition_init "tel" ">" (Str "5"))) some_org
           {[ "tel" := PROP_SCHEME "tel" ]}
  = Raise (SearchException "Can't query contact URNs with >")
  /\ as_elasticsearch (Cond (Condition_init "tel" ">" (Str "5"))) some_org
                      {[ "tel" := PROP_SCHEME "tel" ]}
     = Ok (es_nested "urns" (es_term "urns.scheme" (ES_text "tel"))).
Proof.
  destruct (scheme_comparators (Condition_init "tel" ">" (Str "5")) some_org "tel" "5"
              {[ "tel" := PROP_SCHEME "tel" ]} {| fields := ∅; urns := [] |})
    as (Hq & Hes & _);
    [vm_compute; reflexivity|reflexivity|reflexivity|reflexivity
    |discriminate|discriminate|].
  split; [exact Hq|exact Hes].
Defined.
